(** * Ethereal: the transposition table and the pawn/king table

    A shallow embedding of [src/transposition.c] (with the constants of
    [src/types.h]) and the properties of its operations: table sizing,
    clearing, probing, storing and replacement, mate-score renormalisation,
    the occupancy estimate, the pawn/king cache and the packing of a board
    into its verification record.

    C integers are integers of [Z]; every conversion to a fixed width is
    written with the wrap functions below.  C arrays are total maps from
    the index to the cell.  The [assert]s of the source are compiled out
    of a release build and are no part of the functions; what they
    assert is proved below where it holds.  Allocation is taken to
    succeed. *)

From Stdlib Require Import ZArith List Bool Lia.
Import ListNotations.
Local Open Scope Z_scope.

(* ================================================================= *)
(** ** Machine integers *)

(** Conversion to an unsigned type of [w] bits. *)
Definition wrap_unsigned (w x : Z) : Z := x mod 2 ^ w.

(** Conversion to a two's complement type of [w] bits. *)
Definition wrap_signed (w x : Z) : Z := (x + 2 ^ (w - 1)) mod 2 ^ w - 2 ^ (w - 1).

Definition u8  : Z -> Z := wrap_unsigned 8.
Definition u16 : Z -> Z := wrap_unsigned 16.
Definition u64 : Z -> Z := wrap_unsigned 64.
Definition s8  : Z -> Z := wrap_signed 8.
Definition s16 : Z -> Z := wrap_signed 16.
Definition s32 : Z -> Z := wrap_signed 32.

Definition INT_MIN : Z := - 2 ^ 31.
Definition INT_MAX : Z := 2 ^ 31 - 1.

(** [for (i = start; ...; i++) s = body i s], run for [n] iterations. *)
Fixpoint for_loop {A : Type} (n : nat) (i : Z) (body : Z -> A -> A) (s : A) : A :=
  match n with
  | O => s
  | S n' => for_loop n' (i + 1) body (body i s)
  end.

(** An array is read by index; [array_set a i v] is [a] after [a[i] = v]. *)
Definition array_set {A : Type} (a : Z -> A) (i : Z) (v : A) : Z -> A :=
  fun j => if j =? i then v else a j.

(* ================================================================= *)
(** ** types.h *)

Definition WHITE : Z := 0.
Definition BLACK : Z := 1.

Definition MAX_PLY : Z := 128.

Definition WHITE_PAWN : Z := 0.
Definition WHITE_KNIGHT : Z := 1.
Definition WHITE_BISHOP : Z := 2.
Definition WHITE_ROOK : Z := 3.
Definition WHITE_QUEEN : Z := 4.
Definition WHITE_KING : Z := 5.
Definition BLACK_PAWN : Z := 8.
Definition BLACK_KNIGHT : Z := 9.
Definition BLACK_BISHOP : Z := 10.
Definition BLACK_ROOK : Z := 11.
Definition BLACK_QUEEN : Z := 12.
Definition BLACK_KING : Z := 13.
Definition EMPTY : Z := 14.

Definition MATE : Z := 32000 + MAX_PLY.
Definition MATE_IN_MAX : Z := MATE - MAX_PLY.
Definition TBWIN : Z := 31000 + MAX_PLY.
Definition TBWIN_IN_MAX : Z := TBWIN - MAX_PLY.
Definition VALUE_NONE : Z := MATE + 1.

(* ================================================================= *)
(** ** Declarations of transposition.h and board.h *)

(** Modelled from the spec: the header transposition.h is not part of the
    sources.  The bound classification is the four-valued enumeration
    none, lower, upper, exact held in the two low bits of a slot's
    generation byte. *)
Definition BOUND_NONE : Z := 0.
Definition BOUND_LOWER : Z := 1.
Definition BOUND_UPPER : Z := 2.
Definition BOUND_EXACT : Z := 3.

(** Modelled from the spec: the bound field is the low 2 bits of the
    generation byte, the age tag the remaining 6 bits, and a bucket has
    3 slots. *)
Definition TT_MASK_BOUND : Z := 0x03.
Definition TT_MASK_AGE : Z := 0xFC.
Definition TT_BUCKET_NB : Z := 3.

(** Modelled from the spec: [sizeof(TTBucket)]; [initTT] asserts that
    [2^16] buckets are exactly 2 megabytes. *)
Definition sizeof_TTBucket : Z := 32.

(** Modelled from the spec: a cache slot has a signed 8-bit depth, an
    8-bit generation byte, signed 16-bit evaluation and score, a 16-bit
    move and the 16-bit signature. *)
Record TTEntry : Type := mkTTEntry {
  tte_depth : Z;
  tte_generation : Z;
  tte_eval : Z;
  tte_value : Z;
  tte_move : Z;
  tte_hash16 : Z
}.

Record TTBucket : Type := mkTTBucket {
  slots : Z -> TTEntry;
  padding : Z
}.

Record TTable : Type := mkTTable {
  buckets : Z -> TTBucket;
  hashMask : Z;
  generation : Z
}.

(** Modelled from the spec: board.h is not part of the sources.  The
    functions below read a board's eight leading 64-bit words (the board
    reinterpreted as an array of words), its composite castling field,
    its en-passant square and its side to move. *)
Record Board : Type := mkBoard {
  rawBoard : Z -> Z;
  b_castleRooks : Z;
  b_epSquare : Z;
  b_turn : Z
}.

(** Modelled from the spec: the verification record has four packed
    words, one castling byte per side, the en-passant square, the side
    to move and padding. *)
Record BoardHashSrc : Type := mkBoardHashSrc {
  packedSquares : Z -> Z;
  hs_castleRooks : Z -> Z;
  hs_epSquare : Z;
  hs_turn : Z;
  hs_padding : Z
}.

(** Modelled from the spec: a pawn/king entry has the full 64-bit hash,
    the passed pawns and the evaluation. *)
Record PKEntry : Type := mkPKEntry {
  pke_pkhash : Z;
  pke_passed : Z;
  pke_eval : Z
}.

Record PKTable : Type := mkPKTable {
  entries : Z -> PKEntry
}.

(** The globals of transposition.c. *)
Record TTState : Type := mkTTState {
  Table : TTable;
  verificationHashes : Z -> BoardHashSrc;
  passedLookups : Z;
  verificationFailures : Z
}.

Definition MB : Z := u64 (Z.shiftl 1 20).

(** Memory after [memset(.., 0, ..)] or [calloc]. *)
Definition zeroTTEntry : TTEntry := mkTTEntry 0 0 0 0 0 0.
Definition zeroTTBucket : TTBucket := mkTTBucket (fun _ => zeroTTEntry) 0.
Definition zeroBoardHashSrc : BoardHashSrc :=
  mkBoardHashSrc (fun _ => 0) (fun _ => 0) 0 0 0.

(** [memcmp(a, b, sizeof(BoardHashSrc)) == 0], field by field. *)
Definition BoardHashSrc_eqb (a b : BoardHashSrc) : bool :=
  forallb (fun i => packedSquares a i =? packedSquares b i) [0; 1; 2; 3]
  && forallb (fun c => hs_castleRooks a c =? hs_castleRooks b c) [WHITE; BLACK]
  && (hs_epSquare a =? hs_epSquare b)
  && (hs_turn a =? hs_turn b)
  && (hs_padding a =? hs_padding b).

(* ================================================================= *)
(** ** transposition.c *)

(** The loop of [initTT]:
    [while ((1ull << keySize) * sizeof(TTBucket) <= megabytes * MB / 2) keySize++;]
    A shift by 64 or more has no defined result. *)
Fixpoint initTT_keySize (fuel : nat) (megabytes keySize : Z) : option Z :=
  match fuel with
  | O => None
  | S fuel' =>
      if 64 <=? keySize then None
      else if u64 (u64 (Z.shiftl 1 keySize) * sizeof_TTBucket) <=? u64 (megabytes * MB) / 2
           then initTT_keySize fuel' megabytes (keySize + 1)
           else Some keySize
  end.

Definition set_buckets (st : TTState) (b : Z -> TTBucket) : TTState :=
  mkTTState (mkTTable b (hashMask (Table st)) (generation (Table st)))
            (verificationHashes st) (passedLookups st) (verificationFailures st).

(** [memset(Table.buckets, 0, sizeof(TTBucket) * (Table.hashMask + 1u))] *)
Definition clearTT (st : TTState) : TTState :=
  let bytes := u64 (sizeof_TTBucket * u64 (hashMask (Table st) + 1)) in
  set_buckets st
    (fun i => if (0 <=? i) && (i <? bytes / sizeof_TTBucket)
              then zeroTTBucket else buckets (Table st) i).

(** The assertion of [initTT] that follows the loop:
    [assert((1ull << keySize) * sizeof(TTBucket) <= megabytes * MB);] *)
Definition initTT_assertion (megabytes keySize : Z) : bool :=
  u64 (u64 (Z.shiftl 1 keySize) * sizeof_TTBucket) <=? u64 (megabytes * MB).

(** [fresh] is the content of the memory that the allocation returns for
    the buckets; the verification array comes zeroed from [calloc].
    Both allocations are taken to have succeeded: [initTT] does not
    check what they return, and a value [Some st'] stands for a call
    that was given its memory. *)
Definition initTT (megabytes : Z) (fresh : Z -> TTBucket) (st : TTState)
  : option TTState :=
  match initTT_keySize 64 megabytes 16 with
  | None => None
  | Some keySize =>
      Some (clearTT
              (mkTTState
                 (mkTTable fresh (u64 (u64 (Z.shiftl 1 keySize) - 1))
                           (generation (Table st)))
                 (fun _ => zeroBoardHashSrc)
                 (passedLookups st) (verificationFailures st)))
  end.

Definition hashSizeMBTT (st : TTState) : Z :=
  s32 (u64 (u64 (hashMask (Table st) + 1) * sizeof_TTBucket) / MB).

Definition updateTT (st : TTState) : TTState :=
  mkTTState (mkTTable (buckets (Table st)) (hashMask (Table st))
                      (u8 (generation (Table st) + (TT_MASK_BOUND + 1))))
            (verificationHashes st) (passedLookups st) (verificationFailures st).

(** The summand of [hashfullTT] for slot [j] of bucket [i]. *)
Definition hashfull_used (st : TTState) (i j : Z) : Z :=
  let g := tte_generation (slots (buckets (Table st) i) j) in
  if negb (Z.land g TT_MASK_BOUND =? BOUND_NONE)
     && (Z.land g TT_MASK_AGE =? generation (Table st))
  then 1 else 0.

Definition hashfullTT (st : TTState) : Z :=
  let used :=
    for_loop 1000 0
      (fun i used =>
         for_loop (Z.to_nat TT_BUCKET_NB) 0
           (fun j used => s32 (used + hashfull_used st i j)) used) 0 in
  s32 (Z.quot used TT_BUCKET_NB).

Definition valueFromTT (value height : Z) : Z :=
  if value >=? TBWIN_IN_MAX then s32 (value - height)
  else if value <=? - TBWIN_IN_MAX then s32 (value + height)
  else value.

Definition valueToTT (value height : Z) : Z :=
  if value >=? TBWIN_IN_MAX then s32 (value + height)
  else if value <=? - TBWIN_IN_MAX then s32 (value - height)
  else value.

(** [boardToBoardHashSrc] *)
Definition boardToBoardHashSrc (board : Board) : BoardHashSrc :=
  mkBoardHashSrc
    (fun i => Z.lor (rawBoard board (i * 2))
                    (u64 (Z.shiftl (rawBoard board (i * 2 + 1)) 4)))
    (fun c => if c =? WHITE then u8 (Z.land (b_castleRooks board) 0xFF)
              else u8 (Z.land (Z.shiftr (b_castleRooks board) 56) 0xFF))
    (b_epSquare board)
    (b_turn board)
    0.

(** Index of the verification record of slot [slot] of the bucket of
    [hash]: [(hash & Table.hashMask) * 3 + slot]. *)
Definition verification_index (st : TTState) (hash slot : Z) : Z :=
  u64 (u64 (Z.land hash (hashMask (Table st)) * 3) + slot).

Definition verifyTTEntry (hash slot : Z) (board : Board) (st : TTState)
  : Z * TTState :=
  let hashSrc := boardToBoardHashSrc board in
  let verificationBoard := verificationHashes st (verification_index st hash slot) in
  let mismatch := negb (BoardHashSrc_eqb hashSrc verificationBoard) in
  let allZero := (packedSquares verificationBoard 0 =? 0)
                 && (packedSquares verificationBoard 1 =? 0)
                 && (packedSquares verificationBoard 2 =? 0)
                 && (packedSquares verificationBoard 3 =? 0) in
  let failures := if mismatch && negb allZero
                  then u64 (verificationFailures st + 1)
                  else verificationFailures st in
  (if mismatch then 1 else 0,
   mkTTState (Table st) (verificationHashes st)
             (u64 (passedLookups st + 1)) failures).

(** What a successful probe writes through its output pointers. *)
Record TTProbe : Type := mkTTProbe {
  p_move : Z;
  p_value : Z;
  p_eval : Z;
  p_depth : Z;
  p_bound : Z;
  p_slot : Z
}.

(** [st] after [Table.buckets[b].slots[i] = e]. *)
Definition set_slot (st : TTState) (b i : Z) (e : TTEntry) : TTState :=
  let bucket := buckets (Table st) b in
  set_buckets st
    (array_set (buckets (Table st)) b
       (mkTTBucket (array_set (slots bucket) i e) (padding bucket))).

(** The scan of [getTTEntry] from slot [i], for [n] more slots.  The
    result is the returned int, the outputs (written only on a hit) and
    the globals afterwards. *)
Fixpoint getTTEntry_scan (n : nat) (i : Z) (hash : Z) (board : Board)
    (st : TTState) : Z * option TTProbe * TTState :=
  match n with
  | O => (0, None, st)
  | S n' =>
      let hash16 := u16 (Z.shiftr hash 48) in
      let b := Z.land hash (hashMask (Table st)) in
      let e := slots (buckets (Table st) b) i in
      if tte_hash16 e =? hash16 then
        let '(failed, st1) := verifyTTEntry hash i board st in
        if negb (failed =? 0) then (0, None, st1)
        else
          let g := u8 (Z.lor (generation (Table st1))
                             (Z.land (tte_generation e) TT_MASK_BOUND)) in
          let e' := mkTTEntry (tte_depth e) g (tte_eval e) (tte_value e)
                              (tte_move e) (tte_hash16 e) in
          (1,
           Some (mkTTProbe (tte_move e') (tte_value e') (tte_eval e')
                           (tte_depth e') (Z.land (tte_generation e') TT_MASK_BOUND) i),
           set_slot st1 b i e')
      else getTTEntry_scan n' (i + 1) hash board st
  end.

Definition getTTEntry (hash : Z) (board : Board) (st : TTState)
  : Z * option TTProbe * TTState :=
  getTTEntry_scan (Z.to_nat TT_BUCKET_NB) 0 hash board st.

(** The replacement score of a slot:
    [depth - ((259 + Table.generation - generation) & TT_MASK_AGE)]. *)
Definition replace_score (st : TTState) (e : TTEntry) : Z :=
  tte_depth e
  - Z.land (259 + generation (Table st) - tte_generation e) TT_MASK_AGE.

(** The scan of [storeTTEntry] from slot [i], for at most [n] more
    slots, with [replace] the index of the slot [replace] points to.
    The result is the final [i] and [replace]. *)
Fixpoint storeTTEntry_scan (n : nat) (i replace : Z) (hash16 : Z)
    (st : TTState) (slots : Z -> TTEntry) : Z * Z :=
  match n with
  | O => (i, replace)
  | S n' =>
      if negb (tte_hash16 (slots i) =? hash16) then
        let replace' :=
          if replace_score st (slots replace) >=? replace_score st (slots i)
          then i else replace in
        storeTTEntry_scan n' (i + 1) replace' hash16 st slots
      else (i, replace)
  end.

(** The slot [storeTTEntry] selects: a slot with the signature of
    [hash] if the scan stopped at one, else the scored replacement. *)
Definition storeTTEntry_target (hash : Z) (st : TTState) : Z :=
  let hash16 := u16 (Z.shiftr hash 48) in
  let slots := slots (buckets (Table st) (Z.land hash (hashMask (Table st)))) in
  let '(i, replace) :=
    storeTTEntry_scan (Z.to_nat TT_BUCKET_NB) 0 0 hash16 st slots in
  if negb (i =? TT_BUCKET_NB) then i else replace.

(** The early return of [storeTTEntry]. *)
Definition storeTTEntry_discards (hash depth bound : Z) (st : TTState) : bool :=
  let hash16 := u16 (Z.shiftr hash 48) in
  let slots := slots (buckets (Table st) (Z.land hash (hashMask (Table st)))) in
  let replace := slots (storeTTEntry_target hash st) in
  negb (bound =? BOUND_EXACT)
  && (hash16 =? tte_hash16 replace)
  && (depth <? tte_depth replace - 3).

(** The slot content that [storeTTEntry] writes. *)
Definition storeTTEntry_entry (hash move value eval depth bound : Z)
    (st : TTState) : TTEntry :=
  mkTTEntry (s8 depth)
            (u8 (Z.lor (u8 bound) (generation (Table st))))
            (s16 eval)
            (s16 value)
            (u16 move)
            (u16 (u16 (Z.shiftr hash 48))).

Definition storeTTEntry (hash move value eval depth bound : Z) (board : Board)
    (st : TTState) : TTState :=
  let b := Z.land hash (hashMask (Table st)) in
  let slotIndex := storeTTEntry_target hash st in
  if storeTTEntry_discards hash depth bound st then st
  else
    let st1 := set_slot st b slotIndex
                        (storeTTEntry_entry hash move value eval depth bound st) in
    mkTTState (Table st1)
              (array_set (verificationHashes st1)
                         (verification_index st hash slotIndex)
                         (boardToBoardHashSrc board))
              (passedLookups st1) (verificationFailures st1).

(** The pawn/king table.  [PKT_HASH_SHIFT] is a constant of the missing
    header and is a parameter here.  [getPKEntry] returns a pointer into
    the table: the index of the entry, or [None] for [NULL]. *)
Section PawnKing.

Variable PKT_HASH_SHIFT : Z.

Definition getPKEntry (pktable : PKTable) (pkhash : Z) : option Z :=
  let index := Z.shiftr pkhash PKT_HASH_SHIFT in
  if pke_pkhash (entries pktable index) =? pkhash then Some index else None.

Definition storePKEntry (pktable : PKTable) (pkhash passed eval : Z) : PKTable :=
  let index := Z.shiftr pkhash PKT_HASH_SHIFT in
  mkPKTable (array_set (entries pktable) index (mkPKEntry pkhash passed eval)).

End PawnKing.

(* ================================================================= *)
(** ** Reading the table *)

(** [hash & Table.hashMask], [hash >> 48] as a [uint16_t], and
    [Table.buckets[b].slots[i]]. *)
Definition bucket_index (st : TTState) (hash : Z) : Z :=
  Z.land hash (hashMask (Table st)).

Definition signature (hash : Z) : Z := u16 (Z.shiftr hash 48).

Definition slot_at (st : TTState) (b i : Z) : TTEntry :=
  slots (buckets (Table st) b) i.

(** The globals after a verification that found no mismatch:
    [passedLookups++]. *)
Definition counted (st : TTState) : TTState :=
  mkTTState (Table st) (verificationHashes st)
            (u64 (passedLookups st + 1)) (verificationFailures st).

(** A slot after a successful probe refreshed its age:
    [generation = Table.generation | (generation & TT_MASK_BOUND)]. *)
Definition refreshed (st : TTState) (e : TTEntry) : TTEntry :=
  mkTTEntry (tte_depth e)
            (u8 (Z.lor (generation (Table st))
                       (Z.land (tte_generation e) TT_MASK_BOUND)))
            (tte_eval e) (tte_value e) (tte_move e) (tte_hash16 e).

(** What [initTT] and [updateTT] maintain: the table has [2^k] buckets
    for a key size [k] from 16 to 58, and the generation is a byte whose
    bound bits are clear (the assertion of [updateTT]). *)
Record TTable_wf (st : TTState) : Prop := mkTTable_wf {
  wf_hashMask : exists k, 16 <= k <= 58 /\ hashMask (Table st) = 2 ^ k - 1;
  wf_generation : 0 <= generation (Table st) < 256;
  wf_generation_bound : Z.land (generation (Table st)) TT_MASK_BOUND = 0
}.

(* ================================================================= *)
(** ** Unpacking a verification record *)

(** The unpacking that the assertions of [boardToBoardHashSrc] and the
    loop of [boardHashSrcToZobrist] perform:
    [packedSquares[i] & 0x0F0F0F0F0F0F0F0F],
    [(packedSquares[i] >> 4) & 0x0F0F0F0F0F0F0F0F] and
    [castleRooks[WHITE] | (castleRooks[BLACK] * 0x0100000000000000)]. *)
Definition NIBBLES : Z := 0x0F0F0F0F0F0F0F0F.

Definition unpack_low (hashSrc : BoardHashSrc) (i : Z) : Z :=
  Z.land (packedSquares hashSrc i) NIBBLES.

Definition unpack_high (hashSrc : BoardHashSrc) (i : Z) : Z :=
  Z.land (Z.shiftr (packedSquares hashSrc i) 4) NIBBLES.

Definition unpack_castleRooks (hashSrc : BoardHashSrc) : Z :=
  Z.lor (hs_castleRooks hashSrc WHITE)
        (u64 (hs_castleRooks hashSrc BLACK * 0x0100000000000000)).

(** A board packs without loss when every byte of its eight leading
    words is a 4-bit code and its castling field has bits only in its
    lowest and highest byte. *)
Definition CASTLE_BYTES : Z := 0xFF000000000000FF.

Definition Board_packable (board : Board) : Prop :=
  (forall j, 0 <= j < 8 -> Z.land (rawBoard board j) NIBBLES = rawBoard board j)
  /\ Z.land (b_castleRooks board) CASTLE_BYTES = b_castleRooks board.

(* ================================================================= *)
(** ** The occupancy count, as the specification words it *)

(** The indices [i], [i + 1], ... of [n] consecutive cells. *)
Fixpoint zrange (n : nat) (i : Z) : list Z :=
  match n with
  | O => []
  | S n' => i :: zrange n' (i + 1)
  end.

(** The slots of the first 1000 buckets: 3000 pairs of a bucket index
    and a slot index. *)
Definition sampled_slots : list (Z * Z) :=
  flat_map (fun i => map (pair i) (zrange 3 0)) (zrange 1000 0).

(** A slot counts when its bound bits are not [BOUND_NONE] and its age
    bits equal the table's generation. *)
Definition slot_counts (st : TTState) (ij : Z * Z) : bool :=
  let g := tte_generation (slots (buckets (Table st) (fst ij)) (snd ij)) in
  negb (Z.land g TT_MASK_BOUND =? BOUND_NONE)
  && (Z.land g TT_MASK_AGE =? generation (Table st)).

(** [N]: the number of sampled slots that count. *)
Definition hashfull_count (st : TTState) : Z :=
  Z.of_nat (length (filter (slot_counts st) sampled_slots)).

(* ================================================================= *)
(** ** Concrete states and boards *)

(** The globals before [initTT] runs: zero-initialised static storage. *)
Definition startupState : TTState :=
  mkTTState (mkTTable (fun _ => zeroTTBucket) 0 0) (fun _ => zeroBoardHashSrc) 0 0.

(** Some content of freshly allocated, not yet cleared, bucket memory. *)
Definition staleBuckets : Z -> TTBucket :=
  fun i => mkTTBucket (fun j => mkTTEntry 7 (i mod 256) 11 (-3) 42 (j + 1)) 9.

(** The globals after [initTT(2)] at startup. *)
Definition sizedState : TTState :=
  match initTT 2 staleBuckets startupState with
  | Some st => st
  | None => startupState
  end.

(** The words of an array given by a list of its cells. *)
Definition words (l : list Z) : Z -> Z := fun i => nth (Z.to_nat i) l 0.

(** The 64-bit word that eight consecutive bytes form in memory, the
    first byte lowest. *)
Definition word_of_bytes (l : list Z) : Z :=
  fold_right (fun byte rest => byte + 256 * rest) 0 l.

Definition emptyRank : list Z := repeat EMPTY 8.

(** The initial position of a game of chess: one byte per square from
    a1 to h8, white to move, no en-passant square, rooks with castling
    rights on a1, h1, a8 and h8. *)
Definition startBoard : Board :=
  mkBoard
    (words
       (map word_of_bytes
          [ [WHITE_ROOK; WHITE_KNIGHT; WHITE_BISHOP; WHITE_QUEEN;
             WHITE_KING; WHITE_BISHOP; WHITE_KNIGHT; WHITE_ROOK];
            repeat WHITE_PAWN 8;
            emptyRank; emptyRank; emptyRank; emptyRank;
            repeat BLACK_PAWN 8;
            [BLACK_ROOK; BLACK_KNIGHT; BLACK_BISHOP; BLACK_QUEEN;
             BLACK_KING; BLACK_BISHOP; BLACK_KNIGHT; BLACK_ROOK] ]))
    0x8100000000000081 (-1) WHITE.

(** The initial position after 1. e4: black to move, en-passant square
    e3 (square 20). *)
Definition e4Board : Board :=
  mkBoard
    (words
       (map word_of_bytes
          [ [WHITE_ROOK; WHITE_KNIGHT; WHITE_BISHOP; WHITE_QUEEN;
             WHITE_KING; WHITE_BISHOP; WHITE_KNIGHT; WHITE_ROOK];
            [WHITE_PAWN; WHITE_PAWN; WHITE_PAWN; WHITE_PAWN;
             EMPTY; WHITE_PAWN; WHITE_PAWN; WHITE_PAWN];
            emptyRank;
            [EMPTY; EMPTY; EMPTY; EMPTY; WHITE_PAWN; EMPTY; EMPTY; EMPTY];
            emptyRank; emptyRank;
            repeat BLACK_PAWN 8;
            [BLACK_ROOK; BLACK_KNIGHT; BLACK_BISHOP; BLACK_QUEEN;
             BLACK_KING; BLACK_BISHOP; BLACK_KNIGHT; BLACK_ROOK] ]))
    0x8100000000000081 20 BLACK.

(** A table whose bucket 7 holds three entries of the current
    generation with depths 2, 9 and 5 (slots 0, 1 and 2), stored one
    after the other with three different signatures. *)
Definition fullBucketState : TTState :=
  storeTTEntry 0x3333000000000007 103 30 33 2 BOUND_UPPER startBoard
    (storeTTEntry 0x2222000000000007 102 20 22 9 BOUND_EXACT startBoard
       (storeTTEntry 0x1111000000000007 101 10 11 5 BOUND_LOWER startBoard
          sizedState)).

(** A table that stored one result for the initial position, under a
    hash whose top 16 bits are zero, and was then cleared. *)
Definition clearedAfterGame : TTState :=
  clearTT (storeTTEntry 0x0000000000000005 77 55 40 10 BOUND_EXACT startBoard
             sizedState).

(** A table holding one exact result of depth 10 for the initial
    position. *)
Definition storedState : TTState :=
  storeTTEntry 0xABCD000000001234 77 55 40 10 BOUND_EXACT startBoard sizedState.

(** A zeroed pawn/king table. *)
Definition emptyPKTable : PKTable := mkPKTable (fun _ => mkPKEntry 0 0 0).

(** A table in which every slot of every bucket is a lower bound of
    the current generation. *)
Definition saturatedState : TTState :=
  mkTTState
    (mkTTable (fun _ => mkTTBucket (fun _ => mkTTEntry 4 (8 + BOUND_LOWER) 0 0 0 0) 0)
              65535 8)
    (fun _ => zeroBoardHashSrc) 0 0.

(* ================================================================= *)
(** ** types.h: piece codes *)

Definition u32 : Z -> Z := wrap_unsigned 32.

Definition PAWN : Z := 0.
Definition KNIGHT : Z := 1.
Definition BISHOP : Z := 2.
Definition ROOK : Z := 3.
Definition QUEEN : Z := 4.
Definition KING : Z := 5.

Definition SQUARE_NB : Z := 64.
Definition COLOUR_NB : Z := 2.
Definition RANK_NB : Z := 8.
Definition FILE_NB : Z := 8.
Definition PIECE_NB : Z := 6.

(** What [pieceType] and [pieceColour] assert of their argument. *)
Definition piece_asserted (piece : Z) : Prop :=
  (WHITE_PAWN <= piece /\ piece <= WHITE_KING) \/
  (BLACK_PAWN <= piece /\ piece <= BLACK_KING) \/
  piece = EMPTY.

(** [(unsigned)piece & 7U] *)
Definition pieceType (piece : Z) : Z :=
  s32 (Z.land (u32 piece) 7).

(** [((unsigned)piece / 8U) + (piece == EMPTY)] *)
Definition pieceColour (piece : Z) : Z :=
  s32 (u32 (u32 piece / 8 + (if piece =? EMPTY then 1 else 0))).

(** [(unsigned)type + (unsigned)colour * 8U] *)
Definition makePiece (type colour : Z) : Z :=
  s32 (u32 (u32 type + u32 (u32 colour * 8))).

(* ================================================================= *)
(** ** Signatures within a bucket *)

(** No two slots of bucket [b] carry the same signature, unless it is
    the zero signature of cleared slots. *)
Definition signatures_unique (st : TTState) (b : Z) : Prop :=
  forall i j, 0 <= i < 3 -> 0 <= j < 3 -> i <> j ->
    tte_hash16 (slot_at st b i) = tte_hash16 (slot_at st b j) ->
    tte_hash16 (slot_at st b i) = 0.

(* ================================================================= *)
(** ** The Zobrist hash of a verification record *)

(** Modelled from the spec: bitboards.h is not part of the sources.
    [getlsb] is the index of the lowest set bit of a 64-bit word (64
    stands for the undefined result on 0), and [poplsb] returns that
    index and clears the bit. *)
Definition getlsb (bb : Z) : Z :=
  match find (Z.testbit bb) (zrange 64 0) with
  | Some k => k
  | None => 64
  end.

Definition poplsb (bb : Z) : Z * Z :=
  (getlsb bb, Z.clearbit bb (getlsb bb)).

(** [x.board[sq]] of the union of [boardHashSrcToZobrist]: byte
    [sq mod 8] of word [sq / 8], the lowest byte first as on the
    little-endian machines the engine is built for. *)
Definition union_byte (rawBoard : Z -> Z) (sq : Z) : Z :=
  Z.land (Z.shiftr (rawBoard (sq / 8)) (8 * (sq mod 8))) 0xFF.

(** The words that the first loop of [boardHashSrcToZobrist] writes
    into the union. *)
Definition unpackSquares (hashSrc : BoardHashSrc) : Z -> Z :=
  for_loop 4 0
    (fun i x =>
       array_set
         (array_set x (i * 2) (Z.land (packedSquares hashSrc i) NIBBLES))
         (i * 2 + 1) (Z.land (Z.shiftr (packedSquares hashSrc i) 4) NIBBLES))
    (fun _ => 0).

(** The key tables and the turn key are data of the missing zobrist.h,
    and [fileOf] is a helper of the missing bitboards.h: they are
    parameters here. *)
Section Zobrist.

Variable ZobristKeys : Z -> Z -> Z.
Variable ZobristEnpassKeys : Z -> Z.
Variable ZobristCastleKeys : Z -> Z.
Variable ZobristTurnKey : Z.
Variable fileOf : Z -> Z.

(** [while (rooks) hash ^= ZobristCastleKeys[poplsb(&rooks)];] *)
Fixpoint castle_loop (fuel : nat) (rooks hash : Z) : option Z :=
  match fuel with
  | O => None
  | S fuel' =>
      if rooks =? 0 then Some hash
      else
        let '(sq, rooks') := poplsb rooks in
        castle_loop fuel' rooks' (Z.lxor hash (ZobristCastleKeys sq))
  end.

Definition boardHashSrcToZobrist (hashSrc : BoardHashSrc) : option Z :=
  let hash := if hs_turn hashSrc =? BLACK then ZobristTurnKey else 0 in
  let rooks := Z.lor (hs_castleRooks hashSrc WHITE)
                     (u64 (hs_castleRooks hashSrc BLACK * 0x0100000000000000)) in
  let x := unpackSquares hashSrc in
  let hash :=
    for_loop (Z.to_nat SQUARE_NB) 0
      (fun sq hash => Z.lxor hash (ZobristKeys (union_byte x sq) sq)) hash in
  let hash :=
    if negb (hs_epSquare hashSrc =? -1)
    then Z.lxor hash (ZobristEnpassKeys (fileOf (hs_epSquare hashSrc)))
    else hash in
  castle_loop 65 rooks hash.

(** [boardToHash]: the branch that is compiled in. *)
Definition boardToHash (board : Board) : option Z :=
  boardHashSrcToZobrist (boardToBoardHashSrc board).

End Zobrist.

(** The exclusive or of [f k] over the [k] of a list, and the set bits
    of a 64-bit word in ascending order. *)
Definition xor_all (f : Z -> Z) (l : list Z) : Z :=
  fold_right (fun k acc => Z.lxor (f k) acc) 0 l.

Definition set_bits (bb : Z) : list Z := filter (Z.testbit bb) (zrange 64 0).

(** Key tables for examples. *)
Definition sampleKeys (piece sq : Z) : Z := 1000 * (piece + 1) + sq.
Definition sampleEnpassKeys (file : Z) : Z := 700000 + file.
Definition sampleCastleKeys (sq : Z) : Z := 800000 + sq.
Definition sampleTurnKey : Z := 900000.
Definition sampleFileOf (sq : Z) : Z := sq mod FILE_NB.

(** A board with another side to move, en-passant square or castling
    field. *)
Definition with_turn (board : Board) (turn : Z) : Board :=
  mkBoard (rawBoard board) (b_castleRooks board) (b_epSquare board) turn.

Definition with_epSquare (board : Board) (epSquare : Z) : Board :=
  mkBoard (rawBoard board) (b_castleRooks board) epSquare (b_turn board).

Definition with_castleRooks (board : Board) (castleRooks : Z) : Board :=
  mkBoard (rawBoard board) castleRooks (b_epSquare board) (b_turn board).

(* ================================================================= *)
(** ** The boards of the engine *)

(** Modelled from the spec: board.h, which declares the board record,
    is not part of the sources.  The eight leading 64-bit words of a
    board hold, for each of the 64 squares, one piece code (white 0 to
    5, black 8 to 13, 14 for an empty square: the codes that
    [pieceType] and [pieceColour] assert), one byte per square as
    [boardHashSrcToZobrist] reads them back; the castling field holds
    the rights of one side in its low 8 bits and those of the other in
    its high 8 bits. *)
Definition Board_wf (board : Board) : Prop :=
  (forall j, 0 <= j < 8 -> 0 <= rawBoard board j < 2 ^ 64) /\
  (forall sq, 0 <= sq < SQUARE_NB -> piece_asserted (union_byte (rawBoard board) sq)) /\
  (forall k, Z.testbit (b_castleRooks board) k = true -> 0 <= k < 8 \/ 56 <= k < 64).

(* ================================================================= *)
(** * Properties *)

(** ** Machine integers *)

(** Closed comparisons of integers, decided by evaluation. *)
Ltac closed_Z :=
  intros; repeat split; vm_compute;
  first [ reflexivity | discriminate | (intro; discriminate) ].

Lemma wrap_unsigned_range (w x : Z) : 0 <= w -> 0 <= wrap_unsigned w x < 2 ^ w.
Proof.
  intros Hw. unfold wrap_unsigned. apply Z.mod_pos_bound.
  apply Z.pow_pos_nonneg; lia.
Qed.

Lemma wrap_unsigned_small (w x : Z) : 0 <= x < 2 ^ w -> wrap_unsigned w x = x.
Proof. intros H. unfold wrap_unsigned. apply Z.mod_small; exact H. Qed.

Lemma wrap_unsigned_fixed (w x : Z) :
  0 <= w -> wrap_unsigned w x = x -> 0 <= x < 2 ^ w.
Proof. intros Hw E. rewrite <- E. apply wrap_unsigned_range; exact Hw. Qed.

Lemma wrap_signed_small (w x : Z) :
  0 < w -> - 2 ^ (w - 1) <= x < 2 ^ (w - 1) -> wrap_signed w x = x.
Proof.
  intros Hw H. unfold wrap_signed.
  assert (E : 2 ^ w = 2 * 2 ^ (w - 1)).
  { replace w with (Z.succ (w - 1)) at 1 by lia. apply Z.pow_succ_r; lia. }
  rewrite Z.mod_small; lia.
Qed.

Lemma wrap_signed_range (w x : Z) :
  0 < w -> - 2 ^ (w - 1) <= wrap_signed w x < 2 ^ (w - 1).
Proof.
  intros Hw. unfold wrap_signed.
  assert (E : 2 ^ w = 2 * 2 ^ (w - 1)).
  { replace w with (Z.succ (w - 1)) at 1 by lia. apply Z.pow_succ_r; lia. }
  assert (P : 0 < 2 ^ w) by (apply Z.pow_pos_nonneg; lia).
  pose proof (Z.mod_pos_bound (x + 2 ^ (w - 1)) (2 ^ w) P). lia.
Qed.

Lemma wrap_signed_fixed (w x : Z) :
  0 < w -> wrap_signed w x = x -> - 2 ^ (w - 1) <= x < 2 ^ (w - 1).
Proof. intros Hw E. rewrite <- E. apply wrap_signed_range; exact Hw. Qed.

Lemma u8_small x : 0 <= x < 256 -> u8 x = x.
Proof. intros H. apply wrap_unsigned_small. change (2 ^ 8) with 256. lia. Qed.

Lemma u16_small x : 0 <= x < 65536 -> u16 x = x.
Proof. intros H. apply wrap_unsigned_small. change (2 ^ 16) with 65536. lia. Qed.

Lemma u64_small x : 0 <= x < 2 ^ 64 -> u64 x = x.
Proof. intros H. apply wrap_unsigned_small. exact H. Qed.

Lemma u8_range x : 0 <= u8 x < 256.
Proof. change 256 with (2 ^ 8). apply wrap_unsigned_range. lia. Qed.

Lemma u16_range x : 0 <= u16 x < 65536.
Proof. change 65536 with (2 ^ 16). apply wrap_unsigned_range. lia. Qed.

Lemma u64_range x : 0 <= u64 x < 2 ^ 64.
Proof. apply wrap_unsigned_range. lia. Qed.

Lemma u16_idem x : u16 (u16 x) = u16 x.
Proof. apply u16_small, u16_range. Qed.

Lemma s8_small x : -128 <= x < 128 -> s8 x = x.
Proof. intros H. apply wrap_signed_small; [lia|]. change (2 ^ (8 - 1)) with 128. lia. Qed.

Lemma s16_small x : -32768 <= x < 32768 -> s16 x = x.
Proof. intros H. apply wrap_signed_small; [lia|]. change (2 ^ (16 - 1)) with 32768. lia. Qed.

Lemma s32_small x : INT_MIN <= x <= INT_MAX -> s32 x = x.
Proof.
  unfold INT_MIN, INT_MAX. intros H. apply wrap_signed_small; [lia|].
  change (32 - 1) with 31. lia.
Qed.

Lemma s8_fixed x : s8 x = x <-> -128 <= x < 128.
Proof.
  split; [|apply s8_small]. intros E.
  apply (wrap_signed_fixed 8) in E; [|lia]. change (2 ^ (8 - 1)) with 128 in E. lia.
Qed.

Lemma s16_fixed x : s16 x = x <-> -32768 <= x < 32768.
Proof.
  split; [|apply s16_small]. intros E.
  apply (wrap_signed_fixed 16) in E; [|lia]. change (2 ^ (16 - 1)) with 32768 in E. lia.
Qed.

Lemma u16_fixed x : u16 x = x <-> 0 <= x < 65536.
Proof.
  split; [|apply u16_small]. intros E.
  apply (wrap_unsigned_fixed 16) in E; [|lia]. change (2 ^ 16) with 65536 in E. lia.
Qed.

(* ----------------------------------------------------------------- *)
(** ** Mate scores: [valueToTT] and [valueFromTT] *)

Lemma valueToTT_win v h :
  TBWIN_IN_MAX <= v -> valueToTT v h = s32 (v + h).
Proof.
  intros H. unfold valueToTT.
  destruct (Z.geb_spec v TBWIN_IN_MAX) as [_|C]; [reflexivity | lia].
Qed.

Lemma valueToTT_loss v h :
  v <= - TBWIN_IN_MAX -> valueToTT v h = s32 (v - h).
Proof.
  intros H. unfold valueToTT.
  destruct (Z.geb_spec v TBWIN_IN_MAX) as [C|_].
  - unfold TBWIN_IN_MAX, TBWIN, MAX_PLY in *. lia.
  - destruct (Z.leb_spec v (- TBWIN_IN_MAX)) as [_|C]; [reflexivity | lia].
Qed.

Lemma valueFromTT_win v h :
  TBWIN_IN_MAX <= v -> valueFromTT v h = s32 (v - h).
Proof.
  intros H. unfold valueFromTT.
  destruct (Z.geb_spec v TBWIN_IN_MAX) as [_|C]; [reflexivity | lia].
Qed.

Lemma valueFromTT_loss v h :
  v <= - TBWIN_IN_MAX -> valueFromTT v h = s32 (v + h).
Proof.
  intros H. unfold valueFromTT.
  destruct (Z.geb_spec v TBWIN_IN_MAX) as [C|_].
  - unfold TBWIN_IN_MAX, TBWIN, MAX_PLY in *. lia.
  - destruct (Z.leb_spec v (- TBWIN_IN_MAX)) as [_|C]; [reflexivity | lia].
Qed.

Lemma valueTT_ordinary v h :
  Z.abs v < TBWIN_IN_MAX -> valueToTT v h = v /\ valueFromTT v h = v.
Proof.
  intros H. unfold valueToTT, valueFromTT.
  destruct (Z.geb_spec v TBWIN_IN_MAX) as [C|_]; [lia|].
  destruct (Z.leb_spec v (- TBWIN_IN_MAX)) as [C|_]; [lia|].
  split; reflexivity.
Qed.

(** C6, as stated, fails at the top of the range of [int]: the sum
    [INT_MAX + 1] does not fit, and the value that comes back from the
    table differs from the one that went in. *)
Lemma valueTT_roundtrip_overflow :
  INT_MIN <= 2147483647 <= INT_MAX /\
  31000 <= Z.abs 2147483647 /\
  0 <= 1 <= 128 /\
  valueToTT 2147483647 1 = -2147483648 /\
  valueFromTT (valueToTT 2147483647 1) 1 <> 2147483647.
Proof.
  closed_Z.
Qed.

(** C6 (amended): for every [int] value [v] with [|v| >= 31000] and every
    height [h] in [[0, 128]] for which the renormalised score still fits
    an [int] ([v + h <= INT_MAX] for a win, [INT_MIN <= v - h] for a
    loss), [valueFromTT (valueToTT v h) h = v]; and for every [v] with
    [|v| < 31000] both functions return [v] whatever [h] is. *)
Theorem valueTT_roundtrip (v h : Z) :
  INT_MIN <= v <= INT_MAX ->
  0 <= h <= 128 ->
  (TBWIN_IN_MAX <= v -> v + h <= INT_MAX) ->
  (v <= - TBWIN_IN_MAX -> INT_MIN <= v - h) ->
  (31000 <= Z.abs v -> valueFromTT (valueToTT v h) h = v) /\
  (Z.abs v < 31000 -> valueToTT v h = v /\ valueFromTT v h = v).
Proof.
  intros Hv Hh Hwin Hloss.
  assert (T : TBWIN_IN_MAX = 31000) by reflexivity.
  split.
  - intros Habs.
    destruct (Z.le_gt_cases 0 v) as [Hpos|Hneg].
    + assert (W : TBWIN_IN_MAX <= v) by lia.
      specialize (Hwin W).
      rewrite (valueToTT_win v h W).
      rewrite (s32_small (v + h)) by (unfold INT_MIN in *; lia).
      rewrite valueFromTT_win by lia.
      replace (v + h - h) with v by lia. apply s32_small; exact Hv.
    + assert (W : v <= - TBWIN_IN_MAX) by lia.
      specialize (Hloss W).
      rewrite (valueToTT_loss v h W).
      rewrite (s32_small (v - h)) by (unfold INT_MAX in *; lia).
      rewrite valueFromTT_loss by lia.
      replace (v - h + h) with v by lia. apply s32_small; exact Hv.
  - intros Habs. apply valueTT_ordinary. lia.
Qed.

Lemma valueTT_roundtrip_witness :
  valueFromTT (valueToTT 31500 7) 7 = 31500 /\
  valueFromTT (valueToTT (-32000) 128) 128 = -32000 /\
  (valueToTT 120 64 = 120 /\ valueFromTT 120 64 = 120).
Proof.
  split; [|split].
  - apply (valueTT_roundtrip 31500 7); closed_Z.
  - apply (valueTT_roundtrip (-32000) 128); closed_Z.
  - apply (valueTT_roundtrip 120 64); closed_Z.
Defined.

(* ----------------------------------------------------------------- *)
(** ** Sizing: [initTT] *)

Lemma MB_value : MB = 2 ^ 20.
Proof. reflexivity. Qed.

Lemma pow2_63 : 2 ^ 63 = 9223372036854775808.
Proof. reflexivity. Qed.

Lemma pow2_64 : 2 ^ 64 = 18446744073709551616.
Proof. reflexivity. Qed.

Lemma pow2_le_63 k : 0 <= k <= 63 -> 0 < 2 ^ k <= 2 ^ 63.
Proof.
  intros H. split.
  - apply Z.pow_pos_nonneg; lia.
  - apply Z.pow_le_mono_r; lia.
Qed.

Lemma bucket_bytes_pow2 k :
  0 <= k <= 58 ->
  u64 (u64 (Z.shiftl 1 k) * sizeof_TTBucket) = 2 ^ (k + 5).
Proof.
  intros H. rewrite Z.shiftl_1_l.
  pose proof (pow2_le_63 k ltac:(lia)) as Hk.
  pose proof (pow2_le_63 (k + 5) ltac:(lia)) as Hk5.
  rewrite pow2_63 in Hk, Hk5.
  rewrite (u64_small (2 ^ k)) by (rewrite pow2_64; lia).
  unfold sizeof_TTBucket.
  replace (2 ^ k * 32) with (2 ^ (k + 5))
    by (rewrite Z.pow_add_r by lia; reflexivity).
  apply u64_small. rewrite pow2_64. lia.
Qed.

Lemma half_budget_bound m : 0 <= u64 (m * MB) / 2 < 2 ^ 63.
Proof.
  pose proof (u64_range (m * MB)) as H. rewrite pow2_64 in H. rewrite pow2_63.
  split.
  - apply Z.div_pos; lia.
  - apply Z.div_lt_upper_bound; lia.
Qed.

(** The key-size loop stops, at the least key size from the start whose
    table exceeds half of the budget. *)
Lemma initTT_keySize_spec (m : Z) : forall (fuel : nat) (ks : Z),
  16 <= ks ->
  60 <= ks + Z.of_nat fuel ->
  (forall j, 16 <= j < ks -> 2 ^ (j + 5) <= u64 (m * MB) / 2) ->
  exists k,
    initTT_keySize fuel m ks = Some k /\
    ks <= k <= 58 /\
    (forall j, 16 <= j < k -> 2 ^ (j + 5) <= u64 (m * MB) / 2) /\
    u64 (m * MB) / 2 < 2 ^ (k + 5).
Proof.
  pose proof (half_budget_bound m) as HL.
  assert (Hsmall : forall ks, 16 <= ks ->
             (forall j, 16 <= j < ks -> 2 ^ (j + 5) <= u64 (m * MB) / 2) ->
             ks <= 58).
  { intros ks Hks Hinv. destruct (Z.le_gt_cases ks 58) as [|Hbig]; [assumption|].
    specialize (Hinv 58 ltac:(lia)). change (58 + 5) with 63 in Hinv. lia. }
  induction fuel as [|fuel IH]; intros ks Hks Hfuel Hinv.
  - pose proof (Hsmall ks Hks Hinv). simpl in Hfuel. lia.
  - pose proof (Hsmall ks Hks Hinv) as Hks58.
    cbn [initTT_keySize].
    destruct (Z.leb_spec 64 ks) as [C|_]; [lia|].
    rewrite bucket_bytes_pow2 by lia.
    destruct (Z.leb_spec (2 ^ (ks + 5)) (u64 (m * MB) / 2)) as [Hle|Hgt].
    + destruct (IH (ks + 1)) as (k & Ek & Hk & Hj & Hstop).
      * lia.
      * lia.
      * intros j Hj. destruct (Z.eq_dec j ks) as [->|]; [assumption|].
        apply Hinv. lia.
      * exists k. repeat split; try assumption; lia.
    + exists ks. repeat split; try assumption; lia.
Qed.

(** [initTT] returns for every request: the loop needs at most 43 steps. *)
Lemma initTT_total (m : Z) (fresh : Z -> TTBucket) (st : TTState) :
  exists st', initTT m fresh st = Some st'.
Proof.
  unfold initTT.
  destruct (initTT_keySize_spec m 64 16) as (k & Ek & _); [lia | simpl; lia | intros; lia |].
  rewrite Ek. eexists. reflexivity.
Qed.

Lemma clearTT_hashMask st : hashMask (Table (clearTT st)) = hashMask (Table st).
Proof. reflexivity. Qed.

Lemma clearTT_generation st : generation (Table (clearTT st)) = generation (Table st).
Proof. reflexivity. Qed.

Lemma initTT_hashMask m fresh st :
  exists k,
    initTT_keySize 64 m 16 = Some k /\ 16 <= k <= 58 /\
    (forall j, 16 <= j < k -> 2 ^ (j + 5) <= u64 (m * MB) / 2) /\
    u64 (m * MB) / 2 < 2 ^ (k + 5) /\
    exists st', initTT m fresh st = Some st' /\
                hashMask (Table st') = 2 ^ k - 1 /\
                generation (Table st') = generation (Table st).
Proof.
  destruct (initTT_keySize_spec m 64 16) as (k & Ek & Hk & Hj & Hstop);
    [lia | simpl; lia | intros; lia |].
  exists k. repeat split; try assumption; try lia.
  unfold initTT. rewrite Ek. eexists. split; [reflexivity|].
  rewrite clearTT_hashMask, clearTT_generation. cbn [Table hashMask generation].
  split; [|reflexivity].
  rewrite Z.shiftl_1_l.
  pose proof (pow2_le_63 k ltac:(lia)) as Hp. rewrite pow2_63 in Hp.
  rewrite (u64_small (2 ^ k)) by (rewrite pow2_64; lia).
  apply u64_small. rewrite pow2_64. lia.
Qed.

(** C5: the sizing law breaks once [megabytes * MB] no longer fits 64
    bits.  A request of [2^44] megabytes is a [uint64_t] like any other;
    its budget [megabytes * MB] wraps to 0, the loop stops at once at
    key size 16, the assertion that follows the loop fails, and the
    table (where assertions are compiled out) is the smallest one,
    2 megabytes, far below half of the request. *)
Lemma initTT_sizing_wraps :
  2 <= 2 ^ 44 < 2 ^ 64 /\
  u64 (2 ^ 44 * MB) = 0 /\
  initTT_keySize 64 (2 ^ 44) 16 = Some 16 /\
  initTT_assertion (2 ^ 44) 16 = false /\
  option_map (fun st' => (hashMask (Table st') + 1) * sizeof_TTBucket)
             (initTT (2 ^ 44) staleBuckets startupState) = Some (2 * 2 ^ 20) /\
  ~ (2 * 2 ^ 20 > 2 ^ 44 * 2 ^ 20 / 2).
Proof. closed_Z. Qed.

(** Below the wrap the sizing law holds: for every requested size [m]
    megabytes with [2 <= m < 2^44] (so that [m * 2^20] fits 64 bits),
    [initTT m] ends its loop, and the allocated size in bytes,
    [(Table.hashMask + 1) * sizeof(TTBucket)], is a power of two
    [2^(k+5)], is [<= m * 2^20] and is [> m * 2^20 / 2], where the key
    size [k] is the least one from 16 on at which
    [2^k * sizeof(TTBucket) <= m * 2^20 / 2] fails. *)
Theorem initTT_sizing (m : Z) (fresh : Z -> TTBucket) (st : TTState) :
  2 <= m < 2 ^ 44 ->
  exists st' k,
    initTT m fresh st = Some st' /\
    16 <= k /\
    (hashMask (Table st') + 1) * sizeof_TTBucket = 2 ^ (k + 5) /\
    (hashMask (Table st') + 1) * sizeof_TTBucket <= m * 2 ^ 20 /\
    (hashMask (Table st') + 1) * sizeof_TTBucket > m * 2 ^ 20 / 2 /\
    (forall j, 16 <= j < k -> 2 ^ j * sizeof_TTBucket <= m * 2 ^ 20 / 2) /\
    ~ (2 ^ k * sizeof_TTBucket <= m * 2 ^ 20 / 2).
Proof.
  intros Hm.
  destruct (initTT_hashMask m fresh st)
    as (k & _ & Hk & Hj & Hstop & st' & Est & Hmask & _).
  assert (E44 : 2 ^ 44 = 17592186044416) by reflexivity.
  assert (E20 : 2 ^ 20 = 1048576) by reflexivity.
  assert (Ebudget : u64 (m * MB) = m * 2 ^ 20).
  { rewrite MB_value. apply u64_small. rewrite pow2_64. lia. }
  rewrite Ebudget in Hj, Hstop.
  assert (Epow : forall j, 0 <= j -> 2 ^ j * sizeof_TTBucket = 2 ^ (j + 5)).
  { intros j Hj0. unfold sizeof_TTBucket. rewrite Z.pow_add_r by lia. reflexivity. }
  assert (Esize : (hashMask (Table st') + 1) * sizeof_TTBucket = 2 ^ (k + 5)).
  { rewrite Hmask. replace (2 ^ k - 1 + 1) with (2 ^ k) by lia. apply Epow. lia. }
  exists st', k. rewrite Esize.
  split; [exact Est|]. split; [lia|]. split; [reflexivity|].
  split; [|split; [lia|split]].
  - (* at most the budget *)
    destruct (Z.eq_dec k 16) as [->|Hne].
    + change (2 ^ (16 + 5)) with 2097152. lia.
    + specialize (Hj (k - 1) ltac:(lia)).
      replace (k - 1 + 5) with (k + 4) in Hj by lia.
      replace (k + 5) with (Z.succ (k + 4)) by lia.
      rewrite Z.pow_succ_r by lia.
      pose proof (Z.mul_div_le (m * 2 ^ 20) 2 ltac:(lia)). lia.
  - intros j Hj16. rewrite Epow by lia. apply Hj. exact Hj16.
  - rewrite Epow by lia. lia.
Qed.

Lemma initTT_sizing_witness :
  exists st' k,
    initTT 16 staleBuckets startupState = Some st' /\
    16 <= k /\
    (hashMask (Table st') + 1) * sizeof_TTBucket = 2 ^ (k + 5) /\
    (hashMask (Table st') + 1) * sizeof_TTBucket <= 16 * 2 ^ 20 /\
    (hashMask (Table st') + 1) * sizeof_TTBucket > 16 * 2 ^ 20 / 2 /\
    (forall j, 16 <= j < k -> 2 ^ j * sizeof_TTBucket <= 16 * 2 ^ 20 / 2) /\
    ~ (2 ^ k * sizeof_TTBucket <= 16 * 2 ^ 20 / 2).
Proof. apply (initTT_sizing 16 staleBuckets startupState). closed_Z. Defined.

(* ----------------------------------------------------------------- *)
(** ** The occupancy estimate: [hashfullTT] *)

Lemma hashfull_used_counts st i j :
  hashfull_used st i j = if slot_counts st (i, j) then 1 else 0.
Proof. reflexivity. Qed.

Lemma length_sampled_slots : length sampled_slots = 3000%nat.
Proof. reflexivity. Qed.

Lemma filter_length_le {A : Type} (p : A -> bool) (l : list A) :
  (length (filter p l) <= length l)%nat.
Proof.
  induction l as [|a l IH]; simpl; [lia|].
  destruct (p a); simpl; lia.
Qed.

Lemma for_loop_step {A : Type} (n : nat) (i : Z) (body : Z -> A -> A) (s : A) :
  for_loop (S n) i body s = for_loop n (i + 1) body (body i s).
Proof. reflexivity. Qed.

Lemma zrange_step (n : nat) (i : Z) :
  zrange (S n) i = i :: zrange n (i + 1).
Proof. reflexivity. Qed.

Lemma flat_map_step {A B : Type} (f : A -> list B) (a : A) (l : list A) :
  flat_map f (a :: l) = f a ++ flat_map f l.
Proof. reflexivity. Qed.

(** A loop over the slots of one bucket. *)
Lemma for_loop_bucket {A : Type} (body : Z -> A -> A) (s : A) :
  for_loop (Z.to_nat TT_BUCKET_NB) 0 body s = body 2 (body 1 (body 0 s)).
Proof. reflexivity. Qed.

(** The double loop adds, to the running count, the number of counting
    slots among the buckets it visits. *)
Lemma hashfull_loop_counts st : forall (n : nat) (i used : Z),
  0 <= used ->
  used + 3 * Z.of_nat n <= INT_MAX ->
  for_loop n i
    (fun i used =>
       for_loop (Z.to_nat TT_BUCKET_NB) 0
         (fun j used => s32 (used + hashfull_used st i j)) used) used
  = used + Z.of_nat (length (filter (slot_counts st)
                       (flat_map (fun i => map (pair i) (zrange 3 0)) (zrange n i)))).
Proof.
  induction n as [|n IH]; intros i used Hused Hmax.
  - simpl. lia.
  - rewrite for_loop_step, (zrange_step n i), flat_map_step. cbv beta.
    rewrite for_loop_bucket.
    rewrite filter_app, length_app, Nat2Z.inj_add.
    rewrite !hashfull_used_counts.
    assert (Hrow :
      Z.of_nat (length (filter (slot_counts st) (map (pair i) (zrange 3 0))))
      = (if slot_counts st (i, 0) then 1 else 0)
        + (if slot_counts st (i, 1) then 1 else 0)
        + (if slot_counts st (i, 2) then 1 else 0)).
    { change (map (pair i) (zrange 3 0)) with [(i, 0); (i, 1); (i, 2)].
      cbn [filter].
      destruct (slot_counts st (i, 0)), (slot_counts st (i, 1)),
               (slot_counts st (i, 2)); reflexivity. }
    rewrite Hrow.
    unfold INT_MAX in Hmax. change (2 ^ 31) with 2147483648 in Hmax.
    assert (Hs : forall x, 0 <= x <= 2147483647 -> s32 x = x).
    { intros x Hx. apply s32_small. unfold INT_MIN, INT_MAX.
      change (2 ^ 31) with 2147483648. lia. }
    set (a := if slot_counts st (i, 0) then 1 else 0).
    set (b := if slot_counts st (i, 1) then 1 else 0).
    set (c := if slot_counts st (i, 2) then 1 else 0).
    assert (Ha : 0 <= a <= 1) by (subst a; destruct (slot_counts st (i, 0)); lia).
    assert (Hb : 0 <= b <= 1) by (subst b; destruct (slot_counts st (i, 1)); lia).
    assert (Hc : 0 <= c <= 1) by (subst c; destruct (slot_counts st (i, 2)); lia).
    rewrite (Hs (used + a)) by lia.
    rewrite (Hs (used + a + b)) by lia.
    rewrite (Hs (used + a + b + c)) by lia.
    rewrite IH; [lia | lia | unfold INT_MAX; change (2 ^ 31) with 2147483648; lia].
Qed.

(** C8: [hashfullTT] returns exactly [N / 3], where [N] is the number
    of slots among the first 1000 buckets (3000 slots) whose bound bits
    are not [BOUND_NONE] and whose age bits equal [Table.generation]:
    the divisor is the bucket width [TT_BUCKET_NB], not the sample
    count, so the result ranges over [0 .. 1000]. *)
Theorem hashfullTT_count (st : TTState) :
  hashfullTT st = hashfull_count st / TT_BUCKET_NB /\
  0 <= hashfull_count st <= 3000 /\
  0 <= hashfullTT st <= 1000.
Proof.
  assert (HN : 0 <= hashfull_count st <= 3000).
  { unfold hashfull_count.
    pose proof (filter_length_le (slot_counts st) sampled_slots) as H.
    rewrite length_sampled_slots in H. lia. }
  assert (E : hashfullTT st = hashfull_count st / TT_BUCKET_NB).
  { unfold hashfullTT.
    rewrite (hashfull_loop_counts st 1000 0 0);
      [| lia | unfold INT_MAX; change (2 ^ 31) with 2147483648; lia].
    rewrite Z.add_0_l. fold sampled_slots. fold (hashfull_count st).
    unfold TT_BUCKET_NB.
    rewrite Z.quot_div_nonneg by lia.
    apply s32_small. unfold INT_MIN, INT_MAX. change (2 ^ 31) with 2147483648.
    pose proof (Z.div_pos (hashfull_count st) 3 ltac:(lia) ltac:(lia)).
    assert (hashfull_count st / 3 <= 1000) by (apply Z.div_le_upper_bound; lia).
    lia. }
  split; [exact E|]. split; [exact HN|].
  rewrite E. unfold TT_BUCKET_NB. split.
  - apply Z.div_pos; lia.
  - apply Z.div_le_upper_bound; lia.
Qed.

(* ----------------------------------------------------------------- *)
(** ** The pawn/king table *)

Lemma array_set_same {A : Type} (a : Z -> A) i v : array_set a i v i = v.
Proof. unfold array_set. rewrite Z.eqb_refl. reflexivity. Qed.

Lemma array_set_other {A : Type} (a : Z -> A) i j v :
  j <> i -> array_set a i v j = a j.
Proof.
  intros H. unfold array_set.
  destruct (Z.eqb_spec j i) as [E|_]; [contradiction | reflexivity].
Qed.

Lemma getPKEntry_found (shift : Z) (t : PKTable) (h : Z) :
  pke_pkhash (entries t (Z.shiftr h shift)) = h ->
  getPKEntry shift t h = Some (Z.shiftr h shift).
Proof. intros E. unfold getPKEntry. rewrite E, Z.eqb_refl. reflexivity. Qed.

Lemma getPKEntry_absent (shift : Z) (t : PKTable) (h : Z) :
  pke_pkhash (entries t (Z.shiftr h shift)) <> h ->
  getPKEntry shift t h = None.
Proof.
  intros E. unfold getPKEntry.
  destruct (Z.eqb_spec (pke_pkhash (entries t (Z.shiftr h shift))) h);
    [contradiction | reflexivity].
Qed.

(** C9: [getPKEntry pktable h] returns the slot at index
    [h >> PKT_HASH_SHIFT] if and only if that slot's stored [pkhash]
    equals [h], and [NULL] otherwise; [storePKEntry] overwrites the
    mapped slot unconditionally (and no other slot); so after
    [storePKEntry pktable H1 passed eval] a probe with [H1] finds the
    slot, and a probe with any [H2 <> H1] that maps to the same index
    reports absent. *)
Theorem getPKEntry_absent_iff (PKT_HASH_SHIFT : Z) (pktable : PKTable)
    (h H1 H2 passed eval : Z) :
  (getPKEntry PKT_HASH_SHIFT pktable h = Some (Z.shiftr h PKT_HASH_SHIFT)
   <-> pke_pkhash (entries pktable (Z.shiftr h PKT_HASH_SHIFT)) = h) /\
  (getPKEntry PKT_HASH_SHIFT pktable h = None
   <-> pke_pkhash (entries pktable (Z.shiftr h PKT_HASH_SHIFT)) <> h) /\
  entries (storePKEntry PKT_HASH_SHIFT pktable H1 passed eval)
          (Z.shiftr H1 PKT_HASH_SHIFT) = mkPKEntry H1 passed eval /\
  (forall i, i <> Z.shiftr H1 PKT_HASH_SHIFT ->
     entries (storePKEntry PKT_HASH_SHIFT pktable H1 passed eval) i
     = entries pktable i) /\
  getPKEntry PKT_HASH_SHIFT (storePKEntry PKT_HASH_SHIFT pktable H1 passed eval) H1
  = Some (Z.shiftr H1 PKT_HASH_SHIFT) /\
  (H2 <> H1 ->
   Z.shiftr H1 PKT_HASH_SHIFT = Z.shiftr H2 PKT_HASH_SHIFT ->
   getPKEntry PKT_HASH_SHIFT (storePKEntry PKT_HASH_SHIFT pktable H1 passed eval) H2
   = None).
Proof.
  assert (Hw : entries (storePKEntry PKT_HASH_SHIFT pktable H1 passed eval)
                       (Z.shiftr H1 PKT_HASH_SHIFT) = mkPKEntry H1 passed eval).
  { unfold storePKEntry. cbn [entries]. apply array_set_same. }
  split; [|split; [|split; [|split; [|split]]]].
  - split; [|apply getPKEntry_found].
    unfold getPKEntry.
    destruct (Z.eqb_spec (pke_pkhash (entries pktable (Z.shiftr h PKT_HASH_SHIFT))) h);
      [trivial | discriminate].
  - split; [|apply getPKEntry_absent].
    unfold getPKEntry.
    destruct (Z.eqb_spec (pke_pkhash (entries pktable (Z.shiftr h PKT_HASH_SHIFT))) h);
      [discriminate | trivial].
  - exact Hw.
  - intros i Hi. unfold storePKEntry. cbn [entries]. apply array_set_other. exact Hi.
  - apply getPKEntry_found. rewrite Hw. reflexivity.
  - intros Hne Hidx. apply getPKEntry_absent.
    rewrite <- Hidx, Hw. cbn [pke_pkhash]. congruence.
Qed.

(* ----------------------------------------------------------------- *)
(** ** Packing: [boardToBoardHashSrc] *)

Lemma land_mask_bound (x m : Z) : 0 <= m -> 0 <= Z.land x m <= m.
Proof.
  intros Hm. apply Z.ldiff_le; [exact Hm|].
  apply Z.bits_inj'. intros n Hn.
  rewrite Z.ldiff_spec, Z.land_spec, Z.bits_0.
  destruct (Z.testbit x n), (Z.testbit m n); reflexivity.
Qed.

Lemma land_mask_u64 (x m : Z) : 0 <= m < 2 ^ 64 -> u64 (Z.land x m) = Z.land x m.
Proof.
  intros Hm. apply u64_small.
  pose proof (land_mask_bound x m ltac:(lia)). lia.
Qed.

Lemma land_mask_u8 (x : Z) : u8 (Z.land x 0xFF) = Z.land x 0xFF.
Proof. apply u8_small. pose proof (land_mask_bound x 0xFF ltac:(lia)). lia. Qed.

Section Nibbles.

Variable w : Z.
Hypothesis Hw : Z.land w NIBBLES = w.

Lemma nibbles_shiftl : Z.shiftl w 4 = Z.land (Z.shiftl w 4) (Z.shiftl NIBBLES 4).
Proof. rewrite <- Z.shiftl_land, Hw. reflexivity. Qed.

Lemma nibbles_shiftl_u64 : u64 (Z.shiftl w 4) = Z.shiftl w 4.
Proof. rewrite nibbles_shiftl. apply land_mask_u64. closed_Z. Qed.

Lemma nibbles_shiftl_low : Z.land (Z.shiftl w 4) NIBBLES = 0.
Proof.
  rewrite nibbles_shiftl, <- Z.land_assoc.
  change (Z.land (Z.shiftl NIBBLES 4) NIBBLES) with 0. apply Z.land_0_r.
Qed.

Lemma nibbles_shiftr_low : Z.land (Z.shiftr w 4) NIBBLES = 0.
Proof.
  rewrite <- Hw, Z.shiftr_land, <- Z.land_assoc.
  change (Z.land (Z.shiftr NIBBLES 4) NIBBLES) with 0. apply Z.land_0_r.
Qed.

Lemma nibbles_shiftl_shiftr : Z.shiftr (Z.shiftl w 4) 4 = w.
Proof. rewrite Z.shiftr_shiftl_l by lia. apply Z.shiftl_0_r. Qed.

End Nibbles.

Lemma castle_high_byte (c : Z) :
  u64 (u8 (Z.land (Z.shiftr c 56) 0xFF) * 0x0100000000000000)
  = Z.land c 0xFF00000000000000.
Proof.
  rewrite land_mask_u8.
  change 0x0100000000000000 with (2 ^ 56).
  rewrite <- Z.shiftl_mul_pow2 by lia.
  rewrite Z.shiftl_land, <- Z.ldiff_ones_r by lia.
  rewrite Z.ldiff_land, <- Z.land_assoc.
  change (Z.land (Z.lnot (Z.ones 56)) (Z.shiftl 255 56)) with 0xFF00000000000000.
  apply land_mask_u64. closed_Z.
Qed.

(** Packing is lossless under the one condition it needs: for every
    board whose eight leading 64-bit words hold a 4-bit code in every
    byte and whose castling field has bits only in its lowest and
    highest byte, unpacking what [boardToBoardHashSrc] packed
    reproduces the originals exactly: for each [i] in [0..3],
    [packedSquares[i] & 0x0F0F0F0F0F0F0F0F] is raw word [2i] and
    [(packedSquares[i] >> 4) & 0x0F0F0F0F0F0F0F0F] is raw word [2i+1],
    and [castleRooks[WHITE] | (castleRooks[BLACK] << 56)] is the board's
    castling field; the en-passant square and the side to move are
    copied and the padding is zero. *)
Theorem boardToBoardHashSrc_lossless (board : Board) :
  Board_packable board ->
  (forall i, 0 <= i < 4 ->
     unpack_low (boardToBoardHashSrc board) i = rawBoard board (i * 2) /\
     unpack_high (boardToBoardHashSrc board) i = rawBoard board (i * 2 + 1)) /\
  unpack_castleRooks (boardToBoardHashSrc board) = b_castleRooks board /\
  Z.lor (hs_castleRooks (boardToBoardHashSrc board) WHITE)
        (Z.shiftl (hs_castleRooks (boardToBoardHashSrc board) BLACK) 56)
  = b_castleRooks board /\
  hs_epSquare (boardToBoardHashSrc board) = b_epSquare board /\
  hs_turn (boardToBoardHashSrc board) = b_turn board /\
  hs_padding (boardToBoardHashSrc board) = 0.
Proof.
  intros [Hraw Hcastle].
  assert (Hc : unpack_castleRooks (boardToBoardHashSrc board) = b_castleRooks board).
  { unfold unpack_castleRooks, boardToBoardHashSrc. cbn [hs_castleRooks].
    change (WHITE =? WHITE) with true. change (BLACK =? WHITE) with false. cbv iota.
    rewrite castle_high_byte, land_mask_u8, <- Z.land_lor_distr_r.
    exact Hcastle. }
  split; [|split; [exact Hc|split; [|repeat split]]].
  - intros i Hi.
    pose proof (Hraw (i * 2) ltac:(lia)) as H0.
    pose proof (Hraw (i * 2 + 1) ltac:(lia)) as H1.
    unfold unpack_low, unpack_high, boardToBoardHashSrc. cbn [packedSquares].
    rewrite (nibbles_shiftl_u64 _ H1). split.
    + rewrite Z.land_lor_distr_l, H0, (nibbles_shiftl_low _ H1). apply Z.lor_0_r.
    + rewrite Z.shiftr_lor, Z.land_lor_distr_l, (nibbles_shiftr_low _ H0),
        (nibbles_shiftl_shiftr (rawBoard board (i * 2 + 1))), H1.
      apply Z.lor_0_l.
  - assert (Hb : Z.shiftl (hs_castleRooks (boardToBoardHashSrc board) BLACK) 56
                 = u64 (hs_castleRooks (boardToBoardHashSrc board) BLACK
                        * 0x0100000000000000)).
    { unfold boardToBoardHashSrc. cbn [hs_castleRooks].
      change (BLACK =? WHITE) with false. cbv iota.
      rewrite castle_high_byte, land_mask_u8.
      rewrite Z.shiftl_land, <- Z.ldiff_ones_r by lia.
      rewrite Z.ldiff_land, <- Z.land_assoc. reflexivity. }
    rewrite Hb. exact Hc.
Qed.

Lemma startBoard_packable : Board_packable startBoard.
Proof.
  split.
  - intros j Hj.
    assert (C : j = 0 \/ j = 1 \/ j = 2 \/ j = 3 \/ j = 4 \/ j = 5 \/ j = 6 \/ j = 7)
      by lia.
    destruct C as [->|[->|[->|[->|[->|[->|[->| ->]]]]]]]; reflexivity.
  - reflexivity.
Defined.

Lemma boardToBoardHashSrc_lossless_witness :
  unpack_low (boardToBoardHashSrc startBoard) 0 = 0x0301020504020103 /\
  unpack_high (boardToBoardHashSrc startBoard) 3 = 0x0B090A0D0C0A090B /\
  unpack_castleRooks (boardToBoardHashSrc startBoard) = 0x8100000000000081.
Proof.
  destruct (boardToBoardHashSrc_lossless startBoard startBoard_packable)
    as (Hsq & Hc & _).
  split; [|split].
  - apply (Hsq 0). lia.
  - apply (Hsq 3). lia.
  - exact Hc.
Defined.

(* ----------------------------------------------------------------- *)
(** ** Reading and writing slots *)

Lemma set_slot_same st b i e : slot_at (set_slot st b i e) b i = e.
Proof.
  unfold slot_at, set_slot, set_buckets. cbn [Table buckets].
  rewrite array_set_same. cbn [slots]. apply array_set_same.
Qed.

Lemma set_slot_other_slot st b i j e :
  j <> i -> slot_at (set_slot st b i e) b j = slot_at st b j.
Proof.
  intros H. unfold slot_at, set_slot, set_buckets. cbn [Table buckets].
  rewrite array_set_same. cbn [slots]. apply array_set_other. exact H.
Qed.

Lemma set_slot_other_bucket st b b' i j e :
  b' <> b -> slot_at (set_slot st b i e) b' j = slot_at st b' j.
Proof.
  intros H. unfold slot_at, set_slot, set_buckets. cbn [Table buckets].
  rewrite array_set_other by exact H. reflexivity.
Qed.

Lemma set_slot_elsewhere st b i b' j e :
  (b', j) <> (b, i) -> slot_at (set_slot st b i e) b' j = slot_at st b' j.
Proof.
  intros H. destruct (Z.eq_dec b' b) as [->|Hb].
  - apply set_slot_other_slot. congruence.
  - apply set_slot_other_bucket. exact Hb.
Qed.

Lemma slot_index_cases (j : Z) : 0 <= j < 3 -> j = 0 \/ j = 1 \/ j = 2.
Proof. lia. Qed.

Lemma BoardHashSrc_eqb_refl (a : BoardHashSrc) : BoardHashSrc_eqb a a = true.
Proof. unfold BoardHashSrc_eqb. cbn [forallb]. rewrite !Z.eqb_refl. reflexivity. Qed.

(* ----------------------------------------------------------------- *)
(** ** The slot that [storeTTEntry] selects *)

(** The scan of the three slots, written out. *)
Lemma storeTTEntry_target_unfold (hash : Z) (st : TTState) :
  storeTTEntry_target hash st =
  let s := slot_at st (bucket_index st hash) in
  let h16 := signature hash in
  if tte_hash16 (s 0) =? h16 then 0
  else if tte_hash16 (s 1) =? h16 then 1
  else if tte_hash16 (s 2) =? h16 then 2
  else
    let r1 := if replace_score st (s 0) >=? replace_score st (s 1) then 1 else 0 in
    if replace_score st (s r1) >=? replace_score st (s 2) then 2 else r1.
Proof.
  unfold storeTTEntry_target, slot_at, bucket_index, signature.
  change (Z.to_nat TT_BUCKET_NB) with 3%nat.
  cbn [storeTTEntry_scan]. cbv zeta.
  change (0 + 1) with 1. change (1 + 1) with 2.
  set (s := slots (buckets (Table st) (Z.land hash (hashMask (Table st))))).
  set (h16 := u16 (Z.shiftr hash 48)).
  destruct (tte_hash16 (s 0) =? h16); [reflexivity|]. cbn [negb].
  destruct (tte_hash16 (s 1) =? h16).
  { cbn [negb]. destruct (replace_score st (s 0) >=? replace_score st (s 0)); reflexivity. }
  cbn [negb].
  assert (R0 : (if replace_score st (s 0) >=? replace_score st (s 0) then 0 else 0) = 0)
    by (destruct (replace_score st (s 0) >=? replace_score st (s 0)); reflexivity).
  rewrite R0.
  destruct (tte_hash16 (s 2) =? h16).
  { cbn [negb]. destruct (replace_score st (s 0) >=? replace_score st (s 1)); reflexivity. }
  cbn [negb]. reflexivity.
Qed.

(** The selected slot is the first slot with the signature of [hash],
    or, when no slot has it, a slot of least replacement score. *)
Lemma storeTTEntry_target_spec (hash : Z) (st : TTState) :
  let s := slot_at st (bucket_index st hash) in
  let h16 := signature hash in
  let t := storeTTEntry_target hash st in
  0 <= t < 3 /\
  (forall j, 0 <= j < t -> tte_hash16 (s j) <> h16) /\
  (tte_hash16 (s t) = h16 \/
   (forall j, 0 <= j < 3 -> tte_hash16 (s j) <> h16) /\
   (forall j, 0 <= j < 3 -> replace_score st (s t) <= replace_score st (s j))).
Proof.
  cbv zeta. rewrite storeTTEntry_target_unfold. cbv zeta.
  set (s := slot_at st (bucket_index st hash)).
  set (h16 := signature hash).
  destruct (Z.eqb_spec (tte_hash16 (s 0)) h16) as [E0|N0].
  { split; [lia|]. split; [intros j Hj; lia|]. left. exact E0. }
  destruct (Z.eqb_spec (tte_hash16 (s 1)) h16) as [E1|N1].
  { split; [lia|]. split; [|left; exact E1].
    intros j Hj. assert (j = 0) as -> by lia. exact N0. }
  destruct (Z.eqb_spec (tte_hash16 (s 2)) h16) as [E2|N2].
  { split; [lia|]. split; [|left; exact E2].
    intros j Hj. assert (j = 0 \/ j = 1) as [-> | ->] by lia; assumption. }
  assert (Hnone : forall j, 0 <= j < 3 -> tte_hash16 (s j) <> h16).
  { intros j Hj. destruct (slot_index_cases j Hj) as [->|[->| ->]]; assumption. }
  destruct (Z.geb_spec (replace_score st (s 0)) (replace_score st (s 1))) as [G1|G1];
    cbv zeta;
    match goal with
    | |- context [replace_score st (s ?r) >=? replace_score st (s 2)] =>
        destruct (Z.geb_spec (replace_score st (s r)) (replace_score st (s 2))) as [G2|G2]
    end;
    (split; [lia|]);
    (split; [intros j Hj; apply Hnone; lia|]);
    right; (split; [exact Hnone|]);
    intros j Hj; destruct (slot_index_cases j Hj) as [->|[->| ->]]; lia.
Qed.

Lemma storeTTEntry_discards_spec (hash depth bound : Z) (st : TTState) :
  storeTTEntry_discards hash depth bound st = true <->
  tte_hash16 (slot_at st (bucket_index st hash) (storeTTEntry_target hash st))
    = signature hash /\
  bound <> BOUND_EXACT /\
  depth < tte_depth (slot_at st (bucket_index st hash) (storeTTEntry_target hash st)) - 3.
Proof.
  unfold storeTTEntry_discards, slot_at, bucket_index, signature. cbv zeta.
  rewrite !andb_true_iff, negb_true_iff, Z.eqb_neq, Z.eqb_eq, Z.ltb_lt.
  intuition congruence.
Qed.

(** What a store that is not discarded leaves behind. *)
Lemma storeTTEntry_writes (hash move value eval depth bound : Z) (board : Board)
    (st : TTState) :
  storeTTEntry_discards hash depth bound st = false ->
  let st' := storeTTEntry hash move value eval depth bound board st in
  let b := bucket_index st hash in
  let t := storeTTEntry_target hash st in
  slot_at st' b t = storeTTEntry_entry hash move value eval depth bound st /\
  verificationHashes st' (verification_index st hash t) = boardToBoardHashSrc board /\
  (forall b' j, (b', j) <> (b, t) -> slot_at st' b' j = slot_at st b' j) /\
  (forall k, k <> verification_index st hash t ->
     verificationHashes st' k = verificationHashes st k) /\
  hashMask (Table st') = hashMask (Table st) /\
  generation (Table st') = generation (Table st) /\
  passedLookups st' = passedLookups st /\
  verificationFailures st' = verificationFailures st.
Proof.
  intros Hd. cbv zeta. unfold storeTTEntry. rewrite Hd.
  fold (bucket_index st hash).
  split; [|split; [|split; [|split]]].
  - apply set_slot_same.
  - cbn [verificationHashes]. apply array_set_same.
  - intros b' j Hne. apply set_slot_elsewhere. exact Hne.
  - intros k Hk. cbn [verificationHashes]. rewrite array_set_other by exact Hk.
    reflexivity.
  - repeat split.
Qed.

(** Case analysis on a slot index, then evaluation. *)
Ltac each_slot :=
  let j := fresh "j" in
  let Hj := fresh "Hj" in
  intros j Hj; destruct (slot_index_cases j Hj) as [->|[->| ->]]; closed_Z.

(** C3: [storeTTEntry] returns early, leaving the table and the
    verification array as they are, exactly when the selected target
    slot already holds the same 16-bit signature, the new bound is not
    [BOUND_EXACT], and the new depth is more than 3 less than that
    slot's stored depth; in every other case it overwrites the target
    slot and its verification record; in particular a [BOUND_EXACT]
    store always overwrites, whatever the depths are. *)
Theorem storeTTEntry_discard_condition
    (hash move value eval depth bound : Z) (board : Board) (st : TTState) :
  let b := bucket_index st hash in
  let t := storeTTEntry_target hash st in
  let st' := storeTTEntry hash move value eval depth bound board st in
  let discard :=
    tte_hash16 (slot_at st b t) = signature hash /\
    bound <> BOUND_EXACT /\
    depth < tte_depth (slot_at st b t) - 3 in
  let overwritten :=
    slot_at st' b t = storeTTEntry_entry hash move value eval depth bound st /\
    verificationHashes st' (verification_index st hash t)
      = boardToBoardHashSrc board /\
    (forall b' j, (b', j) <> (b, t) -> slot_at st' b' j = slot_at st b' j) /\
    (forall k, k <> verification_index st hash t ->
       verificationHashes st' k = verificationHashes st k) in
  (storeTTEntry_discards hash depth bound st = true <-> discard) /\
  (discard -> st' = st) /\
  (~ discard -> overwritten) /\
  (bound = BOUND_EXACT -> overwritten).
Proof.
  cbv zeta.
  pose proof (storeTTEntry_discards_spec hash depth bound st) as Hspec.
  assert (Hw : storeTTEntry_discards hash depth bound st = false ->
               slot_at (storeTTEntry hash move value eval depth bound board st)
                       (bucket_index st hash) (storeTTEntry_target hash st)
               = storeTTEntry_entry hash move value eval depth bound st /\
               verificationHashes (storeTTEntry hash move value eval depth bound board st)
                 (verification_index st hash (storeTTEntry_target hash st))
               = boardToBoardHashSrc board /\
               (forall b' j,
                  (b', j) <> (bucket_index st hash, storeTTEntry_target hash st) ->
                  slot_at (storeTTEntry hash move value eval depth bound board st) b' j
                  = slot_at st b' j) /\
               (forall k, k <> verification_index st hash (storeTTEntry_target hash st) ->
                  verificationHashes (storeTTEntry hash move value eval depth bound board st) k
                  = verificationHashes st k)).
  { intros Hd.
    destruct (storeTTEntry_writes hash move value eval depth bound board st Hd)
      as (H1 & H2 & H3 & H4 & _).
    repeat split; assumption. }
  split; [exact Hspec|]. split; [|split].
  - intros Hdis. apply Hspec in Hdis. unfold storeTTEntry. rewrite Hdis. reflexivity.
  - intros Hn. apply Hw.
    destruct (storeTTEntry_discards hash depth bound st); [|reflexivity].
    exfalso. apply Hn, Hspec. reflexivity.
  - intros Hb. apply Hw.
    destruct (storeTTEntry_discards hash depth bound st) eqn:E; [|reflexivity].
    destruct (proj1 Hspec eq_refl) as (_ & Hne & _). contradiction.
Qed.

(* ----------------------------------------------------------------- *)
(** ** Replacement *)

Lemma forallb_zrange (p : Z -> bool) : forall (n : nat) (i : Z),
  forallb p (zrange n i) = true ->
  forall x, i <= x < i + Z.of_nat n -> p x = true.
Proof.
  induction n as [|n IH]; intros i H x Hx.
  - simpl in Hx. lia.
  - cbn [zrange forallb] in H. apply andb_true_iff in H. destruct H as [Hi Hrest].
    destruct (Z.eq_dec x i) as [->|Hne]; [exact Hi|].
    apply (IH (i + 1) Hrest). lia.
Qed.

(** A slot tagged with the current generation has no age penalty,
    whatever its bound bits are: this is what the 3 in 259 is for. *)
Lemma current_generation_age (g : Z) :
  0 <= g < 256 ->
  Z.land (259 + Z.land g TT_MASK_AGE - g) TT_MASK_AGE = 0.
Proof.
  intros Hg. apply Z.eqb_eq.
  apply (forallb_zrange
           (fun g => Z.land (259 + Z.land g TT_MASK_AGE - g) TT_MASK_AGE =? 0)
           256 0); [vm_compute; reflexivity | lia].
Qed.

Lemma replace_score_current (st : TTState) (e : TTEntry) :
  0 <= tte_generation e < 256 ->
  Z.land (tte_generation e) TT_MASK_AGE = generation (Table st) ->
  replace_score st e = tte_depth e.
Proof.
  intros Hg Hage. unfold replace_score. rewrite <- Hage.
  rewrite current_generation_age by exact Hg. lia.
Qed.

(** C4: when no slot of the target bucket has the signature of the new
    entry, [storeTTEntry] overwrites a slot that minimises the
    replacement score
    [depth - ((259 + Table.generation - generation) & TT_MASK_AGE)]
    over the bucket's 3 slots, and leaves the other two as they are; in
    particular, when the three slots hold depths 2, 5 and 9 and are all
    tagged with the current generation, it is the depth-2 entry that is
    overwritten. *)
Theorem storeTTEntry_replaces_weakest
    (hash move value eval depth bound : Z) (board : Board) (st : TTState) :
  let b := bucket_index st hash in
  let t := storeTTEntry_target hash st in
  let st' := storeTTEntry hash move value eval depth bound board st in
  (forall j, 0 <= j < 3 -> tte_hash16 (slot_at st b j) <> signature hash) ->
  0 <= t < 3 /\
  (forall j, 0 <= j < 3 ->
     replace_score st (slot_at st b t) <= replace_score st (slot_at st b j)) /\
  slot_at st' b t = storeTTEntry_entry hash move value eval depth bound st /\
  (forall j, 0 <= j < 3 -> j <> t -> slot_at st' b j = slot_at st b j) /\
  (forall i2,
     0 <= i2 < 3 ->
     (forall j, 0 <= j < 3 ->
        0 <= tte_generation (slot_at st b j) < 256 /\
        Z.land (tte_generation (slot_at st b j)) TT_MASK_AGE = generation (Table st)) ->
     tte_depth (slot_at st b i2) = 2 ->
     (forall j, 0 <= j < 3 -> j <> i2 ->
        tte_depth (slot_at st b j) = 5 \/ tte_depth (slot_at st b j) = 9) ->
     t = i2).
Proof.
  cbv zeta. intros Hnone.
  destruct (storeTTEntry_target_spec hash st) as (Ht & _ & Hsel). cbv zeta in Hsel.
  destruct Hsel as [Hmatch | [_ Hmin]].
  { exfalso. exact (Hnone _ Ht Hmatch). }
  assert (Hd : storeTTEntry_discards hash depth bound st = false).
  { destruct (storeTTEntry_discards hash depth bound st) eqn:E; [|reflexivity].
    apply storeTTEntry_discards_spec in E. destruct E as (E & _).
    exfalso. exact (Hnone _ Ht E). }
  destruct (storeTTEntry_writes hash move value eval depth bound board st Hd)
    as (Hw & _ & Hother & _).
  split; [exact Ht|]. split; [exact Hmin|]. split; [exact Hw|]. split.
  - intros j Hj Hne. apply Hother. congruence.
  - intros i2 Hi2 Hgen Hd2 Hrest.
    destruct (Z.eq_dec (storeTTEntry_target hash st) i2) as [E|Hne]; [exact E|].
    exfalso.
    pose proof (Hmin i2 Hi2) as Hle.
    destruct (Hgen i2 Hi2) as [G2 A2].
    destruct (Hgen _ Ht) as [Gt At].
    rewrite (replace_score_current st _ G2 A2) in Hle.
    rewrite (replace_score_current st _ Gt At) in Hle.
    destruct (Hrest _ Ht Hne) as [D|D]; rewrite D in Hle; lia.
Qed.

(* ----------------------------------------------------------------- *)
(** ** Probing: [getTTEntry] *)

Lemma getTTEntry_scan_skip (n : nat) (i hash : Z) (board : Board) (st : TTState) :
  tte_hash16 (slot_at st (bucket_index st hash) i) <> signature hash ->
  getTTEntry_scan (S n) i hash board st
  = getTTEntry_scan n (i + 1) hash board st.
Proof.
  intros H. cbn [getTTEntry_scan]. cbv zeta.
  unfold slot_at, bucket_index, signature in H.
  destruct (Z.eqb_spec
              (tte_hash16 (slots (buckets (Table st) (Z.land hash (hashMask (Table st)))) i))
              (u16 (Z.shiftr hash 48))) as [E|_]; [contradiction | reflexivity].
Qed.

(** The outcome of the probe at a slot that carries the signature. *)
Lemma getTTEntry_scan_match (n : nat) (i hash : Z) (board : Board) (st : TTState) :
  tte_hash16 (slot_at st (bucket_index st hash) i) = signature hash ->
  getTTEntry_scan (S n) i hash board st
  = if BoardHashSrc_eqb (boardToBoardHashSrc board)
         (verificationHashes st (verification_index st hash i))
    then
      let e := refreshed st (slot_at st (bucket_index st hash) i) in
      (1,
       Some (mkTTProbe (tte_move e) (tte_value e) (tte_eval e) (tte_depth e)
                       (Z.land (tte_generation e) TT_MASK_BOUND) i),
       set_slot (counted st) (bucket_index st hash) i e)
    else (0, None, snd (verifyTTEntry hash i board st)).
Proof.
  intros H. cbn [getTTEntry_scan]. cbv zeta.
  unfold slot_at, bucket_index, signature in *.
  destruct (Z.eqb_spec
              (tte_hash16 (slots (buckets (Table st) (Z.land hash (hashMask (Table st)))) i))
              (u16 (Z.shiftr hash 48))) as [_|N]; [|contradiction].
  unfold verifyTTEntry. cbv zeta.
  destruct (BoardHashSrc_eqb (boardToBoardHashSrc board)
              (verificationHashes st (verification_index st hash i))); reflexivity.
Qed.

Lemma getTTEntry_first_match (hash : Z) (board : Board) (st : TTState) (t : Z) :
  0 <= t < 3 ->
  tte_hash16 (slot_at st (bucket_index st hash) t) = signature hash ->
  (forall j, 0 <= j < t ->
     tte_hash16 (slot_at st (bucket_index st hash) j) <> signature hash) ->
  getTTEntry hash board st = getTTEntry_scan 1 t hash board st.
Proof.
  intros Ht Hm Hfirst. unfold getTTEntry. change (Z.to_nat TT_BUCKET_NB) with 3%nat.
  destruct (slot_index_cases t Ht) as [->|[->| ->]].
  - rewrite !getTTEntry_scan_match by exact Hm. reflexivity.
  - rewrite getTTEntry_scan_skip by (apply Hfirst; lia).
    change (0 + 1) with 1.
    rewrite !getTTEntry_scan_match by exact Hm. reflexivity.
  - rewrite getTTEntry_scan_skip by (apply Hfirst; lia).
    change (0 + 1) with 1.
    rewrite getTTEntry_scan_skip by (apply Hfirst; lia).
    change (1 + 1) with 2. reflexivity.
Qed.

Lemma getTTEntry_no_match (hash : Z) (board : Board) (st : TTState) :
  (forall j, 0 <= j < 3 ->
     tte_hash16 (slot_at st (bucket_index st hash) j) <> signature hash) ->
  getTTEntry hash board st = (0, None, st).
Proof.
  intros Hnone. unfold getTTEntry. change (Z.to_nat TT_BUCKET_NB) with 3%nat.
  rewrite getTTEntry_scan_skip by (apply Hnone; lia). change (0 + 1) with 1.
  rewrite getTTEntry_scan_skip by (apply Hnone; lia). change (1 + 1) with 2.
  rewrite getTTEntry_scan_skip by (apply Hnone; lia). reflexivity.
Qed.

(** A probe hits at the first slot with the signature when the
    verification record of that slot is the packing of the board. *)
Lemma getTTEntry_hit (hash : Z) (board : Board) (st : TTState) (t : Z) :
  0 <= t < 3 ->
  tte_hash16 (slot_at st (bucket_index st hash) t) = signature hash ->
  (forall j, 0 <= j < t ->
     tte_hash16 (slot_at st (bucket_index st hash) j) <> signature hash) ->
  BoardHashSrc_eqb (boardToBoardHashSrc board)
    (verificationHashes st (verification_index st hash t)) = true ->
  getTTEntry hash board st
  = let e := refreshed st (slot_at st (bucket_index st hash) t) in
    (1,
     Some (mkTTProbe (tte_move e) (tte_value e) (tte_eval e) (tte_depth e)
                     (Z.land (tte_generation e) TT_MASK_BOUND) t),
     set_slot (counted st) (bucket_index st hash) t e).
Proof.
  intros Ht Hm Hfirst Hv.
  rewrite (getTTEntry_first_match hash board st t Ht Hm Hfirst).
  rewrite getTTEntry_scan_match by exact Hm. rewrite Hv. reflexivity.
Qed.

(** A probe misses when that verification record differs. *)
Lemma getTTEntry_verification_miss (hash : Z) (board : Board) (st : TTState) (t : Z) :
  0 <= t < 3 ->
  tte_hash16 (slot_at st (bucket_index st hash) t) = signature hash ->
  (forall j, 0 <= j < t ->
     tte_hash16 (slot_at st (bucket_index st hash) j) <> signature hash) ->
  BoardHashSrc_eqb (boardToBoardHashSrc board)
    (verificationHashes st (verification_index st hash t)) = false ->
  getTTEntry hash board st = (0, None, snd (verifyTTEntry hash t board st)).
Proof.
  intros Ht Hm Hfirst Hv.
  rewrite (getTTEntry_first_match hash board st t Ht Hm Hfirst).
  rewrite getTTEntry_scan_match by exact Hm. rewrite Hv. reflexivity.
Qed.

(* ----------------------------------------------------------------- *)
(** ** Clearing: [clearTT] *)

Lemma bucket_index_range (st : TTState) (hash : Z) :
  0 <= hashMask (Table st) ->
  0 <= bucket_index st hash <= hashMask (Table st).
Proof. intros H. apply land_mask_bound. exact H. Qed.

(** [clearTT] zeroes every slot of every bucket of the table. *)
Lemma clearTT_slot (st : TTState) (b j : Z) :
  TTable_wf st ->
  0 <= b <= hashMask (Table st) ->
  slot_at (clearTT st) b j = zeroTTEntry.
Proof.
  intros [(k & Hk & Hmask) _ _] Hb.
  unfold slot_at, clearTT, set_buckets. cbn [Table buckets].
  rewrite Hmask in *.
  replace (2 ^ k - 1 + 1) with (2 ^ k) by lia.
  pose proof (pow2_le_63 k ltac:(lia)) as Hp. rewrite pow2_63 in Hp.
  pose proof (pow2_le_63 (k + 5) ltac:(lia)) as Hp5. rewrite pow2_63 in Hp5.
  rewrite (u64_small (2 ^ k)) by (rewrite pow2_64; lia).
  unfold sizeof_TTBucket.
  assert (E : 32 * 2 ^ k = 2 ^ (k + 5))
    by (rewrite Z.pow_add_r by lia; change (2 ^ 5) with 32; lia).
  rewrite u64_small by (rewrite pow2_64; lia).
  rewrite Z.mul_comm, Z.div_mul by lia.
  destruct (Z.leb_spec 0 b) as [_|C]; [|lia].
  destruct (Z.ltb_spec b (2 ^ k)) as [_|C]; [|lia].
  reflexivity.
Qed.

Lemma clearTT_bucket_index st hash :
  bucket_index (clearTT st) hash = bucket_index st hash.
Proof. reflexivity. Qed.

Lemma clearTT_verification st k :
  verificationHashes (clearTT st) k = verificationHashes st k.
Proof. reflexivity. Qed.

Lemma clearTT_verification_index st hash slot :
  verification_index (clearTT st) hash slot = verification_index st hash slot.
Proof. reflexivity. Qed.

Lemma wf_hashMask_nonneg st : TTable_wf st -> 0 <= hashMask (Table st).
Proof.
  intros [(k & Hk & Hmask) _ _]. rewrite Hmask.
  pose proof (pow2_le_63 k ltac:(lia)). lia.
Qed.

Lemma clearTT_probe_slot (st : TTState) (hash j : Z) :
  TTable_wf st ->
  slot_at (clearTT st) (bucket_index (clearTT st) hash) j = zeroTTEntry.
Proof.
  intros Hwf. rewrite clearTT_bucket_index.
  apply clearTT_slot; [exact Hwf|].
  apply bucket_index_range, wf_hashMask_nonneg, Hwf.
Qed.

(** After a clear, a probe whose hash has zero top bits finds the zeroed
    first slot of its bucket, and reports it as a hit when the record
    that the verification array still holds for that slot is the
    packing of the probing board. *)
Lemma clearTT_probe_hit (hash : Z) (board : Board) (st : TTState) :
  TTable_wf st ->
  signature hash = 0 ->
  BoardHashSrc_eqb (boardToBoardHashSrc board)
    (verificationHashes st (verification_index st hash 0)) = true ->
  fst (getTTEntry hash board (clearTT st))
  = (1, Some (mkTTProbe 0 0 0 0
                (Z.land (u8 (Z.lor (generation (Table st)) 0)) TT_MASK_BOUND) 0)).
Proof.
  intros Hwf Hsig Hv.
  rewrite (getTTEntry_hit hash board (clearTT st) 0).
  - cbv zeta. rewrite (clearTT_probe_slot st hash 0 Hwf). reflexivity.
  - lia.
  - rewrite (clearTT_probe_slot st hash 0 Hwf), Hsig. reflexivity.
  - intros j Hj. lia.
  - rewrite clearTT_verification, clearTT_verification_index. exact Hv.
Qed.

(** C1, as stated, fails: [clearTT] zeroes the buckets but not the
    verification array.  After a result for the initial position was
    stored under a hash with zero top bits and the table was cleared,
    the probe with that hash and board matches the zeroed slot 0,
    passes verification against the record left from the store, and
    returns 1 with an all-zero entry. *)
Lemma clearTT_probe_stale_hit :
  clearedAfterGame
  = clearTT (storeTTEntry 5 77 55 40 10 BOUND_EXACT startBoard sizedState) /\
  fst (getTTEntry 5 startBoard clearedAfterGame)
  = (1, Some (mkTTProbe 0 0 0 0 BOUND_NONE 0)) /\
  fst (fst (getTTEntry 5 startBoard clearedAfterGame)) <> 0.
Proof.
  split; [reflexivity|]. split; [vm_compute; reflexivity|].
  vm_compute. discriminate.
Qed.

(** C1 (amended): immediately after [clearTT], a probe
    [getTTEntry hash board] returns 0 and writes no output whenever the
    top 16 bits of [hash] are not all zero, and also whenever the
    verification record held for slot 0 of the bucket of [hash] differs
    from the packing of [board]. *)
Theorem clearTT_probe_miss (hash : Z) (board : Board) (st : TTState) :
  TTable_wf st ->
  signature hash <> 0 \/
  BoardHashSrc_eqb (boardToBoardHashSrc board)
    (verificationHashes st (verification_index st hash 0)) = false ->
  fst (getTTEntry hash board (clearTT st)) = (0, None).
Proof.
  intros Hwf Hcond.
  destruct (Z.eq_dec (signature hash) 0) as [Hsig|Hsig].
  - destruct Hcond as [C|Hv]; [contradiction|].
    rewrite (getTTEntry_verification_miss hash board (clearTT st) 0).
    + reflexivity.
    + lia.
    + rewrite (clearTT_probe_slot st hash 0 Hwf), Hsig. reflexivity.
    + intros j Hj. lia.
    + rewrite clearTT_verification, clearTT_verification_index. exact Hv.
  - rewrite getTTEntry_no_match; [reflexivity|].
    intros j Hj. rewrite (clearTT_probe_slot st hash j Hwf).
    cbn [tte_hash16 zeroTTEntry]. congruence.
Qed.

Lemma sizedState_wf : TTable_wf sizedState.
Proof.
  constructor.
  - exists 16. closed_Z.
  - closed_Z.
  - closed_Z.
Defined.

Lemma clearTT_probe_miss_witness :
  fst (getTTEntry 0xABCD000000001234 startBoard (clearTT sizedState)) = (0, None) /\
  fst (getTTEntry 5 startBoard (clearTT sizedState)) = (0, None).
Proof.
  split.
  - apply (clearTT_probe_miss 0xABCD000000001234 startBoard sizedState sizedState_wf).
    left. closed_Z.
  - apply (clearTT_probe_miss 5 startBoard sizedState sizedState_wf).
    right. vm_compute. reflexivity.
Defined.

(* ----------------------------------------------------------------- *)
(** ** Store, then probe *)

Lemma storeTTEntry_bucket_index hash move value eval depth bound board st h :
  bucket_index (storeTTEntry hash move value eval depth bound board st) h
  = bucket_index st h.
Proof.
  unfold storeTTEntry.
  destruct (storeTTEntry_discards hash depth bound st); reflexivity.
Qed.

Lemma storeTTEntry_verification_index hash move value eval depth bound board st h i :
  verification_index (storeTTEntry hash move value eval depth bound board st) h i
  = verification_index st h i.
Proof.
  unfold storeTTEntry.
  destruct (storeTTEntry_discards hash depth bound st); reflexivity.
Qed.

Lemma storeTTEntry_entry_hash16 hash move value eval depth bound st :
  tte_hash16 (storeTTEntry_entry hash move value eval depth bound st) = signature hash.
Proof. unfold storeTTEntry_entry, signature. cbn [tte_hash16]. apply u16_idem. Qed.

(** A probe with the hash and board of a store that was not discarded
    hits the slot that the store wrote, and returns its fields. *)
Lemma getTTEntry_after_store (hash move value eval depth bound : Z) (board : Board)
    (st : TTState) :
  storeTTEntry_discards hash depth bound st = false ->
  let st1 := storeTTEntry hash move value eval depth bound board st in
  let t := storeTTEntry_target hash st in
  let e := refreshed st (storeTTEntry_entry hash move value eval depth bound st) in
  getTTEntry hash board st1
  = (1,
     Some (mkTTProbe (u16 move) (s16 value) (s16 eval) (s8 depth)
                     (Z.land (tte_generation e) TT_MASK_BOUND) t),
     set_slot (counted st1) (bucket_index st hash) t e).
Proof.
  intros Hd. cbv zeta.
  destruct (storeTTEntry_writes hash move value eval depth bound board st Hd)
    as (Hslot & Hver & Hother & _ & _ & Hgen & _).
  destruct (storeTTEntry_target_spec hash st) as (Ht & Hfirst & _).
  cbv zeta in Hfirst.
  set (st1 := storeTTEntry hash move value eval depth bound board st) in *.
  set (t := storeTTEntry_target hash st) in *.
  assert (Hb : bucket_index st1 hash = bucket_index st hash)
    by apply storeTTEntry_bucket_index.
  rewrite (getTTEntry_hit hash board st1 t Ht).
  - cbv zeta. rewrite Hb, Hslot.
    assert (Er : refreshed st1 (storeTTEntry_entry hash move value eval depth bound st)
                 = refreshed st (storeTTEntry_entry hash move value eval depth bound st)).
    { unfold refreshed. rewrite Hgen. reflexivity. }
    rewrite Er. reflexivity.
  - rewrite Hb, Hslot. apply storeTTEntry_entry_hash16.
  - intros j Hj. rewrite Hb, Hother.
    + apply Hfirst. exact Hj.
    + intros E. inversion E. lia.
  - unfold st1 at 2. rewrite storeTTEntry_verification_index. fold t.
    rewrite Hver. apply BoardHashSrc_eqb_refl.
Qed.

(** The generation byte of a slot, as written by a store and as left by
    the probe that follows: the bound bits are those of the store, the
    age bits those of the table's generation. *)
Lemma generation_byte_bits (g bound : Z) :
  0 <= g < 256 ->
  Z.land g TT_MASK_BOUND = 0 ->
  0 <= bound <= 3 ->
  let stored := u8 (Z.lor (u8 bound) g) in
  let probed := u8 (Z.lor g (Z.land stored TT_MASK_BOUND)) in
  Z.land stored TT_MASK_BOUND = bound /\
  Z.land stored TT_MASK_AGE = g /\
  Z.land probed TT_MASK_BOUND = bound /\
  Z.land probed TT_MASK_AGE = g.
Proof.
  intros Hg Hlow Hb. cbv zeta.
  set (check := fun bound g =>
    let stored := u8 (Z.lor (u8 bound) g) in
    let probed := u8 (Z.lor g (Z.land stored TT_MASK_BOUND)) in
    implb (Z.land g TT_MASK_BOUND =? 0)
      ((Z.land stored TT_MASK_BOUND =? bound)
       && (Z.land stored TT_MASK_AGE =? g)
       && (Z.land probed TT_MASK_BOUND =? bound)
       && (Z.land probed TT_MASK_AGE =? g))).
  assert (Hall : forallb (fun bound => forallb (check bound) (zrange 256 0)) (zrange 4 0)
                 = true) by (vm_compute; reflexivity).
  pose proof (forallb_zrange _ 4 0 Hall bound ltac:(lia)) as H1.
  pose proof (forallb_zrange _ 256 0 H1 g ltac:(lia)) as H2.
  unfold check in H2. cbv zeta in H2.
  apply Z.eqb_eq in Hlow. rewrite Hlow in H2. cbn [implb] in H2.
  rewrite !andb_true_iff, !Z.eqb_eq in H2.
  tauto.
Qed.

(** C2: after [storeTTEntry H M 55 40 10 BOUND_EXACT B], the probe
    [getTTEntry H B] with the same hash and board returns 1, and its
    outputs are exactly move [M], value 55, eval 40, depth 10 and bound
    [BOUND_EXACT] (at the slot that the store wrote); the probe leaves
    the matched slot with age bits equal to [Table.generation] and with
    the bound bits it had. *)
Theorem store_probe_roundtrip (H M : Z) (B : Board) (st : TTState) :
  TTable_wf st ->
  0 <= M < 65536 ->
  let st1 := storeTTEntry H M 55 40 10 BOUND_EXACT B st in
  let b := bucket_index st H in
  let t := storeTTEntry_target H st in
  exists st2,
    getTTEntry H B st1 = (1, Some (mkTTProbe M 55 40 10 BOUND_EXACT t), st2) /\
    Z.land (tte_generation (slot_at st2 b t)) TT_MASK_AGE = generation (Table st2) /\
    generation (Table st2) = generation (Table st) /\
    Z.land (tte_generation (slot_at st2 b t)) TT_MASK_BOUND
      = Z.land (tte_generation (slot_at st1 b t)) TT_MASK_BOUND /\
    Z.land (tte_generation (slot_at st2 b t)) TT_MASK_BOUND = BOUND_EXACT.
Proof.
  intros Hwf HM. cbv zeta.
  assert (Hd : storeTTEntry_discards H 10 BOUND_EXACT st = false).
  { destruct (storeTTEntry_discards H 10 BOUND_EXACT st) eqn:E; [|reflexivity].
    apply storeTTEntry_discards_spec in E. destruct E as (_ & Hne & _).
    contradiction. }
  destruct (storeTTEntry_writes H M 55 40 10 BOUND_EXACT B st Hd)
    as (Hslot & _ & _ & _ & _ & Hgen & _).
  destruct (generation_byte_bits (generation (Table st)) BOUND_EXACT)
    as (Sb & Sa & Pb & Pa);
    [apply Hwf | apply Hwf | unfold BOUND_EXACT; lia |].
  eexists. split; [|split; [|split; [|split]]].
  - rewrite (getTTEntry_after_store H M 55 40 10 BOUND_EXACT B st Hd). cbv zeta.
    rewrite (u16_small M) by exact HM.
    unfold refreshed, storeTTEntry_entry. cbn [tte_generation].
    rewrite Pb. reflexivity.
  - rewrite set_slot_same. unfold refreshed, storeTTEntry_entry.
    cbn [tte_generation]. rewrite Pa. cbn [set_slot set_buckets counted Table generation].
    symmetry. exact Hgen.
  - cbn [set_slot set_buckets counted Table generation]. exact Hgen.
  - rewrite set_slot_same, Hslot. unfold refreshed, storeTTEntry_entry.
    cbn [tte_generation]. rewrite Pb, Sb. reflexivity.
  - rewrite set_slot_same. unfold refreshed, storeTTEntry_entry.
    cbn [tte_generation]. exact Pb.
Qed.

Lemma store_probe_roundtrip_witness :
  exists st2,
    getTTEntry 0xABCD000000001234 startBoard
      (storeTTEntry 0xABCD000000001234 77 55 40 10 BOUND_EXACT startBoard sizedState)
    = (1, Some (mkTTProbe 77 55 40 10 BOUND_EXACT 2), st2).
Proof.
  destruct (store_probe_roundtrip 0xABCD000000001234 77 startBoard sizedState
              sizedState_wf ltac:(lia)) as (st2 & Hprobe & _).
  exists st2. exact Hprobe.
Defined.

(* ----------------------------------------------------------------- *)
(** ** Field widths *)

Lemma wrap_unsigned_congruent (w x : Z) :
  0 <= w -> (wrap_unsigned w x - x) mod 2 ^ w = 0.
Proof.
  intros Hw. unfold wrap_unsigned.
  assert (P : 0 < 2 ^ w) by (apply Z.pow_pos_nonneg; lia).
  rewrite (Z.mod_eq x (2 ^ w)) by lia.
  replace (x - 2 ^ w * (x / 2 ^ w) - x) with (- (x / 2 ^ w) * 2 ^ w) by lia.
  apply Z.mod_mul. lia.
Qed.

Lemma wrap_signed_congruent (w x : Z) :
  0 < w -> (wrap_signed w x - x) mod 2 ^ w = 0.
Proof.
  intros Hw. unfold wrap_signed.
  assert (P : 0 < 2 ^ w) by (apply Z.pow_pos_nonneg; lia).
  rewrite (Z.mod_eq (x + 2 ^ (w - 1)) (2 ^ w)) by lia.
  replace (x + 2 ^ (w - 1) - 2 ^ w * ((x + 2 ^ (w - 1)) / 2 ^ w) - 2 ^ (w - 1) - x)
    with (- ((x + 2 ^ (w - 1)) / 2 ^ w) * 2 ^ w) by lia.
  apply Z.mod_mul. lia.
Qed.

(** C10: every [storeTTEntry] that writes a slot stores the depth
    reduced to a signed 8-bit value, the value and the eval reduced to
    signed 16-bit values and the move reduced to an unsigned 16-bit
    value, each the input modulo [2^w] taken in the range of its width;
    the probe that follows with the same hash and board returns these
    reduced values, and each equals the input of the store exactly when
    that input fits the width of its field. *)
Theorem storeTTEntry_truncates
    (hash move value eval depth bound : Z) (board : Board) (st : TTState) :
  storeTTEntry_discards hash depth bound st = false ->
  let st1 := storeTTEntry hash move value eval depth bound board st in
  let b := bucket_index st hash in
  let t := storeTTEntry_target hash st in
  (tte_depth (slot_at st1 b t) = s8 depth /\
   tte_value (slot_at st1 b t) = s16 value /\
   tte_eval (slot_at st1 b t) = s16 eval /\
   tte_move (slot_at st1 b t) = u16 move) /\
  ((- 2 ^ 7 <= s8 depth < 2 ^ 7 /\ (s8 depth - depth) mod 2 ^ 8 = 0) /\
   (- 2 ^ 15 <= s16 value < 2 ^ 15 /\ (s16 value - value) mod 2 ^ 16 = 0) /\
   (- 2 ^ 15 <= s16 eval < 2 ^ 15 /\ (s16 eval - eval) mod 2 ^ 16 = 0) /\
   (0 <= u16 move < 2 ^ 16 /\ (u16 move - move) mod 2 ^ 16 = 0)) /\
  (exists bnd st2,
     getTTEntry hash board st1
     = (1, Some (mkTTProbe (u16 move) (s16 value) (s16 eval) (s8 depth) bnd t), st2)) /\
  ((s8 depth = depth <-> - 2 ^ 7 <= depth < 2 ^ 7) /\
   (s16 value = value <-> - 2 ^ 15 <= value < 2 ^ 15) /\
   (s16 eval = eval <-> - 2 ^ 15 <= eval < 2 ^ 15) /\
   (u16 move = move <-> 0 <= move < 2 ^ 16)).
Proof.
  intros Hd. cbv zeta.
  destruct (storeTTEntry_writes hash move value eval depth bound board st Hd)
    as (Hslot & _).
  split; [|split; [|split]].
  - rewrite Hslot. repeat split.
  - repeat split;
      try (apply (wrap_signed_range 8); lia);
      try (apply (wrap_signed_range 16); lia);
      try (apply (wrap_unsigned_range 16); lia);
      try (apply (wrap_signed_congruent 8); lia);
      try (apply (wrap_signed_congruent 16); lia);
      try (apply (wrap_unsigned_congruent 16); lia).
  - eexists. eexists.
    apply (getTTEntry_after_store hash move value eval depth bound board st Hd).
  - change (2 ^ 7) with 128. change (2 ^ 15) with 32768. change (2 ^ 16) with 65536.
    split; [apply s8_fixed|]. split; [apply s16_fixed|].
    split; [apply s16_fixed | apply u16_fixed].
Qed.

Lemma storeTTEntry_truncates_witness :
  exists bnd st2,
    getTTEntry 0xABCD000000001234 startBoard
      (storeTTEntry 0xABCD000000001234 77 70000 (-40000) 200 BOUND_LOWER
                    startBoard sizedState)
    = (1, Some (mkTTProbe 77 4464 25536 (-56) bnd 2), st2).
Proof.
  destruct (storeTTEntry_truncates 0xABCD000000001234 77 70000 (-40000) 200
              BOUND_LOWER startBoard sizedState)
    as (_ & _ & (bnd & st2 & Hprobe) & _); [vm_compute; reflexivity|].
  exists bnd, st2. exact Hprobe.
Defined.

(* ----------------------------------------------------------------- *)
(** ** Instances *)

Lemma storeTTEntry_discard_condition_witness :
  storeTTEntry 0xABCD000000001234 78 1 2 6 BOUND_LOWER e4Board storedState
  = storedState /\
  slot_at (storeTTEntry 0xABCD000000001234 78 1 2 8 BOUND_LOWER e4Board storedState)
          0x1234 2
  = mkTTEntry 8 1 2 1 78 0xABCD /\
  slot_at (storeTTEntry 0xABCD000000001234 78 1 2 0 BOUND_EXACT e4Board storedState)
          0x1234 2
  = mkTTEntry 0 3 2 1 78 0xABCD.
Proof.
  split; [|split].
  - destruct (storeTTEntry_discard_condition 0xABCD000000001234 78 1 2 6 BOUND_LOWER
                e4Board storedState) as (_ & Hdiscard & _).
    apply Hdiscard. closed_Z.
  - destruct (storeTTEntry_discard_condition 0xABCD000000001234 78 1 2 8 BOUND_LOWER
                e4Board storedState) as (_ & _ & Hwrite & _).
    destruct Hwrite as (Hslot & _).
    + intros (_ & _ & C). vm_compute in C. discriminate.
    + exact Hslot.
  - destruct (storeTTEntry_discard_condition 0xABCD000000001234 78 1 2 0 BOUND_EXACT
                e4Board storedState) as (_ & _ & _ & Hexact).
    destruct Hexact as (Hslot & _); [reflexivity|].
    exact Hslot.
Defined.

Lemma storeTTEntry_replaces_weakest_witness :
  tte_depth (slot_at fullBucketState 7 0) = 2 /\
  tte_depth (slot_at fullBucketState 7 1) = 9 /\
  tte_depth (slot_at fullBucketState 7 2) = 5 /\
  storeTTEntry_target 0x4444000000000007 fullBucketState = 0 /\
  slot_at (storeTTEntry 0x4444000000000007 104 40 44 1 BOUND_LOWER e4Board
                        fullBucketState) 7 0
  = mkTTEntry 1 1 44 40 104 0x4444.
Proof.
  destruct (storeTTEntry_replaces_weakest 0x4444000000000007 104 40 44 1 BOUND_LOWER
              e4Board fullBucketState)
    as (_ & _ & Hslot & _ & Hweakest); [each_slot|].
  assert (Ht : storeTTEntry_target 0x4444000000000007 fullBucketState = 0).
  { apply (Hweakest 0); [lia | each_slot | reflexivity |].
    intros j Hj Hne. destruct (slot_index_cases j Hj) as [->|[->| ->]].
    - contradiction.
    - right. reflexivity.
    - left. reflexivity. }
  split; [reflexivity|]. split; [reflexivity|]. split; [reflexivity|].
  split; [exact Ht|].
  rewrite Ht in Hslot. exact Hslot.
Defined.

Lemma getPKEntry_absent_iff_witness :
  getPKEntry 48 (storePKEntry 48 emptyPKTable 0xAAAA000000000001 9 25)
             0xAAAA000000000001 = Some 0xAAAA /\
  getPKEntry 48 (storePKEntry 48 emptyPKTable 0xAAAA000000000001 9 25)
             0xAAAA000000000002 = None.
Proof.
  destruct (getPKEntry_absent_iff 48 emptyPKTable 0 0xAAAA000000000001
              0xAAAA000000000002 9 25) as (_ & _ & _ & _ & Hsame & Hother).
  split.
  - exact Hsame.
  - apply Hother; closed_Z.
Defined.

(** The table of [initTT(2)] reports its 2 megabytes. *)
Example hashSizeMBTT_sized : hashSizeMBTT sizedState = 2.
Proof. vm_compute. reflexivity. Qed.

(** A sample in which all 3000 slots count reports 1000. *)
Example hashfullTT_saturated :
  hashfull_count saturatedState = 3000 /\ hashfullTT saturatedState = 1000.
Proof. split; vm_compute; reflexivity. Qed.

(* ----------------------------------------------------------------- *)
(** ** What the operations maintain *)

(** The first assertion of [initTT]. *)
Lemma initTT_smallest_table :
  u64 (u64 (Z.shiftl 1 16) * sizeof_TTBucket) = u64 (2 * MB).
Proof. reflexivity. Qed.

Lemma initTT_wf (m : Z) (fresh : Z -> TTBucket) (st st' : TTState) :
  0 <= generation (Table st) < 256 ->
  Z.land (generation (Table st)) TT_MASK_BOUND = 0 ->
  initTT m fresh st = Some st' ->
  TTable_wf st'.
Proof.
  intros Hg Hb Hinit.
  destruct (initTT_hashMask m fresh st)
    as (k & _ & Hk & _ & _ & st'' & Hinit' & Hmask & Hgen).
  rewrite Hinit in Hinit'. injection Hinit' as <-.
  constructor.
  - exists k. split; [lia | exact Hmask].
  - rewrite Hgen. exact Hg.
  - rewrite Hgen. exact Hb.
Qed.

(** The assertion of [updateTT]: the bound bits of the generation stay
    clear. *)
Lemma updateTT_wf (st : TTState) : TTable_wf st -> TTable_wf (updateTT st).
Proof.
  intros [Hm Hg Hb]. constructor.
  - exact Hm.
  - cbn [updateTT Table generation]. apply u8_range.
  - cbn [updateTT Table generation].
    assert (Hall : forallb
              (fun g => implb (Z.land g TT_MASK_BOUND =? 0)
                              (Z.land (u8 (g + (TT_MASK_BOUND + 1))) TT_MASK_BOUND =? 0))
              (zrange 256 0) = true) by (vm_compute; reflexivity).
    pose proof (forallb_zrange _ 256 0 Hall (generation (Table st)) ltac:(lia)) as H.
    cbv beta in H. apply Z.eqb_eq in Hb. rewrite Hb in H.
    apply Z.eqb_eq. exact H.
Qed.

(** Sixty-four bumps bring the generation back to where it was. *)
Lemma updateTT_wraparound (st : TTState) :
  0 <= generation (Table st) < 256 ->
  generation (Table (for_loop 64 0 (fun _ => updateTT) st)) = generation (Table st).
Proof.
  intros Hg.
  assert (Hiter : forall (n : nat) (i : Z) (s : TTState),
            generation (Table (for_loop n i (fun _ => updateTT) s))
            = for_loop n i (fun _ g => u8 (g + (TT_MASK_BOUND + 1)))
                       (generation (Table s))).
  { induction n as [|n IH]; intros i s; [reflexivity|].
    rewrite !for_loop_step, IH. reflexivity. }
  rewrite Hiter.
  assert (Hall : forallb
            (fun g => for_loop 64 0 (fun _ g => u8 (g + (TT_MASK_BOUND + 1))) g =? g)
            (zrange 256 0) = true) by (vm_compute; reflexivity).
  apply Z.eqb_eq. apply (forallb_zrange _ 256 0 Hall). lia.
Qed.

Lemma clearTT_wf (st : TTState) : TTable_wf st -> TTable_wf (clearTT st).
Proof. intros [Hm Hg Hb]. constructor; assumption. Qed.

Lemma storeTTEntry_wf hash move value eval depth bound board st :
  TTable_wf st ->
  TTable_wf (storeTTEntry hash move value eval depth bound board st).
Proof.
  intros Hwf. unfold storeTTEntry.
  destruct (storeTTEntry_discards hash depth bound st); [exact Hwf|].
  destruct Hwf as [Hm Hg Hb]. constructor; assumption.
Qed.

Lemma getTTEntry_scan_wf (hash : Z) (board : Board) :
  forall (n : nat) (i : Z) (st : TTState),
    TTable_wf st -> TTable_wf (snd (getTTEntry_scan n i hash board st)).
Proof.
  induction n as [|n IH]; intros i st Hwf; [exact Hwf|].
  cbn [getTTEntry_scan]. cbv zeta.
  destruct (tte_hash16 (slots (buckets (Table st) (Z.land hash (hashMask (Table st)))) i)
            =? u16 (Z.shiftr hash 48)); [|apply IH; exact Hwf].
  unfold verifyTTEntry. cbv zeta.
  destruct Hwf as [Hm Hg Hb].
  destruct (BoardHashSrc_eqb (boardToBoardHashSrc board)
              (verificationHashes st (verification_index st hash i)));
    cbn; constructor; assumption.
Qed.

Lemma getTTEntry_wf hash board st :
  TTable_wf st -> TTable_wf (snd (getTTEntry hash board st)).
Proof. apply getTTEntry_scan_wf. Qed.

(** Every verification counts one lookup; it counts a failure only on a
    mismatch against a record that is not all zero. *)
Lemma verifyTTEntry_counters (hash slot : Z) (board : Board) (st : TTState) :
  passedLookups (snd (verifyTTEntry hash slot board st)) = u64 (passedLookups st + 1) /\
  (fst (verifyTTEntry hash slot board st) = 0 ->
   verificationFailures (snd (verifyTTEntry hash slot board st))
   = verificationFailures st) /\
  ((forall i, 0 <= i < 4 ->
      packedSquares (verificationHashes st (verification_index st hash slot)) i = 0) ->
   verificationFailures (snd (verifyTTEntry hash slot board st))
   = verificationFailures st).
Proof.
  unfold verifyTTEntry. cbv zeta. cbn [fst snd passedLookups verificationFailures].
  split; [reflexivity|]. split.
  - destruct (BoardHashSrc_eqb (boardToBoardHashSrc board)
                (verificationHashes st (verification_index st hash slot)));
      [reflexivity | discriminate].
  - intros Hzero.
    rewrite (Hzero 0), (Hzero 1), (Hzero 2), (Hzero 3) by lia.
    cbn [Z.eqb andb negb]. rewrite andb_false_r. reflexivity.
Qed.

(** X17: on a table fresh from [initTT] the verification array is all
    zero, so every probe misses, whatever its hash, unless all four
    packed words of its board are zero. *)
Lemma initTT_probe_miss (m : Z) (fresh : Z -> TTBucket) (st st' : TTState)
    (hash : Z) (board : Board) :
  0 <= generation (Table st) < 256 ->
  Z.land (generation (Table st)) TT_MASK_BOUND = 0 ->
  initTT m fresh st = Some st' ->
  (exists i, 0 <= i < 4 /\ packedSquares (boardToBoardHashSrc board) i <> 0) ->
  fst (getTTEntry hash board st') = (0, None).
Proof.
  intros Hg Hb Hinit (i & Hi & Hword).
  destruct (initTT_hashMask m fresh st) as (k & Ek & Hk & _ & _ & _).
  unfold initTT in Hinit. rewrite Ek in Hinit. injection Hinit as <-.
  set (st0 := mkTTState
                (mkTTable fresh (u64 (u64 (Z.shiftl 1 k) - 1)) (generation (Table st)))
                (fun _ => zeroBoardHashSrc) (passedLookups st) (verificationFailures st)).
  assert (Hwf : TTable_wf st0).
  { constructor; [|exact Hg|exact Hb].
    exists k. split; [exact Hk|]. cbn [st0 Table hashMask].
    rewrite Z.shiftl_1_l.
    pose proof (pow2_le_63 k ltac:(lia)) as Hp. rewrite pow2_63 in Hp.
    rewrite (u64_small (2 ^ k)) by (rewrite pow2_64; lia).
    apply u64_small. rewrite pow2_64. lia. }
  assert (Hv : BoardHashSrc_eqb (boardToBoardHashSrc board) zeroBoardHashSrc = false).
  { unfold BoardHashSrc_eqb.
    assert (Hw : forallb (fun i => packedSquares (boardToBoardHashSrc board) i
                                   =? packedSquares zeroBoardHashSrc i) [0; 1; 2; 3]
                 = false).
    { cbn [forallb packedSquares zeroBoardHashSrc].
      assert (C : i = 0 \/ i = 1 \/ i = 2 \/ i = 3) by lia.
      destruct C as [->|[->|[->| ->]]];
        apply Z.eqb_neq in Hword; rewrite Hword;
        rewrite ?andb_false_r; reflexivity. }
    rewrite Hw. reflexivity. }
  destruct (Z.eq_dec (signature hash) 0) as [Hsig|Hsig].
  - rewrite (getTTEntry_verification_miss hash board (clearTT st0) 0).
    + reflexivity.
    + lia.
    + rewrite (clearTT_probe_slot st0 hash 0 Hwf), Hsig. reflexivity.
    + intros j Hj. lia.
    + exact Hv.
  - rewrite getTTEntry_no_match; [reflexivity|].
    intros j Hj. rewrite (clearTT_probe_slot st0 hash j Hwf).
    cbn [tte_hash16 zeroTTEntry]. congruence.
Qed.

(* ================================================================= *)
(** * Further properties *)

(** ** types.h: piece codes *)

(** X1: for every piece type from [PAWN] to [KING] and every colour
    [WHITE] or [BLACK] (what [makePiece] asserts), [makePiece] yields a
    piece code that passes the assertion of the decoders and is not
    [EMPTY], and [pieceType] and [pieceColour] give the type and the
    colour back. *)
Theorem makePiece_decode (type colour : Z) :
  PAWN <= type <= KING ->
  colour = WHITE \/ colour = BLACK ->
  piece_asserted (makePiece type colour) /\
  makePiece type colour <> EMPTY /\
  pieceType (makePiece type colour) = type /\
  pieceColour (makePiece type colour) = colour.
Proof.
  intros Ht Hc. unfold PAWN, KING in Ht.
  assert (C : type = 0 \/ type = 1 \/ type = 2 \/ type = 3 \/ type = 4 \/ type = 5)
    by lia.
  destruct Hc as [-> | ->];
    destruct C as [->|[->|[->|[->|[->| ->]]]]];
    (split; [|split; [|split]]);
    try (vm_compute; reflexivity);
    try (vm_compute; discriminate);
    unfold piece_asserted;
    first [ left; vm_compute; split; discriminate
          | right; left; vm_compute; split; discriminate ].
Qed.

Lemma makePiece_decode_witness :
  makePiece QUEEN BLACK = BLACK_QUEEN /\
  pieceType (makePiece QUEEN BLACK) = QUEEN /\
  pieceColour (makePiece QUEEN BLACK) = BLACK.
Proof.
  destruct (makePiece_decode QUEEN BLACK) as (_ & _ & Ht & Hc);
    [closed_Z | right; reflexivity |].
  split; [reflexivity|]. split; assumption.
Defined.

(** X2: for every piece code that passes the assertion of the decoders:
    a code other than [EMPTY] decodes to a colour [WHITE] or [BLACK] and
    a type from [PAWN] to [KING] from which [makePiece] rebuilds the
    code; [EMPTY] decodes to the out-of-band colour 2 ([COLOUR_NB]) and
    type 6 ([PIECE_NB]), which [makePiece] does not accept. *)
Theorem piece_decode_encode (piece : Z) :
  piece_asserted piece ->
  (piece <> EMPTY ->
   (pieceColour piece = WHITE \/ pieceColour piece = BLACK) /\
   PAWN <= pieceType piece <= KING /\
   makePiece (pieceType piece) (pieceColour piece) = piece) /\
  (piece = EMPTY ->
   pieceColour piece = COLOUR_NB /\ pieceType piece = PIECE_NB).
Proof.
  unfold piece_asserted, WHITE_PAWN, WHITE_KING, BLACK_PAWN, BLACK_KING, EMPTY.
  intros H.
  assert (C : piece = 0 \/ piece = 1 \/ piece = 2 \/ piece = 3 \/ piece = 4 \/
              piece = 5 \/ piece = 8 \/ piece = 9 \/ piece = 10 \/ piece = 11 \/
              piece = 12 \/ piece = 13 \/ piece = 14) by lia.
  destruct C as [->|[->|[->|[->|[->|[->|[->|[->|[->|[->|[->|[->| ->]]]]]]]]]]]];
    (split; [intros Hne | intros He]);
    try (exfalso; apply Hne; reflexivity);
    try discriminate He;
    try (split; vm_compute; reflexivity);
    (split; [|split]);
    try (vm_compute; reflexivity);
    try (vm_compute; split; discriminate);
    first [ left; vm_compute; reflexivity | right; vm_compute; reflexivity ].
Qed.

Lemma piece_decode_encode_witness :
  makePiece (pieceType BLACK_KNIGHT) (pieceColour BLACK_KNIGHT) = BLACK_KNIGHT /\
  pieceColour EMPTY = 2.
Proof.
  destruct (piece_decode_encode BLACK_KNIGHT) as (Hpiece & _);
    [right; left; closed_Z|].
  destruct (piece_decode_encode EMPTY) as (_ & Hempty);
    [right; right; reflexivity|].
  split.
  - apply Hpiece. vm_compute. discriminate.
  - apply Hempty. reflexivity.
Defined.

(* ----------------------------------------------------------------- *)
(** ** [initTT] and [hashSizeMBTT] *)

Lemma pow2_u64 (k : Z) : 0 <= k <= 63 -> u64 (2 ^ k) = 2 ^ k.
Proof.
  intros Hk. pose proof (pow2_le_63 k Hk) as Hp. rewrite pow2_63 in Hp.
  apply u64_small. rewrite pow2_64. lia.
Qed.

(** The number of buckets that [clearTT] zeroes in a table of mask
    [2^k - 1]. *)
Lemma clearTT_extent (mask k : Z) :
  0 <= k <= 58 ->
  mask = 2 ^ k - 1 ->
  u64 (sizeof_TTBucket * u64 (mask + 1)) / sizeof_TTBucket = 2 ^ k.
Proof.
  intros Hk ->.
  replace (2 ^ k - 1 + 1) with (2 ^ k) by lia.
  rewrite pow2_u64 by lia. unfold sizeof_TTBucket.
  replace (32 * 2 ^ k) with (2 ^ (k + 5))
    by (rewrite Z.pow_add_r by lia; change (2 ^ 5) with 32; lia).
  rewrite pow2_u64 by lia.
  rewrite Z.pow_add_r by lia. change (2 ^ 5) with 32.
  apply Z.div_mul. lia.
Qed.

(** X3: the key-size loop of [initTT] stops for every requested size,
    however large or small, at a key size [k] from 16 to 58, so that no
    shift ever reaches 64 bits.  Whenever [initTT] was given its memory
    and has returned, the table has [2^k] buckets, every slot of every
    bucket is zero, every verification record is zero, and the
    generation and the two counters are those from before. *)
Theorem initTT_always (m : Z) (fresh : Z -> TTBucket) (st : TTState) :
  exists k,
    initTT_keySize 64 m 16 = Some k /\
    16 <= k <= 58 /\
    forall st', initTT m fresh st = Some st' ->
      hashMask (Table st') = 2 ^ k - 1 /\
      (forall b j, 0 <= b <= hashMask (Table st') -> slot_at st' b j = zeroTTEntry) /\
      (forall i, verificationHashes st' i = zeroBoardHashSrc) /\
      generation (Table st') = generation (Table st) /\
      passedLookups st' = passedLookups st /\
      verificationFailures st' = verificationFailures st.
Proof.
  destruct (initTT_keySize_spec m 64 16) as (k & Ek & Hk & _);
    [lia | simpl; lia | intros; lia |].
  exists k. split; [exact Ek|]. split; [lia|].
  intros st' Est. unfold initTT in Est. rewrite Ek in Est.
  injection Est as <-.
  assert (Hmask : u64 (u64 (Z.shiftl 1 k) - 1) = 2 ^ k - 1).
  { rewrite Z.shiftl_1_l, pow2_u64 by lia.
    pose proof (pow2_le_63 k ltac:(lia)) as Hp. rewrite pow2_63 in Hp.
    apply u64_small. rewrite pow2_64. lia. }
  split; [exact Hmask|]. split; [|repeat split].
  intros b j Hb. rewrite clearTT_hashMask in Hb. cbn [Table hashMask] in Hb.
  unfold slot_at, clearTT, set_buckets. cbn [Table buckets hashMask].
  rewrite (clearTT_extent _ k); [| lia | exact Hmask].
  rewrite Hmask in Hb.
  destruct (Z.leb_spec 0 b) as [_|C]; [|lia].
  destruct (Z.ltb_spec b (2 ^ k)) as [_|C]; [|lia].
  reflexivity.
Qed.

Lemma initTT_always_witness :
  initTT_keySize 64 2 16 = Some 16 /\
  hashMask (Table sizedState) = 65535 /\
  slot_at sizedState 7 0 = zeroTTEntry /\
  verificationHashes sizedState 21 = zeroBoardHashSrc.
Proof.
  destruct (initTT_always 2 staleBuckets startupState) as (k & Ek & _ & H).
  assert (Hk : k = 16) by (vm_compute in Ek; congruence).
  subst k.
  destruct (H sizedState eq_refl) as (Hm & Hs & Hv & _).
  change (2 ^ 16 - 1) with 65535 in Hm.
  split; [exact Ek|]. split; [exact Hm|]. split; [|apply Hv].
  apply Hs. rewrite Hm. lia.
Defined.

(** X4: after [initTT m] with [0 <= m < 2^31], [hashSizeMBTT] reports a
    power of two of at least 2 megabytes; a request of 0 to 3 megabytes
    reports 2 (for 0 and 1 more than was requested), and a request of 2
    or more reports the largest power of two that is at most [m]. *)
Theorem hashSizeMBTT_after_initTT (m : Z) (fresh : Z -> TTBucket) (st : TTState) :
  0 <= m < 2 ^ 31 ->
  exists st' e,
    initTT m fresh st = Some st' /\
    1 <= e /\
    hashSizeMBTT st' = 2 ^ e /\
    (m < 4 -> hashSizeMBTT st' = 2) /\
    (2 <= m -> hashSizeMBTT st' <= m < 2 * hashSizeMBTT st').
Proof.
  intros Hm.
  destruct (initTT_hashMask m fresh st)
    as (k & _ & Hk & Hj & Hstop & st' & Est & Hmask & _).
  assert (E31 : 2 ^ 31 = 2147483648) by reflexivity.
  assert (E19 : 2 ^ 19 = 524288) by reflexivity.
  assert (Ebudget : u64 (m * MB) / 2 = m * 2 ^ 19).
  { rewrite MB_value, u64_small by (rewrite pow2_64; change (2 ^ 20) with 1048576; lia).
    change (2 ^ 20) with (2 ^ 19 * 2). rewrite Z.mul_assoc. apply Z.div_mul. lia. }
  rewrite Ebudget in Hj, Hstop.
  (* the key size is small enough for the size in megabytes to fit an int *)
  assert (Hk45 : k <= 45).
  { destruct (Z.le_gt_cases k 45) as [|Hbig]; [assumption|].
    specialize (Hj 45 ltac:(lia)). change (2 ^ (45 + 5)) with (2147483648 * 2 ^ 19) in Hj.
    lia. }
  assert (Hsize : hashSizeMBTT st' = 2 ^ (k - 15)).
  { unfold hashSizeMBTT. rewrite Hmask.
    replace (2 ^ k - 1 + 1) with (2 ^ k) by lia.
    rewrite pow2_u64 by lia. unfold sizeof_TTBucket.
    replace (2 ^ k * 32) with (2 ^ (k + 5))
      by (rewrite Z.pow_add_r by lia; change (2 ^ 5) with 32; lia).
    rewrite pow2_u64 by lia. rewrite MB_value.
    replace (k + 5) with (k - 15 + 20) by lia.
    rewrite Z.pow_add_r by lia. rewrite Z.div_mul by (change (2 ^ 20) with 1048576; lia).
    apply s32_small. unfold INT_MIN, INT_MAX.
    assert (0 < 2 ^ (k - 15)) by (apply Z.pow_pos_nonneg; lia).
    assert (2 ^ (k - 15) <= 2 ^ 30) by (apply Z.pow_le_mono_r; lia).
    change (2 ^ 30) with 1073741824 in *. rewrite E31. lia. }
  assert (Escale : forall j, 15 <= j -> 2 ^ (j + 5) = 2 ^ (j - 15) * (2 * 2 ^ 19)).
  { intros j Hj15. change (2 * 2 ^ 19) with (2 ^ 20).
    rewrite <- Z.pow_add_r by lia. f_equal. lia. }
  exists st', (k - 15). split; [exact Est|]. split; [lia|]. split; [exact Hsize|].
  rewrite Hsize. split.
  - intros Hsmall.
    destruct (Z.eq_dec k 16) as [->|Hne]; [reflexivity|].
    specialize (Hj 16 ltac:(lia)). change (2 ^ (16 + 5)) with (4 * 2 ^ 19) in Hj. lia.
  - intros Hge. rewrite (Escale k) in Hstop by lia.
    assert (0 < 2 ^ (k - 15)) by (apply Z.pow_pos_nonneg; lia).
    split; [|nia].
    destruct (Z.eq_dec k 16) as [->|Hne]; [change (2 ^ (16 - 15)) with 2; lia|].
    specialize (Hj (k - 1) ltac:(lia)).
    rewrite (Escale (k - 1)) in Hj by lia.
    replace (k - 15) with (Z.succ (k - 1 - 15)) by lia.
    rewrite Z.pow_succ_r by lia.
    assert (0 < 2 ^ (k - 1 - 15)) by (apply Z.pow_pos_nonneg; lia).
    nia.
Qed.

Lemma hashSizeMBTT_after_initTT_witness :
  exists st' e,
    initTT 100 staleBuckets startupState = Some st' /\
    1 <= e /\
    hashSizeMBTT st' = 2 ^ e /\
    (100 < 4 -> hashSizeMBTT st' = 2) /\
    (2 <= 100 -> hashSizeMBTT st' <= 100 < 2 * hashSizeMBTT st').
Proof. apply (hashSizeMBTT_after_initTT 100 staleBuckets startupState). closed_Z. Defined.

(* ----------------------------------------------------------------- *)
(** ** Generations: [updateTT] *)

Lemma updateTT_iter_wf (st : TTState) (n : nat) :
  TTable_wf st -> TTable_wf (Nat.iter n updateTT st).
Proof.
  intros Hwf. induction n as [|n IH]; [exact Hwf|].
  rewrite Nat.iter_succ. apply updateTT_wf. exact IH.
Qed.

Lemma updateTT_iter_generation (st : TTState) (n : nat) :
  0 <= generation (Table st) < 256 ->
  generation (Table (Nat.iter n updateTT st))
  = (generation (Table st) + 4 * Z.of_nat n) mod 256.
Proof.
  intros Hg. induction n as [|n IH].
  - change (Nat.iter 0 updateTT st) with st. rewrite Z.mod_small; lia.
  - rewrite Nat.iter_succ. cbn [updateTT Table generation]. rewrite IH.
    unfold u8, wrap_unsigned. change (2 ^ 8) with 256.
    change (TT_MASK_BOUND + 1) with 4.
    rewrite Zplus_mod_idemp_l. f_equal. lia.
Qed.

Lemma updateTT_iter_frame (st : TTState) (n : nat) :
  buckets (Table (Nat.iter n updateTT st)) = buckets (Table st) /\
  hashMask (Table (Nat.iter n updateTT st)) = hashMask (Table st) /\
  verificationHashes (Nat.iter n updateTT st) = verificationHashes st /\
  passedLookups (Nat.iter n updateTT st) = passedLookups st /\
  verificationFailures (Nat.iter n updateTT st) = verificationFailures st.
Proof.
  induction n as [|n IH]; [repeat split|].
  rewrite Nat.iter_succ.
  cbn [updateTT Table buckets hashMask verificationHashes passedLookups
       verificationFailures].
  exact IH.
Qed.

(** X5: [updateTT] steps the generation through a cycle of exactly 64
    values: after [n] bumps of a table whose generation is a byte with
    clear bound bits, the bound bits are still clear (the assertion of
    [updateTT] holds), the generation is back at its old value exactly
    when [n] is a multiple of 64, and the buckets, the mask, the
    verification array and the counters are untouched. *)
Theorem updateTT_period (st : TTState) (n : nat) :
  TTable_wf st ->
  Z.land (generation (Table (Nat.iter n updateTT st))) TT_MASK_BOUND = 0 /\
  (generation (Table (Nat.iter n updateTT st)) = generation (Table st)
   <-> Z.of_nat n mod 64 = 0) /\
  buckets (Table (Nat.iter n updateTT st)) = buckets (Table st) /\
  hashMask (Table (Nat.iter n updateTT st)) = hashMask (Table st) /\
  verificationHashes (Nat.iter n updateTT st) = verificationHashes st.
Proof.
  intros Hwf.
  pose proof (updateTT_iter_wf st n Hwf) as Hwf'.
  destruct (updateTT_iter_frame st n) as (Hb & Hm & Hv & _).
  split; [apply Hwf'|]. split; [|repeat split; assumption].
  rewrite updateTT_iter_generation by apply Hwf.
  destruct Hwf as [_ Hg _].
  set (g := generation (Table st)) in *. set (z := Z.of_nat n).
  split.
  - intros E.
    pose proof (Z.div_mod (g + 4 * z) 256 ltac:(lia)) as D. rewrite E in D.
    assert (Ez : z = (g + 4 * z) / 256 * 64) by lia.
    rewrite Ez. apply Z.mod_mul. lia.
  - intros E.
    pose proof (Z.div_mod z 64 ltac:(lia)) as D. rewrite E in D.
    replace (g + 4 * z) with (g + z / 64 * 256) by lia.
    rewrite Z_mod_plus_full. apply Z.mod_small. exact Hg.
Qed.

Lemma updateTT_period_witness :
  generation (Table (Nat.iter 64 updateTT storedState))
  = generation (Table storedState) /\
  generation (Table (Nat.iter 63 updateTT storedState))
  <> generation (Table storedState).
Proof.
  assert (Hwf : TTable_wf storedState) by (apply storeTTEntry_wf, sizedState_wf).
  split.
  - apply (updateTT_period storedState 64 Hwf). reflexivity.
  - intros E. apply (updateTT_period storedState 63 Hwf) in E. discriminate E.
Defined.

(** The age penalty of a slot, for any two generation bytes. *)
Lemma age_penalty (T g : Z) :
  0 <= T < 256 -> Z.land T TT_MASK_BOUND = 0 -> 0 <= g < 256 ->
  Z.land (259 + T - g) TT_MASK_AGE = (T - Z.land g TT_MASK_AGE) mod 256.
Proof.
  intros HT Hlow Hg.
  set (check := fun T g =>
    implb (Z.land T TT_MASK_BOUND =? 0)
          (Z.land (259 + T - g) TT_MASK_AGE =? (T - Z.land g TT_MASK_AGE) mod 256)).
  assert (Hall : forallb (fun T => forallb (check T) (zrange 256 0)) (zrange 256 0)
                 = true) by (vm_compute; reflexivity).
  pose proof (forallb_zrange _ 256 0 Hall T ltac:(lia)) as H1.
  pose proof (forallb_zrange _ 256 0 H1 g ltac:(lia)) as H2.
  unfold check in H2. apply Z.eqb_eq in Hlow. rewrite Hlow in H2.
  apply Z.eqb_eq. exact H2.
Qed.

(** X6: the replacement score of [storeTTEntry] is the depth minus 4
    per generation of age: for a slot tagged with the generation of a
    well-formed table, whatever its bound bits, after [n] calls of
    [updateTT] the score is [depth - 4 * (n mod 64)]; the penalty grows
    to 252 and is 0 again after 64 generations. *)
Theorem replace_score_aging (st : TTState) (e : TTEntry) (n : nat) :
  TTable_wf st ->
  0 <= tte_generation e < 256 ->
  Z.land (tte_generation e) TT_MASK_AGE = generation (Table st) ->
  replace_score (Nat.iter n updateTT st) e = tte_depth e - 4 * (Z.of_nat n mod 64).
Proof.
  intros Hwf Hg Hage.
  pose proof (updateTT_iter_wf st n Hwf) as [_ Hg' Hlow'].
  unfold replace_score. rewrite age_penalty by assumption.
  rewrite Hage, updateTT_iter_generation by apply Hwf.
  rewrite Zminus_mod_idemp_l.
  replace (generation (Table st) + 4 * Z.of_nat n - generation (Table st))
    with (4 * Z.of_nat n) by lia.
  change 256 with (4 * 64). rewrite Z.mul_mod_distr_l by lia. reflexivity.
Qed.

Lemma replace_score_aging_witness :
  replace_score (Nat.iter 3 updateTT storedState)
                (slot_at storedState 0x1234 2) = 10 - 12.
Proof.
  apply (replace_score_aging storedState (slot_at storedState 0x1234 2) 3).
  - apply storeTTEntry_wf, sizedState_wf.
  - closed_Z.
  - closed_Z.
Defined.

(** X7: the shape that the operations rely on is kept by all of them:
    a table of [2^k] buckets, [16 <= k <= 58], with a byte generation
    whose bound bits are clear stays such a table under [updateTT],
    [clearTT], [storeTTEntry], [getTTEntry] and a further [initTT]. *)
Theorem TTable_wf_preserved (st : TTState) :
  TTable_wf st ->
  TTable_wf (updateTT st) /\
  TTable_wf (clearTT st) /\
  (forall hash move value eval depth bound board,
     TTable_wf (storeTTEntry hash move value eval depth bound board st)) /\
  (forall hash board, TTable_wf (snd (getTTEntry hash board st))) /\
  (forall m fresh st', initTT m fresh st = Some st' -> TTable_wf st').
Proof.
  intros Hwf. split; [|split; [|split; [|split]]].
  - apply updateTT_wf. exact Hwf.
  - apply clearTT_wf. exact Hwf.
  - intros. apply storeTTEntry_wf. exact Hwf.
  - intros. apply getTTEntry_wf. exact Hwf.
  - intros m fresh st' Hinit.
    apply (initTT_wf m fresh st st'); [apply Hwf | apply Hwf | exact Hinit].
Qed.

Lemma TTable_wf_preserved_witness :
  TTable_wf (updateTT sizedState) /\
  TTable_wf (snd (getTTEntry 5 startBoard sizedState)).
Proof.
  destruct (TTable_wf_preserved sizedState sizedState_wf) as (Hu & _ & _ & Hp & _).
  split; [exact Hu | apply Hp].
Defined.

(* ----------------------------------------------------------------- *)
(** ** What a probe returns and what it changes *)

Lemma verifyTTEntry_table hash slot board st :
  Table (snd (verifyTTEntry hash slot board st)) = Table st /\
  verificationHashes (snd (verifyTTEntry hash slot board st)) = verificationHashes st /\
  passedLookups (snd (verifyTTEntry hash slot board st)) = u64 (passedLookups st + 1).
Proof. repeat split. Qed.

(** The three ways a probe can go. *)
Lemma getTTEntry_cases (hash : Z) (board : Board) (st : TTState) :
  ((forall j, 0 <= j < 3 ->
      tte_hash16 (slot_at st (bucket_index st hash) j) <> signature hash) /\
   getTTEntry hash board st = (0, None, st))
  \/
  exists t,
    0 <= t < 3 /\
    tte_hash16 (slot_at st (bucket_index st hash) t) = signature hash /\
    (forall j, 0 <= j < t ->
       tte_hash16 (slot_at st (bucket_index st hash) j) <> signature hash) /\
    ((BoardHashSrc_eqb (boardToBoardHashSrc board)
        (verificationHashes st (verification_index st hash t)) = true /\
      getTTEntry hash board st
      = (1,
         Some (mkTTProbe
                 (tte_move (slot_at st (bucket_index st hash) t))
                 (tte_value (slot_at st (bucket_index st hash) t))
                 (tte_eval (slot_at st (bucket_index st hash) t))
                 (tte_depth (slot_at st (bucket_index st hash) t))
                 (Z.land (tte_generation
                            (refreshed st (slot_at st (bucket_index st hash) t)))
                         TT_MASK_BOUND) t),
         set_slot (counted st) (bucket_index st hash) t
                  (refreshed st (slot_at st (bucket_index st hash) t))))
     \/
     (BoardHashSrc_eqb (boardToBoardHashSrc board)
        (verificationHashes st (verification_index st hash t)) = false /\
      getTTEntry hash board st = (0, None, snd (verifyTTEntry hash t board st)))).
Proof.
  set (b := bucket_index st hash). set (sg := signature hash).
  assert (Hat : forall t, 0 <= t < 3 ->
            tte_hash16 (slot_at st b t) = sg ->
            (forall j, 0 <= j < t -> tte_hash16 (slot_at st b j) <> sg) ->
            exists t,
              0 <= t < 3 /\ tte_hash16 (slot_at st b t) = sg /\
              (forall j, 0 <= j < t -> tte_hash16 (slot_at st b j) <> sg) /\
              ((BoardHashSrc_eqb (boardToBoardHashSrc board)
                  (verificationHashes st (verification_index st hash t)) = true /\
                getTTEntry hash board st
                = (1,
                   Some (mkTTProbe (tte_move (slot_at st b t)) (tte_value (slot_at st b t))
                           (tte_eval (slot_at st b t)) (tte_depth (slot_at st b t))
                           (Z.land (tte_generation (refreshed st (slot_at st b t)))
                                   TT_MASK_BOUND) t),
                   set_slot (counted st) b t (refreshed st (slot_at st b t))))
               \/
               (BoardHashSrc_eqb (boardToBoardHashSrc board)
                  (verificationHashes st (verification_index st hash t)) = false /\
                getTTEntry hash board st
                = (0, None, snd (verifyTTEntry hash t board st))))).
  { intros t Ht Hm Hfirst. exists t. split; [exact Ht|]. split; [exact Hm|].
    split; [exact Hfirst|].
    destruct (BoardHashSrc_eqb (boardToBoardHashSrc board)
                (verificationHashes st (verification_index st hash t))) eqn:Hv.
    - left. split; [reflexivity|].
      apply (getTTEntry_hit hash board st t Ht Hm Hfirst Hv).
    - right. split; [reflexivity|].
      apply (getTTEntry_verification_miss hash board st t Ht Hm Hfirst Hv). }
  destruct (Z.eq_dec (tte_hash16 (slot_at st b 0)) sg) as [E0|N0].
  { right. apply (Hat 0); [lia | exact E0 | intros j Hj; lia]. }
  destruct (Z.eq_dec (tte_hash16 (slot_at st b 1)) sg) as [E1|N1].
  { right. apply (Hat 1); [lia | exact E1 |].
    intros j Hj. assert (j = 0) as -> by lia. exact N0. }
  destruct (Z.eq_dec (tte_hash16 (slot_at st b 2)) sg) as [E2|N2].
  { right. apply (Hat 2); [lia | exact E2 |].
    intros j Hj. assert (j = 0 \/ j = 1) as [-> | ->] by lia; assumption. }
  left.
  assert (Hnone : forall j, 0 <= j < 3 -> tte_hash16 (slot_at st b j) <> sg).
  { intros j Hj. destruct (slot_index_cases j Hj) as [->|[->| ->]]; assumption. }
  split; [exact Hnone|]. apply getTTEntry_no_match. exact Hnone.
Qed.

(** X8: a probe returns 0 and writes no output, or returns 1 with
    outputs; and it returns 1 only for a verified match: the reported
    slot is the first slot of the bucket that carries the top 16 bits
    of the hash, the verification record of that slot is the packing of
    the probing board, and the move, value, eval and depth returned are
    the fields of that slot. *)
Theorem getTTEntry_sound (hash : Z) (board : Board) (st : TTState) :
  fst (getTTEntry hash board st) = (0, None) \/
  exists p,
    fst (getTTEntry hash board st) = (1, Some p) /\
    0 <= p_slot p < 3 /\
    tte_hash16 (slot_at st (bucket_index st hash) (p_slot p)) = signature hash /\
    (forall j, 0 <= j < p_slot p ->
       tte_hash16 (slot_at st (bucket_index st hash) j) <> signature hash) /\
    BoardHashSrc_eqb (boardToBoardHashSrc board)
      (verificationHashes st (verification_index st hash (p_slot p))) = true /\
    p_move p = tte_move (slot_at st (bucket_index st hash) (p_slot p)) /\
    p_value p = tte_value (slot_at st (bucket_index st hash) (p_slot p)) /\
    p_eval p = tte_eval (slot_at st (bucket_index st hash) (p_slot p)) /\
    p_depth p = tte_depth (slot_at st (bucket_index st hash) (p_slot p)).
Proof.
  destruct (getTTEntry_cases hash board st)
    as [[_ E] | (t & Ht & Hm & Hfirst & [[Hv E] | [_ E]])];
    rewrite E; cbn [fst]; [left; reflexivity | | left; reflexivity].
  right. eexists. split; [reflexivity|]. cbn [p_slot p_move p_value p_eval p_depth].
  repeat split; try assumption; lia.
Qed.

Lemma refreshed_fields (st : TTState) (e : TTEntry) :
  tte_depth (refreshed st e) = tte_depth e /\
  tte_eval (refreshed st e) = tte_eval e /\
  tte_value (refreshed st e) = tte_value e /\
  tte_move (refreshed st e) = tte_move e /\
  tte_hash16 (refreshed st e) = tte_hash16 e.
Proof. repeat split. Qed.

(** X9: a probe never changes what is stored: it leaves the mask, the
    generation and the whole verification array as they are, and of
    every slot the depth, eval, value, move and signature; the only
    slot content it writes is the generation byte of the slot it hits.
    A probe that returns 0 leaves every slot exactly as it was.  It
    counts at most one lookup. *)
Theorem getTTEntry_frame (hash : Z) (board : Board) (st : TTState) :
  let r := getTTEntry hash board st in
  hashMask (Table (snd r)) = hashMask (Table st) /\
  generation (Table (snd r)) = generation (Table st) /\
  (forall k, verificationHashes (snd r) k = verificationHashes st k) /\
  (forall b j,
     tte_depth (slot_at (snd r) b j) = tte_depth (slot_at st b j) /\
     tte_eval (slot_at (snd r) b j) = tte_eval (slot_at st b j) /\
     tte_value (slot_at (snd r) b j) = tte_value (slot_at st b j) /\
     tte_move (slot_at (snd r) b j) = tte_move (slot_at st b j) /\
     tte_hash16 (slot_at (snd r) b j) = tte_hash16 (slot_at st b j)) /\
  (forall b j,
     slot_at (snd r) b j = slot_at st b j \/
     (exists p, fst r = (1, Some p) /\ b = bucket_index st hash /\ j = p_slot p /\
                slot_at (snd r) b j = refreshed st (slot_at st b j))) /\
  (fst (fst r) = 0 -> forall b j, slot_at (snd r) b j = slot_at st b j) /\
  (passedLookups (snd r) = passedLookups st \/
   passedLookups (snd r) = u64 (passedLookups st + 1)).
Proof.
  cbv zeta.
  assert (Hslot : forall t b j,
            slot_at (set_slot (counted st) (bucket_index st hash) t
                       (refreshed st (slot_at st (bucket_index st hash) t))) b j
            = slot_at st b j \/
            (b = bucket_index st hash /\ j = t /\
             slot_at (set_slot (counted st) (bucket_index st hash) t
                        (refreshed st (slot_at st (bucket_index st hash) t))) b j
             = refreshed st (slot_at st b j))).
  { intros t b j.
    destruct (Z.eq_dec b (bucket_index st hash)) as [->|Hb].
    - destruct (Z.eq_dec j t) as [->|Hj].
      + right. rewrite set_slot_same. repeat split.
      + left. rewrite set_slot_other_slot by exact Hj. reflexivity.
    - left. rewrite set_slot_other_bucket by exact Hb. reflexivity. }
  destruct (getTTEntry_cases hash board st)
    as [[_ E] | (t & Ht & Hm & Hfirst & [[Hv E] | [_ E]])];
    rewrite E; cbn [fst snd].
  - repeat split; auto.
  - split; [reflexivity|]. split; [reflexivity|]. split; [reflexivity|].
    split; [|split; [|split]].
    + intros b j. destruct (Hslot t b j) as [-> | (_ & _ & ->)].
      * repeat split.
      * apply refreshed_fields.
    + intros b j. destruct (Hslot t b j) as [Hs | (Hb & Hj & Hs)].
      * left. exact Hs.
      * right. eexists. split; [reflexivity|]. cbn [p_slot]. repeat split; assumption.
    + discriminate.
    + right. reflexivity.
  - repeat split; auto.
Qed.

Lemma refresh_twice (T b : Z) :
  0 <= T < 256 -> 0 <= b <= 3 ->
  u8 (Z.lor T (Z.land (u8 (Z.lor T b)) TT_MASK_BOUND)) = u8 (Z.lor T b).
Proof.
  intros HT Hb.
  set (check := fun T b =>
    u8 (Z.lor T (Z.land (u8 (Z.lor T b)) TT_MASK_BOUND)) =? u8 (Z.lor T b)).
  assert (Hall : forallb (fun T => forallb (check T) (zrange 4 0)) (zrange 256 0) = true)
    by (vm_compute; reflexivity).
  pose proof (forallb_zrange _ 256 0 Hall T ltac:(lia)) as H1.
  pose proof (forallb_zrange _ 4 0 H1 b ltac:(lia)) as H2.
  apply Z.eqb_eq. exact H2.
Qed.

Lemma refreshed_idem (st : TTState) (e : TTEntry) :
  0 <= generation (Table st) < 256 ->
  refreshed st (refreshed st e) = refreshed st e.
Proof.
  intros Hg. unfold refreshed. cbn [tte_depth tte_generation tte_eval tte_value
                                   tte_move tte_hash16].
  rewrite refresh_twice; [reflexivity | exact Hg |].
  pose proof (land_mask_bound (tte_generation e) TT_MASK_BOUND ltac:(unfold TT_MASK_BOUND; lia)).
  unfold TT_MASK_BOUND in *. lia.
Qed.

(** X10: probing is idempotent: on a table whose generation is a byte,
    a second probe with the same hash and board returns what the first
    returned (the same int and the same outputs), and leaves every slot
    as the first probe left it. *)
Theorem getTTEntry_twice (hash : Z) (board : Board) (st : TTState) :
  0 <= generation (Table st) < 256 ->
  let st1 := snd (getTTEntry hash board st) in
  fst (getTTEntry hash board st1) = fst (getTTEntry hash board st) /\
  (forall b j, slot_at (snd (getTTEntry hash board st1)) b j = slot_at st1 b j).
Proof.
  intros Hg. cbv zeta.
  destruct (getTTEntry_cases hash board st)
    as [[Hnone E] | (t & Ht & Hm & Hfirst & [[Hv E] | [Hv E]])];
    rewrite E; cbn [fst snd].
  - rewrite E. split; reflexivity.
  - set (b := bucket_index st hash) in *.
    set (e1 := refreshed st (slot_at st b t)).
    set (st1 := set_slot (counted st) b t e1).
    assert (Hb1 : bucket_index st1 hash = b) by reflexivity.
    assert (Hs1 : slot_at st1 b t = e1) by apply set_slot_same.
    assert (Hhit := getTTEntry_hit hash board st1 t Ht).
    rewrite Hb1, Hs1 in Hhit.
    assert (Er : refreshed st1 e1 = e1) by (apply (refreshed_idem st); exact Hg).
    rewrite Hhit; [| exact Hm | | exact Hv].
    + cbv zeta. rewrite Er. cbn [fst snd]. split; [reflexivity|].
      intros b' j.
      destruct (Z.eq_dec b' b) as [->|Hb'].
      * destruct (Z.eq_dec j t) as [->|Hj].
        -- rewrite set_slot_same. symmetry. exact Hs1.
        -- rewrite set_slot_other_slot by exact Hj. reflexivity.
      * rewrite set_slot_other_bucket by exact Hb'. reflexivity.
    + intros j Hj. unfold st1. rewrite set_slot_other_slot by lia.
      apply Hfirst. exact Hj.
  - set (st1 := snd (verifyTTEntry hash t board st)).
    rewrite (getTTEntry_verification_miss hash board st1 t Ht Hm Hfirst Hv).
    split; reflexivity.
Qed.

Lemma getTTEntry_twice_witness :
  fst (getTTEntry 0xABCD000000001234 startBoard
         (snd (getTTEntry 0xABCD000000001234 startBoard storedState)))
  = (1, Some (mkTTProbe 77 55 40 10 BOUND_EXACT 2)).
Proof.
  destruct (getTTEntry_twice 0xABCD000000001234 startBoard storedState) as (E & _);
    [closed_Z|].
  cbv zeta in E. rewrite E. vm_compute. reflexivity.
Defined.

(* ----------------------------------------------------------------- *)
(** ** Stores and probes together *)

(** X11: signature collisions are caught: after a store that was not
    discarded, a probe with the same hash but a board whose packing
    differs from that of the stored board returns 0 and writes no
    output; it counts one lookup, it counts one verification failure
    unless the four packed words of the stored board are all zero, and
    it leaves the stored entry in its slot. *)
Theorem getTTEntry_collision
    (hash move value eval depth bound : Z) (stored probing : Board) (st : TTState) :
  storeTTEntry_discards hash depth bound st = false ->
  BoardHashSrc_eqb (boardToBoardHashSrc probing) (boardToBoardHashSrc stored) = false ->
  let st1 := storeTTEntry hash move value eval depth bound stored st in
  let st2 := snd (getTTEntry hash probing st1) in
  fst (getTTEntry hash probing st1) = (0, None) /\
  passedLookups st2 = u64 (passedLookups st + 1) /\
  verificationFailures st2
  = (if forallb (fun i => packedSquares (boardToBoardHashSrc stored) i =? 0) [0; 1; 2; 3]
     then verificationFailures st
     else u64 (verificationFailures st + 1)) /\
  slot_at st2 (bucket_index st hash) (storeTTEntry_target hash st)
  = storeTTEntry_entry hash move value eval depth bound st.
Proof.
  intros Hd Hne. cbv zeta.
  destruct (storeTTEntry_writes hash move value eval depth bound stored st Hd)
    as (Hslot & Hver & Hother & _ & _ & _ & Hpl & Hvf).
  destruct (storeTTEntry_target_spec hash st) as (Ht & Hfirst & _).
  cbv zeta in Hfirst.
  set (st1 := storeTTEntry hash move value eval depth bound stored st) in *.
  set (t := storeTTEntry_target hash st) in *.
  assert (Hb : bucket_index st1 hash = bucket_index st hash)
    by apply storeTTEntry_bucket_index.
  assert (Hvi : verification_index st1 hash t = verification_index st hash t)
    by apply storeTTEntry_verification_index.
  rewrite (getTTEntry_verification_miss hash probing st1 t Ht).
  - cbn [fst snd]. split; [reflexivity|].
    unfold verifyTTEntry. cbv zeta.
    cbn [snd passedLookups verificationFailures slot_at Table].
    rewrite Hvi, Hver, Hne, Hpl, Hvf. cbn [negb andb forallb].
    split; [reflexivity|]. split; [|exact Hslot].
    rewrite andb_true_r.
    destruct (packedSquares (boardToBoardHashSrc stored) 0 =? 0),
             (packedSquares (boardToBoardHashSrc stored) 1 =? 0),
             (packedSquares (boardToBoardHashSrc stored) 2 =? 0),
             (packedSquares (boardToBoardHashSrc stored) 3 =? 0); reflexivity.
  - rewrite Hb, Hslot. apply storeTTEntry_entry_hash16.
  - intros j Hj. rewrite Hb, Hother.
    + apply Hfirst. exact Hj.
    + intros E. inversion E. lia.
  - rewrite Hvi, Hver. exact Hne.
Qed.

Lemma getTTEntry_collision_witness :
  fst (getTTEntry 0xABCD000000001234 e4Board storedState) = (0, None) /\
  verificationFailures (snd (getTTEntry 0xABCD000000001234 e4Board storedState)) = 1.
Proof.
  destruct (getTTEntry_collision 0xABCD000000001234 77 55 40 10 BOUND_EXACT
              startBoard e4Board sizedState) as (Hmiss & _ & Hfail & _);
    [vm_compute; reflexivity | vm_compute; reflexivity |].
  split; [exact Hmiss | exact Hfail].
Defined.

Lemma refresh_bits (T b : Z) :
  0 <= T < 256 -> Z.land T TT_MASK_BOUND = 0 -> 0 <= b <= 3 ->
  Z.land (u8 (Z.lor T b)) TT_MASK_BOUND = b /\
  Z.land (u8 (Z.lor T b)) TT_MASK_AGE = T.
Proof.
  intros HT Hlow Hb.
  set (check := fun T b =>
    implb (Z.land T TT_MASK_BOUND =? 0)
          ((Z.land (u8 (Z.lor T b)) TT_MASK_BOUND =? b)
           && (Z.land (u8 (Z.lor T b)) TT_MASK_AGE =? T))).
  assert (Hall : forallb (fun T => forallb (check T) (zrange 4 0)) (zrange 256 0) = true)
    by (vm_compute; reflexivity).
  pose proof (forallb_zrange _ 256 0 Hall T ltac:(lia)) as H1.
  pose proof (forallb_zrange _ 4 0 H1 b ltac:(lia)) as H2.
  unfold check in H2. apply Z.eqb_eq in Hlow. rewrite Hlow in H2. cbn [implb] in H2.
  rewrite andb_true_iff, !Z.eqb_eq in H2. exact H2.
Qed.

Lemma updateTT_iter_slot (st : TTState) (n : nat) (b j : Z) :
  slot_at (Nat.iter n updateTT st) b j = slot_at st b j.
Proof.
  unfold slot_at. destruct (updateTT_iter_frame st n) as (-> & _). reflexivity.
Qed.

Lemma updateTT_iter_bucket_index (st : TTState) (n : nat) (hash : Z) :
  bucket_index (Nat.iter n updateTT st) hash = bucket_index st hash.
Proof.
  unfold bucket_index. destruct (updateTT_iter_frame st n) as (_ & -> & _). reflexivity.
Qed.

Lemma updateTT_iter_verification (st : TTState) (n : nat) (hash slot : Z) :
  verificationHashes (Nat.iter n updateTT st)
    (verification_index (Nat.iter n updateTT st) hash slot)
  = verificationHashes st (verification_index st hash slot).
Proof.
  unfold verification_index.
  destruct (updateTT_iter_frame st n) as (_ & -> & -> & _). reflexivity.
Qed.

(** X12: entries do not expire with age: after a store that was not
    discarded, with a bound from 0 to 3, and any number of calls of
    [updateTT], the probe with the same hash and board still returns 1
    with the stored move, value, eval, depth (each at its field width)
    and bound, and it tags the slot with the generation of the probe. *)
Theorem getTTEntry_after_updateTT
    (hash move value eval depth bound : Z) (board : Board) (st : TTState) (n : nat) :
  TTable_wf st ->
  0 <= bound <= 3 ->
  storeTTEntry_discards hash depth bound st = false ->
  let st1 := Nat.iter n updateTT
               (storeTTEntry hash move value eval depth bound board st) in
  let t := storeTTEntry_target hash st in
  fst (getTTEntry hash board st1)
  = (1, Some (mkTTProbe (u16 move) (s16 value) (s16 eval) (s8 depth) bound t)) /\
  Z.land (tte_generation (slot_at (snd (getTTEntry hash board st1))
                                  (bucket_index st hash) t)) TT_MASK_AGE
  = generation (Table st1).
Proof.
  intros Hwf Hbound Hd. cbv zeta.
  destruct (storeTTEntry_writes hash move value eval depth bound board st Hd)
    as (Hslot & Hver & Hother & _).
  destruct (storeTTEntry_target_spec hash st) as (Ht & Hfirst & _).
  cbv zeta in Hfirst.
  set (st0 := storeTTEntry hash move value eval depth bound board st) in *.
  set (t := storeTTEntry_target hash st) in *.
  set (st1 := Nat.iter n updateTT st0).
  assert (Hwf1 : TTable_wf st1)
    by (apply updateTT_iter_wf, storeTTEntry_wf; exact Hwf).
  assert (Hb : bucket_index st1 hash = bucket_index st hash).
  { unfold st1. rewrite updateTT_iter_bucket_index. apply storeTTEntry_bucket_index. }
  assert (Hs : forall j, slot_at st1 (bucket_index st hash) j
                         = slot_at st0 (bucket_index st hash) j)
    by (intros j; apply updateTT_iter_slot).
  destruct (generation_byte_bits (generation (Table st)) bound)
    as (Sb & _); [apply Hwf | apply Hwf | exact Hbound |].
  destruct (refresh_bits (generation (Table st1)) bound) as (Pb & Pa);
    [apply Hwf1 | apply Hwf1 | exact Hbound |].
  rewrite (getTTEntry_hit hash board st1 t Ht).
  - cbv zeta. rewrite Hb, Hs, Hslot. cbn [fst snd].
    rewrite set_slot_same.
    unfold refreshed, storeTTEntry_entry.
    cbn [tte_generation tte_move tte_value tte_eval tte_depth].
    rewrite Sb, Pb, Pa. split; reflexivity.
  - rewrite Hb, Hs, Hslot. apply storeTTEntry_entry_hash16.
  - intros j Hj. rewrite Hb, Hs, Hother.
    + apply Hfirst. exact Hj.
    + intros E. inversion E. lia.
  - unfold st1. rewrite updateTT_iter_verification.
    unfold st0 at 2. rewrite storeTTEntry_verification_index. fold t.
    rewrite Hver. apply BoardHashSrc_eqb_refl.
Qed.

Lemma getTTEntry_after_updateTT_witness :
  fst (getTTEntry 0xABCD000000001234 startBoard (Nat.iter 70 updateTT storedState))
  = (1, Some (mkTTProbe 77 55 40 10 BOUND_EXACT 2)).
Proof.
  destruct (getTTEntry_after_updateTT 0xABCD000000001234 77 55 40 10 BOUND_EXACT
              startBoard sizedState 70 sizedState_wf) as (E & _);
    [closed_Z | vm_compute; reflexivity |].
  exact E.
Defined.

(* ----------------------------------------------------------------- *)
(** ** One slot per signature *)

Lemma storeTTEntry_signatures (hash move value eval depth bound : Z) (board : Board)
    (st : TTState) (b j : Z) :
  tte_hash16 (slot_at (storeTTEntry hash move value eval depth bound board st) b j)
  = tte_hash16 (slot_at st b j)
  \/
  ((forall i, 0 <= i < 3 ->
      tte_hash16 (slot_at st (bucket_index st hash) i) <> signature hash) /\
   b = bucket_index st hash /\ j = storeTTEntry_target hash st /\
   tte_hash16 (slot_at (storeTTEntry hash move value eval depth bound board st) b j)
   = signature hash).
Proof.
  destruct (storeTTEntry_discards hash depth bound st) eqn:Hd.
  { left. unfold storeTTEntry. rewrite Hd. reflexivity. }
  destruct (storeTTEntry_writes hash move value eval depth bound board st Hd)
    as (Hslot & _ & Hother & _).
  destruct (Z.eq_dec b (bucket_index st hash)) as [->|Hb];
    [destruct (Z.eq_dec j (storeTTEntry_target hash st)) as [->|Hj]|].
  - rewrite Hslot, storeTTEntry_entry_hash16.
    destruct (storeTTEntry_target_spec hash st) as (_ & _ & [Hm | [Hnone _]]).
    + left. symmetry. exact Hm.
    + right. repeat split. exact Hnone.
  - left. rewrite Hother; [reflexivity | congruence].
  - left. rewrite Hother; [reflexivity | congruence].
Qed.

Lemma getTTEntry_signature_kept (hash : Z) (board : Board) (st : TTState) (b j : Z) :
  tte_hash16 (slot_at (snd (getTTEntry hash board st)) b j) = tte_hash16 (slot_at st b j).
Proof.
  destruct (getTTEntry_cases hash board st)
    as [[_ E] | (t & _ & _ & _ & [[_ E] | [_ E]])];
    rewrite E; cbn [snd]; try reflexivity.
  destruct (Z.eq_dec b (bucket_index st hash)) as [->|Hb];
    [destruct (Z.eq_dec j t) as [->|Hj]|].
  - rewrite set_slot_same. reflexivity.
  - rewrite set_slot_other_slot by exact Hj. reflexivity.
  - rewrite set_slot_other_bucket by exact Hb. reflexivity.
Qed.

(** X13: a bucket never holds a signature twice: [clearTT] leaves every
    bucket of the table with zero signatures only (every slot of the
    bucket carries signature 0, so no non-zero signature occurs at all),
    and if no two slots of a bucket carry the same non-zero signature,
    this is still so after any [storeTTEntry], any [getTTEntry] and any
    [updateTT]. *)
Theorem signatures_unique_kept (st : TTState) (b : Z) :
  (TTable_wf st -> 0 <= b <= hashMask (Table st) ->
   (forall j, tte_hash16 (slot_at (clearTT st) b j) = 0) /\
   signatures_unique (clearTT st) b) /\
  (signatures_unique st b ->
   (forall hash move value eval depth bound board,
      signatures_unique (storeTTEntry hash move value eval depth bound board st) b) /\
   (forall hash board, signatures_unique (snd (getTTEntry hash board st)) b) /\
   signatures_unique (updateTT st) b).
Proof.
  split.
  - intros Hwf Hb.
    assert (Hzero : forall j, tte_hash16 (slot_at (clearTT st) b j) = 0).
    { intros j. rewrite (clearTT_slot st b j Hwf Hb). reflexivity. }
    split; [exact Hzero|].
    intros i j _ _ _ _. apply Hzero.
  - intros Huniq. split; [|split].
    + intros hash move value eval depth bound board i j Hi Hj Hne E.
      destruct (storeTTEntry_signatures hash move value eval depth bound board st b i)
        as [Ei | (Hnone & Hb & Eti & Ei)];
        destruct (storeTTEntry_signatures hash move value eval depth bound board st b j)
          as [Ej | (Hnone' & Hb' & Etj & Ej)].
      * rewrite Ei in *. rewrite Ej in E. apply (Huniq i j); assumption.
      * exfalso. rewrite Ei, Ej in E. rewrite Hb' in E. exact (Hnone' i Hi E).
      * exfalso. rewrite Ei, Ej in E. rewrite Hb in E. symmetry in E.
        exact (Hnone j Hj E).
      * congruence.
    + intros hash board i j Hi Hj Hne E.
      rewrite !getTTEntry_signature_kept in *. apply (Huniq i j); assumption.
    + exact Huniq.
Qed.

Lemma signatures_unique_kept_witness :
  tte_hash16 (slot_at (clearTT sizedState) 7 2) = 0 /\
  signatures_unique
    (storeTTEntry 0x1111000000000007 101 10 11 5 BOUND_LOWER startBoard
       (clearTT sizedState)) 7.
Proof.
  destruct (signatures_unique_kept sizedState 7) as (Hclear & _).
  destruct (signatures_unique_kept (clearTT sizedState) 7) as (_ & Hkept).
  destruct (Hclear sizedState_wf) as (Hzero & Huniq); [closed_Z|].
  split; [apply Hzero | apply Hkept; exact Huniq].
Defined.

(* ----------------------------------------------------------------- *)
(** ** The cleared table *)

(** X14: a cleared slot can be hit: after [clearTT] on a well-formed
    table, a probe whose hash has zero top 16 bits and whose board
    packs to the record that the verification array holds for slot 0 of
    its bucket returns 1, with move 0, value 0, eval 0, depth 0, bound
    [BOUND_NONE] and slot 0, and tags that slot with the current
    generation. *)
Theorem clearTT_probe_zero_hit (hash : Z) (board : Board) (st : TTState) :
  TTable_wf st ->
  signature hash = 0 ->
  BoardHashSrc_eqb (boardToBoardHashSrc board)
    (verificationHashes st (verification_index st hash 0)) = true ->
  fst (getTTEntry hash board (clearTT st))
  = (1, Some (mkTTProbe 0 0 0 0 BOUND_NONE 0)) /\
  slot_at (snd (getTTEntry hash board (clearTT st))) (bucket_index st hash) 0
  = mkTTEntry 0 (generation (Table st)) 0 0 0 0.
Proof.
  intros Hwf Hsig Hv.
  destruct (refresh_bits (generation (Table st)) 0) as (Pb & _);
    [apply Hwf | apply Hwf | lia |].
  assert (Eg : u8 (Z.lor (generation (Table st)) 0) = generation (Table st)).
  { rewrite Z.lor_0_r. apply u8_small. apply Hwf. }
  rewrite (getTTEntry_hit hash board (clearTT st) 0).
  - cbv zeta. rewrite (clearTT_probe_slot st hash 0 Hwf).
    rewrite clearTT_bucket_index. cbn [fst snd]. rewrite set_slot_same.
    unfold refreshed. rewrite clearTT_generation.
    cbn [zeroTTEntry tte_depth tte_generation tte_eval tte_value tte_move tte_hash16].
    change (Z.land 0 TT_MASK_BOUND) with 0. rewrite Pb, Eg. split; reflexivity.
  - lia.
  - rewrite (clearTT_probe_slot st hash 0 Hwf), Hsig. reflexivity.
  - intros j Hj. lia.
  - rewrite clearTT_verification, clearTT_verification_index. exact Hv.
Qed.

Lemma clearTT_probe_zero_hit_witness :
  fst (getTTEntry 5 startBoard
         (clearTT (storeTTEntry 5 77 55 40 10 BOUND_EXACT startBoard sizedState)))
  = (1, Some (mkTTProbe 0 0 0 0 BOUND_NONE 0)).
Proof.
  apply (clearTT_probe_zero_hit 5 startBoard
           (storeTTEntry 5 77 55 40 10 BOUND_EXACT startBoard sizedState)).
  - apply storeTTEntry_wf, sizedState_wf.
  - reflexivity.
  - vm_compute. reflexivity.
Defined.

Lemma initTT_probe_miss_witness :
  fst (getTTEntry 5 startBoard sizedState) = (0, None).
Proof.
  apply (initTT_probe_miss 2 staleBuckets startupState sizedState 5 startBoard).
  - closed_Z.
  - reflexivity.
  - reflexivity.
  - exists 0. closed_Z.
Defined.

(* ----------------------------------------------------------------- *)
(** ** The occupancy estimate over time *)

Lemma in_zrange (x : Z) : forall (n : nat) (i : Z),
  In x (zrange n i) -> i <= x < i + Z.of_nat n.
Proof.
  induction n as [|n IH]; intros i H; [contradiction|].
  cbn [zrange In] in H. destruct H as [<- | H]; [lia|].
  apply IH in H. lia.
Qed.

Lemma filter_none {A : Type} (p : A -> bool) (l : list A) :
  (forall x, In x l -> p x = false) -> filter p l = [].
Proof.
  induction l as [|a l IH]; intros H; [reflexivity|].
  cbn [filter]. rewrite (H a) by (left; reflexivity).
  apply IH. intros x Hx. apply H. right. exact Hx.
Qed.

(** The estimate is 0 when no sampled slot counts. *)
Lemma hashfullTT_none (st : TTState) :
  (forall i j, 0 <= i < 1000 -> slot_counts st (i, j) = false) ->
  hashfullTT st = 0.
Proof.
  intros Hnone. unfold hashfullTT.
  rewrite (hashfull_loop_counts st 1000 0 0);
    [| lia | unfold INT_MAX; change (2 ^ 31) with 2147483648; lia].
  rewrite filter_none; [reflexivity|].
  intros [i j] Hin. apply in_flat_map in Hin. destruct Hin as (i' & Hi' & Hin).
  apply in_map_iff in Hin. destruct Hin as (j' & E & _). inversion E; subst.
  apply Hnone. apply in_zrange in Hi'. lia.
Qed.

(** X15: an empty table reports 0: [hashfullTT] returns 0 after
    [clearTT] on a well-formed table, and after every [initTT]. *)
Theorem hashfullTT_cleared (st : TTState) :
  (TTable_wf st -> hashfullTT (clearTT st) = 0) /\
  (forall m fresh st', initTT m fresh st = Some st' -> hashfullTT st' = 0).
Proof.
  assert (Hzero : forall s, (forall i j, 0 <= i < 1000 -> slot_at s i j = zeroTTEntry) ->
                            hashfullTT s = 0).
  { intros s Hs. apply hashfullTT_none. intros i j Hi.
    unfold slot_counts. cbn [fst snd]. fold (slot_at s i j). rewrite (Hs i j Hi).
    reflexivity. }
  split.
  - intros Hwf.
    assert (Hmask : 65535 <= hashMask (Table st)).
    { destruct Hwf as [(k & Hk & ->) _ _].
      assert (2 ^ 16 <= 2 ^ k) by (apply Z.pow_le_mono_r; lia).
      change (2 ^ 16) with 65536 in *. lia. }
    apply Hzero. intros i j Hi. apply clearTT_slot; [exact Hwf | lia].
  - intros m fresh st' Hinit.
    apply Hzero. intros i j Hi.
    destruct (initTT_hashMask m fresh st) as (k & Ek & Hk & _).
    unfold initTT in Hinit. rewrite Ek in Hinit. injection Hinit as <-.
    unfold slot_at, clearTT, set_buckets. cbn [Table buckets hashMask].
    rewrite (clearTT_extent _ k);
      [| lia | rewrite Z.shiftl_1_l, pow2_u64 by lia;
               pose proof (pow2_le_63 k ltac:(lia)) as Hp; rewrite pow2_63 in Hp;
               apply u64_small; rewrite pow2_64; lia].
    assert (2 ^ 16 <= 2 ^ k) by (apply Z.pow_le_mono_r; lia).
    change (2 ^ 16) with 65536 in *.
    destruct (Z.leb_spec 0 i) as [_|C]; [|lia].
    destruct (Z.ltb_spec i (2 ^ k)) as [_|C]; [|lia].
    reflexivity.
Qed.

Lemma hashfullTT_cleared_witness :
  hashfullTT (clearTT storedState) = 0 /\ hashfullTT sizedState = 0.
Proof.
  split.
  - apply (hashfullTT_cleared storedState). apply storeTTEntry_wf, sizedState_wf.
  - apply (proj2 (hashfullTT_cleared startupState) 2 staleBuckets sizedState). reflexivity.
Defined.

(** X16: the estimate covers the current generation only: if every
    sampled slot of a well-formed table is empty (bound bits
    [BOUND_NONE]) or tagged with the table's generation, then right
    after [updateTT] the estimate is 0, however full the sample was. *)
Theorem hashfullTT_after_updateTT (st : TTState) :
  TTable_wf st ->
  (forall i j, 0 <= i < 1000 ->
     Z.land (tte_generation (slot_at st i j)) TT_MASK_BOUND = BOUND_NONE \/
     Z.land (tte_generation (slot_at st i j)) TT_MASK_AGE = generation (Table st)) ->
  hashfullTT (updateTT st) = 0.
Proof.
  intros Hwf Hslots. apply hashfullTT_none. intros i j Hi.
  unfold slot_counts. cbn [fst snd updateTT Table buckets generation].
  fold (slot_at st i j).
  destruct (Hslots i j Hi) as [Hb | Ha].
  - rewrite Hb, Z.eqb_refl. reflexivity.
  - rewrite Ha.
    destruct Hwf as [_ Hg _].
    assert (Hne : generation (Table st) <> u8 (generation (Table st) + (TT_MASK_BOUND + 1))).
    { unfold u8, wrap_unsigned. change (2 ^ 8) with 256. change (TT_MASK_BOUND + 1) with 4.
      intros E.
      destruct (Z.lt_ge_cases (generation (Table st) + 4) 256) as [Hlt|Hge].
      - rewrite Z.mod_small in E by lia. lia.
      - replace (generation (Table st) + 4)
          with (generation (Table st) + 4 - 256 + 1 * 256) in E by lia.
        rewrite Z_mod_plus_full, Z.mod_small in E by lia. lia. }
    apply Z.eqb_neq in Hne. rewrite Hne. apply andb_false_r.
Qed.

Lemma hashfullTT_after_updateTT_witness :
  hashfullTT saturatedState = 1000 /\ hashfullTT (updateTT saturatedState) = 0.
Proof.
  split; [vm_compute; reflexivity|].
  apply (hashfullTT_after_updateTT saturatedState).
  - constructor; [exists 16; closed_Z | closed_Z | closed_Z].
  - intros i j _. right. reflexivity.
Defined.

(* ----------------------------------------------------------------- *)
(** ** Mate scores and the 16-bit score field *)

(** X18: renormalised scores fit the slot: for every score [v] with
    [|v| <= VALUE_NONE] and every height [h] from 0 to [MAX_PLY],
    [valueToTT v h] lies within 16 bits, so [storeTTEntry] stores it
    unchanged, and [valueFromTT] of the stored field gives [v] back. *)
Theorem valueToTT_fits_slot (v h : Z) :
  Z.abs v <= VALUE_NONE ->
  0 <= h <= MAX_PLY ->
  - 2 ^ 15 <= valueToTT v h < 2 ^ 15 /\
  s16 (valueToTT v h) = valueToTT v h /\
  valueFromTT (s16 (valueToTT v h)) h = v.
Proof.
  unfold VALUE_NONE, MATE, MAX_PLY. intros Hv Hh.
  assert (T : TBWIN_IN_MAX = 31000) by reflexivity.
  assert (Hs : forall x, -2147483648 <= x <= 2147483647 -> s32 x = x).
  { intros x Hx. apply s32_small. unfold INT_MIN, INT_MAX.
    change (2 ^ 31) with 2147483648. lia. }
  assert (Hto : - 2 ^ 15 <= valueToTT v h < 2 ^ 15 /\
                valueFromTT (valueToTT v h) h = v).
  { change (2 ^ 15) with 32768.
    destruct (Z.le_gt_cases TBWIN_IN_MAX v) as [Hwin|Hnw].
    - rewrite (valueToTT_win v h Hwin), (Hs (v + h)) by lia.
      split; [lia|]. rewrite valueFromTT_win by lia.
      replace (v + h - h) with v by lia. apply Hs. lia.
    - destruct (Z.le_gt_cases v (- TBWIN_IN_MAX)) as [Hloss|Hnl].
      + rewrite (valueToTT_loss v h Hloss), (Hs (v - h)) by lia.
        split; [lia|]. rewrite valueFromTT_loss by lia.
        replace (v - h + h) with v by lia. apply Hs. lia.
      + destruct (valueTT_ordinary v h) as [E1 E2]; [lia|].
        rewrite E1. split; [lia | exact E2]. }
  destruct Hto as [Hrange Hback].
  assert (E16 : s16 (valueToTT v h) = valueToTT v h).
  { apply s16_small. change (2 ^ 15) with 32768 in Hrange. lia. }
  split; [exact Hrange|]. split; [exact E16|]. rewrite E16. exact Hback.
Qed.

Lemma valueToTT_fits_slot_witness :
  s16 (valueToTT 32100 128) = 32228 /\
  valueFromTT (s16 (valueToTT 32100 128)) 128 = 32100.
Proof.
  destruct (valueToTT_fits_slot 32100 128) as (_ & E & Hback); [closed_Z | closed_Z |].
  split; [rewrite E; reflexivity | exact Hback].
Defined.

(** X19: [valueFromTT] then [valueToTT] is not always the identity: for
    an [int] score [v] and a height [h] from 0 to 128, the score comes
    back unchanged exactly when [h = 0], [|v| < 31000] or
    [|v| >= 31000 + h]; a score in the band [31000 <= |v| < 31000 + h]
    leaves [valueFromTT] as an ordinary score and comes back [h]
    nearer to zero. *)
Theorem valueFromTT_then_valueToTT (v h : Z) :
  INT_MIN <= v <= INT_MAX ->
  0 <= h <= 128 ->
  (valueToTT (valueFromTT v h) h = v
   <-> h = 0 \/ Z.abs v < 31000 \/ 31000 + h <= Z.abs v) /\
  (31000 <= v < 31000 + h -> valueToTT (valueFromTT v h) h = v - h) /\
  (- 31000 - h < v <= - 31000 -> valueToTT (valueFromTT v h) h = v + h).
Proof.
  unfold INT_MIN, INT_MAX. change (2 ^ 31) with 2147483648. intros Hv Hh.
  assert (T : TBWIN_IN_MAX = 31000) by reflexivity.
  assert (Hs : forall x, -2147483648 <= x <= 2147483647 -> s32 x = x).
  { intros x Hx. apply s32_small. unfold INT_MIN, INT_MAX.
    change (2 ^ 31) with 2147483648. lia. }
  assert (Hval : valueToTT (valueFromTT v h) h
                 = if (31000 <=? v) && (v <? 31000 + h) then v - h
                   else if (- 31000 - h <? v) && (v <=? - 31000) then v + h
                   else v).
  { destruct (Z.le_gt_cases TBWIN_IN_MAX v) as [Hwin|Hnw].
    - rewrite (valueFromTT_win v h Hwin), (Hs (v - h)) by lia.
      destruct (Z.leb_spec 31000 v) as [_|C]; [|lia]. cbn [andb].
      destruct (Z.ltb_spec v (31000 + h)) as [Hband|Hout].
      + destruct (valueTT_ordinary (v - h) h) as [E _]; [lia | exact E].
      + destruct (Z.ltb_spec (- 31000 - h) v) as [_|C]; [|lia].
        destruct (Z.leb_spec v (- 31000)) as [C|_]; [lia|]. cbn [andb].
        rewrite valueToTT_win by lia.
        replace (v - h + h) with v by lia. apply Hs. lia.
    - destruct (Z.leb_spec 31000 v) as [C|_]; [lia|]. cbn [andb].
      destruct (Z.le_gt_cases v (- TBWIN_IN_MAX)) as [Hloss|Hnl].
      + rewrite (valueFromTT_loss v h Hloss), (Hs (v + h)) by lia.
        destruct (Z.leb_spec v (- 31000)) as [_|C]; [|lia].
        destruct (Z.ltb_spec (- 31000 - h) v) as [Hband|Hout]; cbn [andb].
        * destruct (valueTT_ordinary (v + h) h) as [E _]; [lia | exact E].
        * rewrite valueToTT_loss by lia.
          replace (v + h - h) with v by lia. apply Hs. lia.
      + destruct (valueTT_ordinary v h) as [E1 E2]; [lia|]. rewrite E2, E1.
        destruct (Z.leb_spec v (- 31000)) as [C|_]; [lia|].
        rewrite andb_false_r. reflexivity. }
  rewrite Hval. split; [|split].
  - destruct (Z.leb_spec 31000 v), (Z.ltb_spec v (31000 + h)),
             (Z.ltb_spec (- 31000 - h) v), (Z.leb_spec v (- 31000));
      cbn [andb]; lia.
  - intros Hband.
    destruct (Z.leb_spec 31000 v), (Z.ltb_spec v (31000 + h)); cbn [andb]; lia.
  - intros Hband.
    destruct (Z.leb_spec 31000 v), (Z.ltb_spec v (31000 + h)),
             (Z.ltb_spec (- 31000 - h) v), (Z.leb_spec v (- 31000));
      cbn [andb]; lia.
Qed.

Lemma valueFromTT_then_valueToTT_witness :
  valueFromTT 31005 10 = 30995 /\ valueToTT (valueFromTT 31005 10) 10 = 31005 - 10.
Proof.
  split; [reflexivity|].
  apply (valueFromTT_then_valueToTT 31005 10); closed_Z.
Defined.

(* ----------------------------------------------------------------- *)
(** ** The pawn/king table over several stores *)

(** X20: the pawn/king table keeps the newest entry per index and
    nothing else: after a store of [H1] and then of a different [H2]
    with the same index, a probe finds [H2] and reports [H1] absent;
    and a store of [H1] does not change the answer to a probe of any
    hash that maps to another index. *)
Theorem storePKEntry_evicts (PKT_HASH_SHIFT : Z) (pktable : PKTable)
    (H1 passed1 eval1 H2 passed2 eval2 h : Z) :
  (H1 <> H2 ->
   Z.shiftr H1 PKT_HASH_SHIFT = Z.shiftr H2 PKT_HASH_SHIFT ->
   getPKEntry PKT_HASH_SHIFT
     (storePKEntry PKT_HASH_SHIFT
        (storePKEntry PKT_HASH_SHIFT pktable H1 passed1 eval1) H2 passed2 eval2) H1
   = None /\
   getPKEntry PKT_HASH_SHIFT
     (storePKEntry PKT_HASH_SHIFT
        (storePKEntry PKT_HASH_SHIFT pktable H1 passed1 eval1) H2 passed2 eval2) H2
   = Some (Z.shiftr H2 PKT_HASH_SHIFT) /\
   entries
     (storePKEntry PKT_HASH_SHIFT
        (storePKEntry PKT_HASH_SHIFT pktable H1 passed1 eval1) H2 passed2 eval2)
     (Z.shiftr H2 PKT_HASH_SHIFT)
   = mkPKEntry H2 passed2 eval2) /\
  (Z.shiftr h PKT_HASH_SHIFT <> Z.shiftr H1 PKT_HASH_SHIFT ->
   getPKEntry PKT_HASH_SHIFT (storePKEntry PKT_HASH_SHIFT pktable H1 passed1 eval1) h
   = getPKEntry PKT_HASH_SHIFT pktable h).
Proof.
  split.
  - intros Hne Hidx.
    assert (Hw : entries
                   (storePKEntry PKT_HASH_SHIFT
                      (storePKEntry PKT_HASH_SHIFT pktable H1 passed1 eval1)
                      H2 passed2 eval2)
                   (Z.shiftr H2 PKT_HASH_SHIFT) = mkPKEntry H2 passed2 eval2).
    { unfold storePKEntry at 1. cbn [entries]. apply array_set_same. }
    split; [|split; [|exact Hw]].
    + apply getPKEntry_absent. rewrite Hidx, Hw. cbn [pke_pkhash]. congruence.
    + apply getPKEntry_found. rewrite Hw. reflexivity.
  - intros Hidx. unfold getPKEntry, storePKEntry. cbn [entries].
    rewrite array_set_other by exact Hidx. reflexivity.
Qed.

Lemma storePKEntry_evicts_witness :
  getPKEntry 48
    (storePKEntry 48 (storePKEntry 48 emptyPKTable 0xAAAA000000000001 9 25)
                  0xAAAA000000000002 7 31) 0xAAAA000000000001 = None /\
  getPKEntry 48 (storePKEntry 48 emptyPKTable 0xAAAA000000000001 9 25)
             0xBBBB000000000001
  = getPKEntry 48 emptyPKTable 0xBBBB000000000001.
Proof.
  destruct (storePKEntry_evicts 48 emptyPKTable 0xAAAA000000000001 9 25
              0xAAAA000000000002 7 31 0xBBBB000000000001) as (Hevict & Hother).
  split.
  - apply Hevict; closed_Z.
  - apply Hother. closed_Z.
Defined.

(** X21: a zeroed entry answers to hash 0: when the entry that a probe
    hash maps to is all zero (as in a table that was never written),
    [getPKEntry] reports it as found exactly when the probe hash is 0,
    and as absent for every other hash. *)
Theorem getPKEntry_zeroed (PKT_HASH_SHIFT : Z) (pktable : PKTable) (h : Z) :
  entries pktable (Z.shiftr h PKT_HASH_SHIFT) = mkPKEntry 0 0 0 ->
  (h = 0 -> getPKEntry PKT_HASH_SHIFT pktable h = Some 0) /\
  (h <> 0 -> getPKEntry PKT_HASH_SHIFT pktable h = None).
Proof.
  intros Hz. split.
  - intros ->. rewrite Z.shiftr_0_l in Hz.
    unfold getPKEntry. rewrite Z.shiftr_0_l, Hz. reflexivity.
  - intros Hne. apply getPKEntry_absent. rewrite Hz. cbn [pke_pkhash]. congruence.
Qed.

Lemma getPKEntry_zeroed_witness :
  getPKEntry 48 emptyPKTable 0 = Some 0 /\
  getPKEntry 48 emptyPKTable 0xAAAA000000000001 = None.
Proof.
  split.
  - apply (getPKEntry_zeroed 48 emptyPKTable 0); reflexivity.
  - apply (getPKEntry_zeroed 48 emptyPKTable 0xAAAA000000000001);
      [reflexivity | discriminate].
Defined.

(* ----------------------------------------------------------------- *)
(** ** The verification record identifies the position *)

Lemma packed_unpack (board : Board) :
  Board_packable board ->
  (forall i, 0 <= i < 4 ->
     unpack_low (boardToBoardHashSrc board) i = rawBoard board (i * 2) /\
     unpack_high (boardToBoardHashSrc board) i = rawBoard board (i * 2 + 1)) /\
  unpack_castleRooks (boardToBoardHashSrc board) = b_castleRooks board.
Proof.
  intros [Hraw Hcastle]. split.
  - intros i Hi.
    pose proof (Hraw (i * 2) ltac:(lia)) as H0.
    pose proof (Hraw (i * 2 + 1) ltac:(lia)) as H1.
    unfold unpack_low, unpack_high, boardToBoardHashSrc. cbn [packedSquares].
    rewrite (nibbles_shiftl_u64 _ H1). split.
    + rewrite Z.land_lor_distr_l, H0, (nibbles_shiftl_low _ H1). apply Z.lor_0_r.
    + rewrite Z.shiftr_lor, Z.land_lor_distr_l, (nibbles_shiftr_low _ H0),
        (nibbles_shiftl_shiftr (rawBoard board (i * 2 + 1))), H1.
      apply Z.lor_0_l.
  - unfold unpack_castleRooks, boardToBoardHashSrc. cbn [hs_castleRooks].
    change (WHITE =? WHITE) with true. change (BLACK =? WHITE) with false. cbv iota.
    rewrite castle_high_byte, land_mask_u8, <- Z.land_lor_distr_r.
    exact Hcastle.
Qed.

Lemma BoardHashSrc_eqb_fields (a b : BoardHashSrc) :
  BoardHashSrc_eqb a b = true <->
  (forall i, 0 <= i < 4 -> packedSquares a i = packedSquares b i) /\
  hs_castleRooks a WHITE = hs_castleRooks b WHITE /\
  hs_castleRooks a BLACK = hs_castleRooks b BLACK /\
  hs_epSquare a = hs_epSquare b /\
  hs_turn a = hs_turn b /\
  hs_padding a = hs_padding b.
Proof.
  unfold BoardHashSrc_eqb. cbn [forallb].
  rewrite !andb_true_iff, !Z.eqb_eq. split.
  - intros (((((P0 & P1 & P2 & P3 & _) & (C0 & C1 & _)) & E) & T) & P).
    repeat split; try assumption.
    intros i Hi. assert (C : i = 0 \/ i = 1 \/ i = 2 \/ i = 3) by lia.
    destruct C as [->|[->|[->| ->]]]; assumption.
  - intros (P & C0 & C1 & E & T & Pd).
    repeat split; try assumption; apply P; lia.
Qed.

(** X22: on boards that pack without loss (4-bit codes in every byte
    of the eight leading words, castling bits in the lowest and highest
    byte only), two verification records compare equal exactly when
    the two boards agree on their eight leading words, their castling
    field, their en-passant square and their side to move: a verified
    hit is a hit for the same position. *)
Theorem boardToBoardHashSrc_injective (b1 b2 : Board) :
  Board_packable b1 ->
  Board_packable b2 ->
  (BoardHashSrc_eqb (boardToBoardHashSrc b1) (boardToBoardHashSrc b2) = true
   <->
   (forall j, 0 <= j < 8 -> rawBoard b1 j = rawBoard b2 j) /\
   b_castleRooks b1 = b_castleRooks b2 /\
   b_epSquare b1 = b_epSquare b2 /\
   b_turn b1 = b_turn b2).
Proof.
  intros Hp1 Hp2.
  destruct (packed_unpack b1 Hp1) as [Hsq1 Hc1].
  destruct (packed_unpack b2 Hp2) as [Hsq2 Hc2].
  rewrite BoardHashSrc_eqb_fields. split.
  - intros (P & C0 & C1 & E & T & _).
    split; [|split; [|split]].
    + intros j Hj.
      assert (Hlow : forall i, 0 <= i < 4 -> rawBoard b1 (i * 2) = rawBoard b2 (i * 2)).
      { intros i Hi. rewrite <- (proj1 (Hsq1 i Hi)), <- (proj1 (Hsq2 i Hi)).
        unfold unpack_low. rewrite (P i Hi). reflexivity. }
      assert (Hhigh : forall i, 0 <= i < 4 ->
                rawBoard b1 (i * 2 + 1) = rawBoard b2 (i * 2 + 1)).
      { intros i Hi. rewrite <- (proj2 (Hsq1 i Hi)), <- (proj2 (Hsq2 i Hi)).
        unfold unpack_high. rewrite (P i Hi). reflexivity. }
      destruct (Z.eq_dec (j mod 2) 0) as [Ev|Od].
      * replace j with (j / 2 * 2)
          by (pose proof (Z.div_mod j 2 ltac:(lia)); lia).
        apply Hlow.
        pose proof (Z.div_mod j 2 ltac:(lia)); lia.
      * pose proof (Z.mod_pos_bound j 2 ltac:(lia)).
        replace j with (j / 2 * 2 + 1)
          by (pose proof (Z.div_mod j 2 ltac:(lia)); lia).
        apply Hhigh.
        pose proof (Z.div_mod j 2 ltac:(lia)); lia.
    + rewrite <- Hc1, <- Hc2. unfold unpack_castleRooks. rewrite C0, C1. reflexivity.
    + exact E.
    + exact T.
  - intros (Hraw & Hc & He & Ht).
    unfold boardToBoardHashSrc.
    cbn [packedSquares hs_castleRooks hs_epSquare hs_turn hs_padding].
    change (WHITE =? WHITE) with true. change (BLACK =? WHITE) with false. cbv iota.
    rewrite Hc. repeat split; try assumption.
    intros i Hi. rewrite (Hraw (i * 2)), (Hraw (i * 2 + 1)) by lia. reflexivity.
Qed.

Lemma e4Board_packable : Board_packable e4Board.
Proof.
  split.
  - intros j Hj.
    assert (C : j = 0 \/ j = 1 \/ j = 2 \/ j = 3 \/ j = 4 \/ j = 5 \/ j = 6 \/ j = 7)
      by lia.
    destruct C as [->|[->|[->|[->|[->|[->|[->| ->]]]]]]]; reflexivity.
  - reflexivity.
Defined.

Lemma boardToBoardHashSrc_injective_witness :
  BoardHashSrc_eqb (boardToBoardHashSrc startBoard) (boardToBoardHashSrc e4Board)
  = false.
Proof.
  destruct (BoardHashSrc_eqb (boardToBoardHashSrc startBoard)
              (boardToBoardHashSrc e4Board)) eqn:E; [|reflexivity].
  apply (boardToBoardHashSrc_injective startBoard e4Board
           startBoard_packable e4Board_packable) in E.
  destruct E as (_ & _ & _ & Hturn). discriminate Hturn.
Defined.

(* ----------------------------------------------------------------- *)
(** ** The Zobrist hash *)

Lemma for_loop_fold {A : Type} (body : Z -> A -> A) : forall (n : nat) (i : Z) (s : A),
  for_loop n i body s = fold_left (fun s i => body i s) (zrange n i) s.
Proof.
  induction n as [|n IH]; intros i s; [reflexivity|].
  cbn [for_loop zrange fold_left]. apply IH.
Qed.

Lemma fold_lxor (f : Z -> Z) : forall (l : list Z) (h : Z),
  fold_left (fun h k => Z.lxor h (f k)) l h = Z.lxor h (xor_all f l).
Proof.
  induction l as [|k l IH]; intros h.
  - cbn. symmetry. apply Z.lxor_0_r.
  - cbn [fold_left xor_all fold_right]. rewrite IH.
    fold (xor_all f l). rewrite Z.lxor_assoc. reflexivity.
Qed.

Lemma xor_all_ext (f g : Z -> Z) (l : list Z) :
  (forall k, In k l -> f k = g k) -> xor_all f l = xor_all g l.
Proof.
  induction l as [|k l IH]; intros H; [reflexivity|].
  cbn [xor_all fold_right]. fold (xor_all f l). fold (xor_all g l).
  rewrite (H k) by (left; reflexivity).
  rewrite IH; [reflexivity|]. intros j Hj. apply H. right. exact Hj.
Qed.

Lemma find_zrange (p : Z -> bool) : forall (n : nat) (i k : Z),
  i <= k < i + Z.of_nat n ->
  p k = true ->
  (forall j, i <= j < k -> p j = false) ->
  find p (zrange n i) = Some k.
Proof.
  induction n as [|n IH]; intros i k Hk Hp Hlow; [simpl in Hk; lia|].
  cbn [zrange find].
  destruct (Z.eq_dec k i) as [->|Hne].
  - rewrite Hp. reflexivity.
  - rewrite (Hlow i) by lia. apply IH; [lia | exact Hp |].
    intros j Hj. apply Hlow. lia.
Qed.

Lemma bits_above_64 (x j : Z) : 0 <= x < 2 ^ 64 -> 64 <= j -> Z.testbit x j = false.
Proof.
  intros Hx Hj. destruct (Z.eq_dec x 0) as [->|Hne]; [apply Z.bits_0|].
  apply Z.bits_above_log2; [lia|].
  assert (Z.log2 x < 64) by (apply Z.log2_lt_pow2; lia). lia.
Qed.

Section ZobristProperties.

Variable ZobristKeys : Z -> Z -> Z.
Variable ZobristEnpassKeys : Z -> Z.
Variable ZobristCastleKeys : Z -> Z.
Variable ZobristTurnKey : Z.
Variable fileOf : Z -> Z.

Lemma castle_loop_more_fuel : forall (fuel : nat) (rooks hash r : Z),
  castle_loop ZobristCastleKeys fuel rooks hash = Some r ->
  castle_loop ZobristCastleKeys (S fuel) rooks hash = Some r.
Proof.
  induction fuel as [|fuel IH]; intros rooks hash r H; [discriminate|].
  cbn [castle_loop] in *.
  destruct (rooks =? 0); [exact H|].
  destruct (poplsb rooks) as [sq rooks']. apply IH. exact H.
Qed.

(** The castling loop pops the set bits from the lowest up and stops
    when none is left. *)
Lemma castle_loop_spec : forall (n : nat) (k rooks hash : Z),
  Z.of_nat n + k = 64 ->
  0 <= k ->
  (forall j, j < k \/ 64 <= j -> Z.testbit rooks j = false) ->
  castle_loop ZobristCastleKeys (S n) rooks hash
  = Some (Z.lxor hash (xor_all ZobristCastleKeys
                         (filter (Z.testbit rooks) (zrange n k)))).
Proof.
  induction n as [|n IH]; intros k rooks hash Hn Hk Hbits.
  - assert (rooks = 0) as ->.
    { apply Z.bits_inj'. intros j Hj. rewrite Z.bits_0. apply Hbits. lia. }
    cbn. rewrite Z.lxor_0_r. reflexivity.
  - destruct (Z.eqb_spec rooks 0) as [->|Hne].
    + cbn [castle_loop]. change (0 =? 0) with true. cbv iota.
      rewrite filter_none by (intros; apply Z.bits_0).
      cbn. rewrite Z.lxor_0_r. reflexivity.
    + cbn [zrange filter].
      destruct (Z.testbit rooks k) eqn:Hbit.
      * assert (Hlsb : getlsb rooks = k).
        { unfold getlsb. rewrite (find_zrange (Z.testbit rooks) 64 0 k);
            [reflexivity | lia | exact Hbit |].
          intros j Hj. apply Hbits. lia. }
        change (castle_loop ZobristCastleKeys (S (S n)) rooks hash)
          with (if rooks =? 0 then Some hash
                else let '(sq, rooks') := poplsb rooks in
                     castle_loop ZobristCastleKeys (S n) rooks'
                                 (Z.lxor hash (ZobristCastleKeys sq))).
        destruct (Z.eqb_spec rooks 0) as [C|_]; [contradiction|].
        unfold poplsb. rewrite Hlsb.
        rewrite (IH (k + 1)); [| lia | lia |].
        -- assert (Ef : filter (Z.testbit (Z.clearbit rooks k)) (zrange n (k + 1))
                        = filter (Z.testbit rooks) (zrange n (k + 1))).
           { apply filter_ext_in. intros j Hj. apply in_zrange in Hj.
             rewrite Z.clearbit_neq by lia. reflexivity. }
           rewrite Ef. cbn [xor_all fold_right]. rewrite Z.lxor_assoc. reflexivity.
        -- intros j Hj. rewrite Z.clearbit_eqb.
           destruct (Z.eqb_spec k j) as [<-|Hkj]; [apply andb_false_r|].
           rewrite Hbits by lia. reflexivity.
      * apply castle_loop_more_fuel. apply (IH (k + 1)); [lia | lia |].
        intros j Hj. destruct (Z.eq_dec j k) as [->|Hjk]; [exact Hbit|].
        apply Hbits. lia.
Qed.

Lemma castle_loop_set_bits (rooks hash : Z) :
  0 <= rooks < 2 ^ 64 ->
  castle_loop ZobristCastleKeys 65 rooks hash
  = Some (Z.lxor hash (xor_all ZobristCastleKeys (set_bits rooks))).
Proof.
  intros Hr. apply (castle_loop_spec 64 0); [reflexivity | lia |].
  intros j [Hj|Hj].
  - apply Z.testbit_neg_r. exact Hj.
  - apply bits_above_64; assumption.
Qed.

End ZobristProperties.

Lemma lor_u64_range (a b : Z) :
  0 <= a < 2 ^ 64 -> 0 <= b < 2 ^ 64 -> 0 <= Z.lor a b < 2 ^ 64.
Proof.
  intros Ha Hb.
  assert (Hn : 0 <= Z.lor a b) by (apply Z.lor_nonneg; lia).
  split; [exact Hn|].
  destruct (Z.eq_dec (Z.lor a b) 0) as [->|Hne]; [reflexivity|].
  apply Z.log2_lt_pow2; [lia|].
  rewrite Z.log2_lor by lia.
  destruct (Z.eq_dec a 0) as [->|Ha0]; destruct (Z.eq_dec b 0) as [->|Hb0].
  - reflexivity.
  - rewrite Z.max_r by (change (Z.log2 0) with 0; apply Z.log2_nonneg).
    apply Z.log2_lt_pow2; lia.
  - rewrite Z.max_l by (change (Z.log2 0) with 0; apply Z.log2_nonneg).
    apply Z.log2_lt_pow2; lia.
  - apply Z.max_lub_lt; apply Z.log2_lt_pow2; lia.
Qed.

Lemma unpackSquares_words (hashSrc : BoardHashSrc) (i : Z) :
  0 <= i < 4 ->
  unpackSquares hashSrc (i * 2) = unpack_low hashSrc i /\
  unpackSquares hashSrc (i * 2 + 1) = unpack_high hashSrc i.
Proof.
  intros Hi. assert (C : i = 0 \/ i = 1 \/ i = 2 \/ i = 3) by lia.
  destruct C as [->|[->|[->| ->]]]; split; reflexivity.
Qed.

Lemma unpackSquares_packed (board : Board) (j : Z) :
  Board_packable board ->
  0 <= j < 8 ->
  unpackSquares (boardToBoardHashSrc board) j = rawBoard board j.
Proof.
  intros Hp Hj. destruct (packed_unpack board Hp) as [Hsq _].
  assert (Hpair : forall i, 0 <= i < 4 ->
            unpackSquares (boardToBoardHashSrc board) (i * 2) = rawBoard board (i * 2) /\
            unpackSquares (boardToBoardHashSrc board) (i * 2 + 1)
            = rawBoard board (i * 2 + 1)).
  { intros i Hi.
    destruct (unpackSquares_words (boardToBoardHashSrc board) i Hi) as [El Eh].
    destruct (Hsq i Hi) as [Rl Rh]. rewrite El, Eh. split; assumption. }
  assert (C : j = 0 \/ j = 1 \/ j = 2 \/ j = 3 \/ j = 4 \/ j = 5 \/ j = 6 \/ j = 7)
    by lia.
  destruct C as [->|[->|[->|[->|[->|[->|[->| ->]]]]]]].
  - exact (proj1 (Hpair 0 ltac:(lia))).
  - exact (proj2 (Hpair 0 ltac:(lia))).
  - exact (proj1 (Hpair 1 ltac:(lia))).
  - exact (proj2 (Hpair 1 ltac:(lia))).
  - exact (proj1 (Hpair 2 ltac:(lia))).
  - exact (proj2 (Hpair 2 ltac:(lia))).
  - exact (proj1 (Hpair 3 ltac:(lia))).
  - exact (proj2 (Hpair 3 ltac:(lia))).
Qed.

Lemma xor_bits_clearbit (keys : Z -> Z) (c k : Z) :
  Z.testbit c k = true ->
  forall (n : nat) (i : Z),
    xor_all keys (filter (Z.testbit c) (zrange n i))
    = Z.lxor (if (i <=? k) && (k <? i + Z.of_nat n) then keys k else 0)
             (xor_all keys (filter (Z.testbit (Z.clearbit c k)) (zrange n i))).
Proof.
  intros Hbit. induction n as [|n IH]; intros i.
  - cbn [zrange filter xor_all fold_right].
    replace ((i <=? k) && (k <? i + Z.of_nat 0)) with false; [reflexivity|].
    symmetry. apply andb_false_iff.
    destruct (Z.leb_spec i k); [right; apply Z.ltb_ge; lia | left; reflexivity].
  - cbn [zrange filter]. rewrite Z.clearbit_eqb.
    destruct (Z.eqb_spec k i) as [<-|Hne].
    + rewrite Hbit, andb_false_r. cbn [xor_all fold_right].
      fold (xor_all keys (filter (Z.testbit c) (zrange n (k + 1)))).
      rewrite IH.
      replace ((k + 1 <=? k) && (k <? k + 1 + Z.of_nat n)) with false
        by (symmetry; apply andb_false_iff; left; apply Z.leb_gt; lia).
      replace ((k <=? k) && (k <? k + Z.of_nat (S n))) with true
        by (symmetry; apply andb_true_iff; split;
            [apply Z.leb_le | apply Z.ltb_lt]; lia).
      rewrite Z.lxor_0_l. reflexivity.
    + rewrite andb_true_r.
      assert (Ec : (i <=? k) && (k <? i + Z.of_nat (S n))
                   = (i + 1 <=? k) && (k <? i + 1 + Z.of_nat n)).
      { destruct (Z.leb_spec i k), (Z.ltb_spec k (i + Z.of_nat (S n))),
                 (Z.leb_spec (i + 1) k), (Z.ltb_spec k (i + 1 + Z.of_nat n));
          try reflexivity; lia. }
      rewrite Ec.
      destruct (Z.testbit c i).
      * cbn [xor_all fold_right].
        fold (xor_all keys (filter (Z.testbit c) (zrange n (i + 1)))).
        fold (xor_all keys (filter (Z.testbit (Z.clearbit c k)) (zrange n (i + 1)))).
        rewrite IH.
        set (d := if (i + 1 <=? k) && (k <? i + 1 + Z.of_nat n) then keys k else 0).
        rewrite <- (Z.lxor_assoc (keys i) d), (Z.lxor_comm (keys i) d), Z.lxor_assoc.
        reflexivity.
      * apply IH.
Qed.

Lemma castle_bytes_clearbit (c k : Z) :
  Z.land c CASTLE_BYTES = c ->
  Z.land (Z.clearbit c k) CASTLE_BYTES = Z.clearbit c k.
Proof.
  intros Hc. apply Z.bits_inj'. intros j Hj.
  rewrite Z.land_spec, Z.clearbit_eqb.
  rewrite <- Hc at 1 2. rewrite Z.land_spec.
  destruct (Z.testbit c j), (Z.testbit CASTLE_BYTES j), (k =? j); reflexivity.
Qed.

Lemma lxor_swap_right (a b c : Z) :
  Z.lxor (Z.lxor a b) c = Z.lxor (Z.lxor a c) b.
Proof. rewrite !Z.lxor_assoc, (Z.lxor_comm b c). reflexivity. Qed.

Lemma lxor_rotate (a b c : Z) :
  Z.lxor (Z.lxor a b) c = Z.lxor (Z.lxor b c) a.
Proof. rewrite (Z.lxor_comm a b). apply lxor_swap_right. Qed.

Lemma set_bits_spec (x j : Z) :
  In j (set_bits x) -> 0 <= j < 64 /\ Z.testbit x j = true.
Proof.
  unfold set_bits. intros Hj. apply filter_In in Hj. destruct Hj as [Hin Hbit].
  apply in_zrange in Hin. split; [lia | exact Hbit].
Qed.

Lemma byte_bits_above (w j : Z) : 0 <= w < 256 -> 8 <= j -> Z.testbit w j = false.
Proof.
  intros Hw Hj.
  destruct (Z.eq_dec w 0) as [->|Hne]; [apply Z.bits_0|].
  apply Z.bits_above_log2; [lia|].
  assert (Z.log2 w < 8)
    by (apply Z.log2_lt_pow2; [lia | change (2 ^ 8) with 256; lia]).
  lia.
Qed.

Lemma high_byte_bits_below (b j : Z) :
  0 <= b < 256 -> 0 <= j < 56 ->
  Z.testbit (u64 (b * 0x0100000000000000)) j = false.
Proof.
  intros Hb Hj. rewrite u64_small.
  - change 0x0100000000000000 with (2 ^ 56).
    rewrite Z.mul_pow2_bits_low; [reflexivity | lia].
  - rewrite pow2_64. lia.
Qed.

Section ZobristBoards.

Variable ZobristKeys : Z -> Z -> Z.
Variable ZobristEnpassKeys : Z -> Z.
Variable ZobristCastleKeys : Z -> Z.
Variable ZobristTurnKey : Z.
Variable fileOf : Z -> Z.

(** The hash as the exclusive or of its four parts. *)
Lemma boardHashSrcToZobrist_parts (hashSrc : BoardHashSrc) :
  0 <= hs_castleRooks hashSrc WHITE < 256 ->
  0 <= hs_castleRooks hashSrc BLACK < 256 ->
  boardHashSrcToZobrist ZobristKeys ZobristEnpassKeys ZobristCastleKeys
                        ZobristTurnKey fileOf hashSrc
  = Some
      (Z.lxor
         (Z.lxor
            (Z.lxor (if hs_turn hashSrc =? BLACK then ZobristTurnKey else 0)
                    (xor_all (fun sq => ZobristKeys (union_byte (unpackSquares hashSrc) sq) sq)
                             (zrange 64 0)))
            (if hs_epSquare hashSrc =? -1 then 0
             else ZobristEnpassKeys (fileOf (hs_epSquare hashSrc))))
         (xor_all ZobristCastleKeys (set_bits (unpack_castleRooks hashSrc)))).
Proof.
  intros HW HB. unfold boardHashSrcToZobrist. cbv zeta.
  fold (unpack_castleRooks hashSrc).
  assert (Hr : 0 <= unpack_castleRooks hashSrc < 2 ^ 64).
  { unfold unpack_castleRooks. apply lor_u64_range.
    - rewrite pow2_64. lia.
    - apply u64_range. }
  rewrite (castle_loop_set_bits ZobristCastleKeys _ _ Hr).
  change (Z.to_nat SQUARE_NB) with 64%nat.
  rewrite for_loop_fold.
  rewrite (fold_lxor (fun sq => ZobristKeys (union_byte (unpackSquares hashSrc) sq) sq)).
  destruct (hs_epSquare hashSrc =? -1); cbn [negb].
  - rewrite Z.lxor_0_r. reflexivity.
  - reflexivity.
Qed.

Lemma packed_castle_bytes (board : Board) (c : Z) :
  0 <= hs_castleRooks (boardToBoardHashSrc board) c < 256.
Proof.
  unfold boardToBoardHashSrc. cbn [hs_castleRooks].
  destruct (c =? WHITE); apply u8_range.
Qed.

(** The hash of a board that packs without loss, in terms of the board. *)
Lemma boardToHash_parts (board : Board) :
  Board_packable board ->
  boardToHash ZobristKeys ZobristEnpassKeys ZobristCastleKeys ZobristTurnKey fileOf board
  = Some
      (Z.lxor
         (Z.lxor
            (Z.lxor (if b_turn board =? BLACK then ZobristTurnKey else 0)
                    (xor_all (fun sq => ZobristKeys (union_byte (rawBoard board) sq) sq)
                             (zrange 64 0)))
            (if b_epSquare board =? -1 then 0
             else ZobristEnpassKeys (fileOf (b_epSquare board))))
         (xor_all ZobristCastleKeys (set_bits (b_castleRooks board)))).
Proof.
  intros Hp. unfold boardToHash.
  rewrite boardHashSrcToZobrist_parts by apply packed_castle_bytes.
  destruct (packed_unpack board Hp) as [_ Hc]. rewrite Hc.
  rewrite (xor_all_ext
             (fun sq => ZobristKeys
                          (union_byte (unpackSquares (boardToBoardHashSrc board)) sq) sq)
             (fun sq => ZobristKeys (union_byte (rawBoard board) sq) sq)).
  - reflexivity.
  - intros sq Hsq. apply in_zrange in Hsq. unfold union_byte.
    rewrite unpackSquares_packed; [reflexivity | exact Hp |].
    split; [apply Z.div_pos; lia | apply Z.div_lt_upper_bound; lia].
Qed.

(** X23: [boardHashSrcToZobrist] returns for every verification record
    whose two castling fields are bytes: the castling loop ends after as
    many steps as the rights have set bits.  The hash is the exclusive
    or of four parts: the turn key if black is to move; for each of the
    64 squares the key of the unpacked code on that square; the
    en-passant key of the file of the en-passant square unless that
    square is -1; and the castle key of every set bit of the recombined
    castling rights. *)
Theorem boardHashSrcToZobrist_xor (hashSrc : BoardHashSrc) :
  0 <= hs_castleRooks hashSrc WHITE < 256 ->
  0 <= hs_castleRooks hashSrc BLACK < 256 ->
  boardHashSrcToZobrist ZobristKeys ZobristEnpassKeys ZobristCastleKeys
                        ZobristTurnKey fileOf hashSrc
  = Some
      (Z.lxor
         (Z.lxor
            (Z.lxor (if hs_turn hashSrc =? BLACK then ZobristTurnKey else 0)
                    (xor_all (fun sq => ZobristKeys (union_byte (unpackSquares hashSrc) sq) sq)
                             (zrange 64 0)))
            (if hs_epSquare hashSrc =? -1 then 0
             else ZobristEnpassKeys (fileOf (hs_epSquare hashSrc))))
         (xor_all ZobristCastleKeys (set_bits (unpack_castleRooks hashSrc)))) /\
  (forall j, In j (set_bits (unpack_castleRooks hashSrc)) ->
     0 <= j < 8 \/ 56 <= j < 64).
Proof.
  intros HW HB. split; [apply boardHashSrcToZobrist_parts; assumption|].
  intros j Hj. apply set_bits_spec in Hj. destruct Hj as [Hin Hbit].
  unfold unpack_castleRooks in Hbit. rewrite Z.lor_spec in Hbit.
  destruct (Z.lt_ge_cases j 8) as [|H8]; [left; lia|]. right.
  destruct (Z.lt_ge_cases j 56) as [H56|]; [|lia]. exfalso.
  rewrite byte_bits_above, high_byte_bits_below in Hbit by lia. discriminate.
Qed.

(** X24: the hash of a board that packs without loss is the hash of
    the board itself: the turn key if black is to move, the key of the
    byte that the board holds for each of its 64 squares, the
    en-passant key unless the en-passant square is -1, and the castle
    key of every set bit of the castling field, all combined by
    exclusive or; packing and unpacking leave no trace in it. *)
Theorem boardToHash_xor (board : Board) :
  Board_packable board ->
  boardToHash ZobristKeys ZobristEnpassKeys ZobristCastleKeys ZobristTurnKey fileOf board
  = Some
      (Z.lxor
         (Z.lxor
            (Z.lxor (if b_turn board =? BLACK then ZobristTurnKey else 0)
                    (xor_all (fun sq => ZobristKeys (union_byte (rawBoard board) sq) sq)
                             (zrange 64 0)))
            (if b_epSquare board =? -1 then 0
             else ZobristEnpassKeys (fileOf (b_epSquare board))))
         (xor_all ZobristCastleKeys (set_bits (b_castleRooks board)))).
Proof. intros Hp. rewrite (boardToHash_parts board Hp). reflexivity. Qed.

(** X25: the hash can be updated move by move: for a board that packs
    without loss there is a hash [h] such that the same board with the
    other side to move hashes to [h] combined with the turn key, the
    same board with an en-passant square [e] instead of none hashes to
    [h] combined with the en-passant key of the file of [e], and the
    same board without a castling right it has on square [k] hashes to
    [h] combined with the castle key of [k]. *)
Theorem boardToHash_incremental (board : Board) (e k : Z) :
  Board_packable board ->
  b_turn board = WHITE ->
  b_epSquare board = -1 ->
  e <> -1 ->
  Z.testbit (b_castleRooks board) k = true ->
  exists h,
    boardToHash ZobristKeys ZobristEnpassKeys ZobristCastleKeys ZobristTurnKey fileOf
                board = Some h /\
    boardToHash ZobristKeys ZobristEnpassKeys ZobristCastleKeys ZobristTurnKey fileOf
                (with_turn board BLACK) = Some (Z.lxor h ZobristTurnKey) /\
    boardToHash ZobristKeys ZobristEnpassKeys ZobristCastleKeys ZobristTurnKey fileOf
                (with_epSquare board e)
    = Some (Z.lxor h (ZobristEnpassKeys (fileOf e))) /\
    boardToHash ZobristKeys ZobristEnpassKeys ZobristCastleKeys ZobristTurnKey fileOf
                (with_castleRooks board (Z.clearbit (b_castleRooks board) k))
    = Some (Z.lxor h (ZobristCastleKeys k)).
Proof.
  intros Hp Hturn Hep He Hbit.
  assert (Hk : 0 <= k < 64).
  { destruct Hp as [_ Hc]. rewrite <- Hc in Hbit. rewrite Z.land_spec in Hbit.
    apply andb_true_iff in Hbit. destruct Hbit as [_ Hcb].
    destruct (Z.lt_ge_cases k 0) as [Hneg|Hnn];
      [rewrite Z.testbit_neg_r in Hcb by exact Hneg; discriminate|].
    destruct (Z.lt_ge_cases k 64) as [|Hbig]; [lia|].
    rewrite bits_above_64 in Hcb; [discriminate | closed_Z | exact Hbig]. }
  assert (Hpt : Board_packable (with_turn board BLACK)) by exact Hp.
  assert (Hpe : Board_packable (with_epSquare board e)) by exact Hp.
  assert (Hpc : Board_packable
                  (with_castleRooks board (Z.clearbit (b_castleRooks board) k))).
  { destruct Hp as [Hraw Hc]. split; [exact Hraw|].
    cbn [with_castleRooks b_castleRooks]. apply castle_bytes_clearbit. exact Hc. }
  eexists. split; [apply (boardToHash_parts board Hp)|].
  rewrite (boardToHash_parts _ Hpt), (boardToHash_parts _ Hpe), (boardToHash_parts _ Hpc).
  cbn [with_turn with_epSquare with_castleRooks rawBoard b_castleRooks b_epSquare b_turn].
  rewrite Hturn, Hep.
  change (WHITE =? BLACK) with false. change (BLACK =? BLACK) with true.
  change (-1 =? -1) with true. cbv iota.
  destruct (Z.eqb_spec e (-1)) as [C|_]; [contradiction|].
  unfold set_bits.
  rewrite (xor_bits_clearbit ZobristCastleKeys (b_castleRooks board) k Hbit 64 0).
  replace ((0 <=? k) && (k <? 0 + Z.of_nat 64)) with true
    by (symmetry; apply andb_true_iff; split; [apply Z.leb_le | apply Z.ltb_lt]; lia).
  set (P := xor_all (fun sq => ZobristKeys (union_byte (rawBoard board) sq) sq)
                    (zrange 64 0)).
  set (C := xor_all ZobristCastleKeys
                    (filter (Z.testbit (Z.clearbit (b_castleRooks board) k))
                            (zrange 64 0))).
  rewrite !Z.lxor_0_l, !Z.lxor_0_r.
  split; [|split]; f_equal.
  - apply lxor_rotate.
  - apply lxor_swap_right.
  - rewrite Z.lxor_assoc, (Z.lxor_comm (ZobristCastleKeys k) C), (Z.lxor_assoc C).
    rewrite Z.lxor_nilpotent, Z.lxor_0_r. reflexivity.
Qed.

End ZobristBoards.

Lemma boardHashSrcToZobrist_xor_witness :
  exists h,
    boardHashSrcToZobrist sampleKeys sampleEnpassKeys sampleCastleKeys sampleTurnKey
                          sampleFileOf (boardToBoardHashSrc e4Board) = Some h.
Proof.
  eexists.
  apply (boardHashSrcToZobrist_xor sampleKeys sampleEnpassKeys sampleCastleKeys
           sampleTurnKey sampleFileOf (boardToBoardHashSrc e4Board)); closed_Z.
Defined.

Lemma boardToHash_xor_witness :
  boardToHash sampleKeys sampleEnpassKeys sampleCastleKeys sampleTurnKey sampleFileOf
              startBoard = Some 272.
Proof.
  rewrite (boardToHash_xor sampleKeys sampleEnpassKeys sampleCastleKeys sampleTurnKey
             sampleFileOf startBoard startBoard_packable).
  vm_compute. reflexivity.
Defined.

Lemma boardToHash_incremental_witness :
  boardToHash sampleKeys sampleEnpassKeys sampleCastleKeys sampleTurnKey sampleFileOf
              (with_turn startBoard BLACK) = Some (Z.lxor 272 sampleTurnKey) /\
  boardToHash sampleKeys sampleEnpassKeys sampleCastleKeys sampleTurnKey sampleFileOf
              (with_castleRooks startBoard 0x8100000000000080)
  = Some (Z.lxor 272 (sampleCastleKeys 0)).
Proof.
  destruct (boardToHash_incremental sampleKeys sampleEnpassKeys sampleCastleKeys
              sampleTurnKey sampleFileOf startBoard 20 0 startBoard_packable)
    as (h & E0 & Et & _ & Ec);
    [reflexivity | reflexivity | discriminate | reflexivity |].
  assert (Eh : h = 272) by (vm_compute in E0; injection E0 as <-; reflexivity).
  rewrite Eh in Et, Ec. split; [exact Et | exact Ec].
Defined.

(* ----------------------------------------------------------------- *)
(** ** Indices stay inside the arrays *)

(** X26: on a well-formed table every access is in bounds and no two
    slots share a verification record: the bucket index of any hash is
    below the number of buckets [hashMask + 1], the 1000 buckets that
    [hashfullTT] samples exist, the verification index of a slot is
    [3 * bucket + slot], below the [3 * (hashMask + 1)] records that
    [initTT] allocates, and two verification indices are equal only for
    the same bucket and the same slot. *)
Theorem verification_index_bounds (st : TTState) (h1 h2 s1 s2 : Z) :
  TTable_wf st ->
  0 <= s1 < 3 ->
  0 <= s2 < 3 ->
  0 <= bucket_index st h1 < hashMask (Table st) + 1 /\
  1000 <= hashMask (Table st) + 1 /\
  verification_index st h1 s1 = 3 * bucket_index st h1 + s1 /\
  0 <= verification_index st h1 s1 < 3 * (hashMask (Table st) + 1) /\
  (verification_index st h1 s1 = verification_index st h2 s2 <->
   bucket_index st h1 = bucket_index st h2 /\ s1 = s2).
Proof.
  intros Hwf Hs1 Hs2.
  pose proof (wf_hashMask_nonneg st Hwf) as Hnn.
  pose proof (bucket_index_range st h1 Hnn) as Hb1.
  pose proof (bucket_index_range st h2 Hnn) as Hb2.
  assert (Hmask : 65535 <= hashMask (Table st) < 2 ^ 58).
  { destruct Hwf as [(k & Hk & ->) _ _].
    assert (2 ^ 16 <= 2 ^ k) by (apply Z.pow_le_mono_r; lia).
    assert (2 ^ k <= 2 ^ 58) by (apply Z.pow_le_mono_r; lia).
    change (2 ^ 16) with 65536 in *.
    assert (0 < 2 ^ 58) by reflexivity. lia. }
  assert (E58 : 2 ^ 58 = 288230376151711744) by reflexivity.
  assert (Hidx : forall h s, 0 <= s < 3 -> 0 <= bucket_index st h <= hashMask (Table st) ->
                   verification_index st h s = 3 * bucket_index st h + s).
  { intros h s Hs Hb. unfold verification_index. fold (bucket_index st h).
    rewrite (u64_small (bucket_index st h * 3)) by (rewrite pow2_64; lia).
    rewrite u64_small by (rewrite pow2_64; lia). lia. }
  rewrite (Hidx h1 s1 Hs1 Hb1), (Hidx h2 s2 Hs2 Hb2).
  split; [lia|]. split; [lia|]. split; [reflexivity|]. split; [lia|].
  split; [intros E; lia | intros [-> ->]; reflexivity].
Qed.

Lemma verification_index_bounds_witness :
  verification_index storedState 0xABCD000000001234 2 = 3 * 0x1234 + 2 /\
  verification_index storedState 0xABCD000000001234 2
  <> verification_index storedState 0xABCD000000001235 0.
Proof.
  destruct (verification_index_bounds storedState 0xABCD000000001234
              0xABCD000000001235 2 0) as (_ & _ & E & _ & Hinj);
    [apply storeTTEntry_wf, sizedState_wf | lia | lia |].
  split; [exact E|].
  intros C. apply Hinj in C. destruct C as [_ C]. discriminate C.
Defined.


(* ----------------------------------------------------------------- *)
(** ** Packing the boards of the engine *)

(** A piece code is a 4-bit code. *)
Lemma piece_asserted_nibble (piece : Z) : piece_asserted piece -> 0 <= piece < 16.
Proof.
  unfold piece_asserted, WHITE_PAWN, WHITE_KING, BLACK_PAWN, BLACK_KING, EMPTY.
  lia.
Qed.

Lemma nibbles_bits (n : Z) :
  0 <= n < 64 -> n mod 8 < 4 -> Z.testbit NIBBLES n = true.
Proof.
  intros Hn Hr.
  assert (H : forallb (fun n => implb (n mod 8 <? 4) (Z.testbit NIBBLES n))
                      (zrange 64 0) = true) by (vm_compute; reflexivity).
  pose proof (forallb_zrange _ 64 0 H n ltac:(simpl; lia)) as Hb. cbv beta in Hb.
  destruct (Z.ltb_spec (n mod 8) 4) as [_|C]; [exact Hb | lia].
Qed.

Lemma castle_bytes_bits (k : Z) :
  0 <= k < 8 \/ 56 <= k < 64 -> Z.testbit CASTLE_BYTES k = true.
Proof.
  intros [Hk|Hk].
  - assert (H : forallb (Z.testbit CASTLE_BYTES) (zrange 8 0) = true)
      by (vm_compute; reflexivity).
    apply (forallb_zrange _ 8 0 H). simpl. lia.
  - assert (H : forallb (Z.testbit CASTLE_BYTES) (zrange 8 56) = true)
      by (vm_compute; reflexivity).
    apply (forallb_zrange _ 8 56 H). simpl. lia.
Qed.

(** A 64-bit word whose eight bytes are piece codes has no bit outside
    the low nibbles of its bytes. *)
Lemma word_of_pieces_nibbles (w : Z) :
  0 <= w < 2 ^ 64 ->
  (forall q, 0 <= q < 8 -> 0 <= Z.land (Z.shiftr w (8 * q)) 0xFF < 16) ->
  Z.land w NIBBLES = w.
Proof.
  intros Hw Hbytes. apply Z.bits_inj'. intros n Hn.
  rewrite Z.land_spec.
  destruct (Z.testbit w n) eqn:Ebit; [|reflexivity].
  rewrite andb_true_l.
  destruct (Z_lt_le_dec n 64) as [Hlt|Hge];
    [|rewrite (bits_above_64 w n Hw Hge) in Ebit; discriminate].
  apply nibbles_bits; [lia|].
  destruct (Z_lt_le_dec (n mod 8) 4) as [Hr|Hr]; [exact Hr|exfalso].
  pose proof (Z.mod_pos_bound n 8 ltac:(lia)) as Hmod.
  pose proof (Z.div_mod n 8 ltac:(lia)) as Hdm.
  assert (Hq : 0 <= n / 8 < 8).
  { split; [apply Z.div_pos; lia | apply Z.div_lt_upper_bound; lia]. }
  pose proof (Hbytes (n / 8) Hq) as Hbyte.
  assert (Hset : Z.testbit (Z.land (Z.shiftr w (8 * (n / 8))) 0xFF) (n mod 8) = true).
  { rewrite Z.land_spec, Z.shiftr_spec by lia.
    replace (n mod 8 + 8 * (n / 8)) with n by lia.
    rewrite Ebit, andb_true_l.
    change 0xFF with (Z.ones 8). apply Z.ones_spec_low. lia. }
  rewrite <- (Z.mod_small _ (2 ^ 4) Hbyte) in Hset.
  rewrite Z.mod_pow2_bits_high in Hset by lia. discriminate.
Qed.

(** Every board of the engine packs without loss. *)
Lemma Board_wf_packable (board : Board) : Board_wf board -> Board_packable board.
Proof.
  intros (Hwords & Hsquares & Hcastle). split.
  - intros j Hj. apply word_of_pieces_nibbles; [apply Hwords; exact Hj|].
    intros q Hq.
    pose proof (Hsquares (8 * j + q) ltac:(unfold SQUARE_NB; lia)) as Hp.
    unfold union_byte in Hp.
    replace ((8 * j + q) / 8) with j in Hp
      by (apply (Z.div_unique_pos _ _ j q); lia).
    replace ((8 * j + q) mod 8) with q in Hp
      by (apply (Z.mod_unique_pos _ _ j q); lia).
    apply piece_asserted_nibble. exact Hp.
  - apply Z.bits_inj'. intros k _. rewrite Z.land_spec.
    destruct (Z.testbit (b_castleRooks board) k) eqn:Ebit; [|reflexivity].
    rewrite (castle_bytes_bits k (Hcastle k Ebit)). reflexivity.
Qed.

(** C7: for every board, unpacking what [boardToBoardHashSrc] packed
    reproduces the originals exactly: for each [i] in [0..3],
    [packedSquares[i] & 0x0F0F0F0F0F0F0F0F] is raw word [2i] and
    [(packedSquares[i] >> 4) & 0x0F0F0F0F0F0F0F0F] is raw word [2i+1],
    and [castleRooks[WHITE] | (castleRooks[BLACK] << 56)], as well as
    the product form of the function's own assertion, is the board's
    castling field.  A board is a record whose squares hold piece
    codes and whose castling rights sit in the low and the high byte
    of their field. *)
Theorem boardToBoardHashSrc_roundtrip (board : Board) :
  Board_wf board ->
  (forall i, 0 <= i < 4 ->
     Z.land (packedSquares (boardToBoardHashSrc board) i) 0x0F0F0F0F0F0F0F0F
     = rawBoard board (2 * i) /\
     Z.land (Z.shiftr (packedSquares (boardToBoardHashSrc board) i) 4)
            0x0F0F0F0F0F0F0F0F
     = rawBoard board (2 * i + 1)) /\
  Z.lor (hs_castleRooks (boardToBoardHashSrc board) WHITE)
        (Z.shiftl (hs_castleRooks (boardToBoardHashSrc board) BLACK) 56)
  = b_castleRooks board /\
  unpack_castleRooks (boardToBoardHashSrc board) = b_castleRooks board.
Proof.
  intros Hwf.
  destruct (boardToBoardHashSrc_lossless board (Board_wf_packable board Hwf))
    as (Hsq & Hc & Hshift & _).
  split; [|split; [exact Hshift | exact Hc]].
  intros i Hi. destruct (Hsq i Hi) as [Hlow Hhigh].
  replace (2 * i) with (i * 2) by lia.
  split; [exact Hlow | exact Hhigh].
Qed.

Lemma startBoard_wf : Board_wf startBoard.
Proof.
  split; [|split].
  - intros j Hj.
    assert (H : forallb (fun j => (0 <=? rawBoard startBoard j)
                                  && (rawBoard startBoard j <? 2 ^ 64))
                        (zrange 8 0) = true) by (vm_compute; reflexivity).
    pose proof (forallb_zrange _ 8 0 H j ltac:(simpl; lia)) as Hb. cbv beta in Hb.
    apply andb_true_iff in Hb. destruct Hb as [H0 H1].
    apply Z.leb_le in H0. apply Z.ltb_lt in H1. lia.
  - intros sq Hsq. unfold SQUARE_NB in Hsq.
    assert (H : forallb (fun sq => let p := union_byte (rawBoard startBoard) sq in
                                   ((p <=? WHITE_KING) && (WHITE_PAWN <=? p))
                                   || ((BLACK_PAWN <=? p) && (p <=? BLACK_KING))
                                   || (p =? EMPTY))
                        (zrange 64 0) = true) by (vm_compute; reflexivity).
    pose proof (forallb_zrange _ 64 0 H sq ltac:(simpl; lia)) as Hb. cbv beta zeta in Hb.
    unfold piece_asserted.
    apply orb_true_iff in Hb. destruct Hb as [Hb|Hb];
      [apply orb_true_iff in Hb; destruct Hb as [Hb|Hb]|].
    + apply andb_true_iff in Hb. destruct Hb as [H0 H1].
      apply Z.leb_le in H0. apply Z.leb_le in H1. left. split; assumption.
    + apply andb_true_iff in Hb. destruct Hb as [H0 H1].
      apply Z.leb_le in H0. apply Z.leb_le in H1. right. left. split; assumption.
    + apply Z.eqb_eq in Hb. right. right. exact Hb.
  - intros k Hk.
    destruct (Z_lt_le_dec k 0) as [Hneg|Hnn];
      [rewrite Z.testbit_neg_r in Hk by exact Hneg; discriminate|].
    assert (Hrange : 0 <= b_castleRooks startBoard < 2 ^ 64) by closed_Z.
    destruct (Z_lt_le_dec k 64) as [Hlt|Hge];
      [|rewrite (bits_above_64 _ k Hrange Hge) in Hk; discriminate].
    assert (H : forallb (fun k => implb (Z.testbit (b_castleRooks startBoard) k)
                                        ((k <? 8) || (56 <=? k)))
                        (zrange 64 0) = true) by (vm_compute; reflexivity).
    pose proof (forallb_zrange _ 64 0 H k ltac:(simpl; lia)) as Hb. cbv beta in Hb.
    rewrite Hk in Hb. cbn [implb] in Hb.
    apply orb_true_iff in Hb. destruct Hb as [Hb|Hb].
    + apply Z.ltb_lt in Hb. lia.
    + apply Z.leb_le in Hb. lia.
Qed.

Lemma boardToBoardHashSrc_roundtrip_witness :
  Z.land (packedSquares (boardToBoardHashSrc startBoard) 0) 0x0F0F0F0F0F0F0F0F
  = rawBoard startBoard 0 /\
  Z.land (Z.shiftr (packedSquares (boardToBoardHashSrc startBoard) 3) 4)
         0x0F0F0F0F0F0F0F0F
  = rawBoard startBoard 7 /\
  Z.lor (hs_castleRooks (boardToBoardHashSrc startBoard) WHITE)
        (Z.shiftl (hs_castleRooks (boardToBoardHashSrc startBoard) BLACK) 56)
  = 0x8100000000000081.
Proof.
  destruct (boardToBoardHashSrc_roundtrip startBoard startBoard_wf)
    as (Hsq & Hc & _).
  split; [|split].
  - apply (Hsq 0). lia.
  - apply (Hsq 3). lia.
  - exact Hc.
Defined.
